(** * pam_session_timelimit: a shallow embedding of the PAM module

    The development follows [pam_session_timelimit.c]: the state file
    ("ledger") with its fixed-size records, the line-oriented limits file,
    and the three PAM entry points.  Bytes are [Byte.byte]; integers stored
    in the state file are little-endian machine words (the file format is
    native-endian, the model fixes the x86-64 / arm64 layout); C strings are
    byte lists read up to their first NUL. *)

From Stdlib Require Import ZArith List String Lia Bool.
From Stdlib Require Import Strings.Byte.
From coqutil Require Import Byte Word.LittleEndianList.
From stdpp Require Import base option list gmap strings.
Import ListNotations.

Local Open Scope Z_scope.

Abbreviation bytes := (list byte).

#[global] Instance byte_eq_decision : EqDecision byte := Byte.byte_eq_dec.

(** ** C strings and <string.h> / <ctype.h> *)

Module CString.

Definition is_nul (c : byte) : bool := Byte.eqb c x00.

(** [isspace] in the "C" locale: space, \t, \n, \v, \f, \r. *)
Definition isspace (c : byte) : bool :=
  match c with
  | x20 | x09 | x0a | x0b | x0c | x0d => true
  | _ => false
  end.

(** The string a [char *] denotes: the bytes in front of the first NUL. *)
Fixpoint c_str (s : bytes) : bytes :=
  match s with
  | [] => []
  | c :: r => if is_nul c then [] else c :: c_str r
  end.

Definition strlen (s : bytes) : nat := length (c_str s).

(** [strcmp(a, b) == 0] *)
Definition strcmp_eq (a b : bytes) : bool := bool_decide (c_str a = c_str b).

(** [strncmp(a, b, n) == 0].  Reading past the end of a list yields NUL:
    a list without terminator stands for the C string it spells. *)
Fixpoint strncmp_eq (n : nat) (a b : bytes) : bool :=
  match n with
  | O => true
  | S n' =>
      let ca := hd x00 a in
      let cb := hd x00 b in
      if Byte.eqb ca cb
      then (if is_nul ca then true else strncmp_eq n' (tl a) (tl b))
      else false
  end.

(** [strncpy(dst, src, n)]: exactly [n] bytes are written, NUL padded, and
    no terminator is added when [src] has [n] or more characters. *)
Fixpoint strncpy (n : nat) (src : bytes) : bytes :=
  match n with
  | O => []
  | S n' =>
      match src with
      | [] => replicate n x00
      | c :: r => if is_nul c then replicate n x00 else c :: strncpy n' r
      end
  end.

(** [strchr(s, c)] for [c <> NUL]: offset of the first [c] in the string. *)
Fixpoint strchr (c : byte) (s : bytes) : option nat :=
  match s with
  | [] => None
  | x :: r =>
      if Byte.eqb x c then Some O
      else if is_nul x then None
      else option_map S (strchr c r)
  end.

(** C string literals. *)
Definition lit (s : string) : bytes := String.list_byte_of_string s.

End CString.
Import CString.

(** ** PAM return codes, module data and the log *)

Inductive pam_code :=
| PAM_SUCCESS | PAM_SYSTEM_ERR | PAM_PERM_DENIED | PAM_BUF_ERR
| PAM_SESSION_ERR | PAM_BAD_ITEM | PAM_IGNORE | PAM_NO_MODULE_DATA.

#[global] Instance pam_code_eq_decision : EqDecision pam_code.
Proof. solve_decision. Defined.

(** What [pam_set_data] stores: the module keeps a formatted time span under
    "systemd.runtime_max_sec" and a [time_t] under "timelimit.session_start".
    [DataNull] is a key set to a NULL pointer. *)
Inductive pam_datum :=
| DataText (text : bytes)
| DataTime (t : Z)
| DataNull.

(** One constructor per [pam_syslog] call site. *)
Inductive log_entry :=
| LogNoRootPrivilege
| LogCreateStatefile
| LogLockStatefile
| LogInitStatefile
| LogOpenStatefile
| LogReadStatefile
| LogUnknownStatefileFormat
| LogUpdateStatefile
| LogNoConfigFile
| LogOpenConfigFile (path : string)
| LogInvalidConfigFile (path : string)
| LogUnknownArgument (arg : string)
| LogStartTimeMissing
| LogStartTimeInFuture
| LogLimiting (user limit : bytes)
| LogInvalidTimeLimit.

(** The mutable world of one invocation: the file system, the data the PAM
    handle carries between entry points, and the log. *)
Record state := {
  files : gmap string bytes;
  pam_data : gmap string pam_datum;
  syslog : list log_entry;
}.

Definition pam_syslog (m : log_entry) (s : state) : state :=
  {| files := files s; pam_data := pam_data s; syslog := syslog s ++ [m] |}.

Definition write_file (path : string) (content : bytes) (s : state) : state :=
  {| files := <[path := content]> (files s);
     pam_data := pam_data s; syslog := syslog s |}.

(** [struct tm] *)
Record tm := {
  tm_sec : Z; tm_min : Z; tm_hour : Z;
  tm_mday : Z; tm_mon : Z; tm_year : Z;
  tm_wday : Z; tm_yday : Z; tm_isdst : Z;
}.

(** What the module asks of the C library, the kernel and libpam.  The clock
    is read as one instant per invocation.  [localtime_r] depends on the
    system timezone setting; [timegm] does not. *)
Record env := {
  clock : Z;                          (* time(NULL) *)
  localtime_r : Z -> option tm;
  timegm : tm -> Z;
  geteuid : Z;
  setuid_root_ok : bool;              (* setuid(0) succeeds *)
  open_ok : bool;                     (* open(2) fails with ENOENT at most *)
  flock_ok : bool;                    (* flock(LOCK_EX) is granted *)
  fopen_ok : bool;                    (* fopen(path, "r") of an existing file *)
  stack_neighbour : byte;             (* the byte in front of the line buffer *)
  pam_user : pam_code * option bytes; (* pam_get_item(PAM_USER) *)
  set_data_status : string -> pam_code; (* pam_set_data's verdict per key *)
}.

(** Results of the embedded functions.  [Undefined] is C undefined behaviour
    the model does not follow further (a store outside an object, a
    dereference of the wrong pointer); [OutOfFuel] is a loop bound that ran
    out. *)
Inductive result (A : Type) :=
| Done (a : A)
| Undefined
| OutOfFuel.
Arguments Done {A} a.
Arguments Undefined {A}.
Arguments OutOfFuel {A}.

(** ** Machine integers *)

Definition two64 : Z := 2 ^ 64.

(** [time_t] is a signed 64-bit integer. *)
Definition time_t_of (z : Z) : Z := (z + 2 ^ 63) mod two64 - 2 ^ 63.

(** Modelled from the spec: [usec_t], [USEC_PER_SEC] and [USEC_INFINITY] come
    from time-util.h, which is not among the sources; the spec describes an
    unsigned microsecond counter that saturates at the maximum
    representable value. *)
Definition usec_of (z : Z) : Z := z mod two64.
Definition USEC_PER_SEC : Z := 1000000.
Definition USEC_INFINITY : Z := two64 - 1.

(** ** The state file *)

(** [NAME_MAX] of <limits.h> on Linux; [time_t] and [usec_t] are 64 bits
    wide. *)
Definition NAME_MAX : nat := 255.
Definition sizeof_time_t : nat := 8.
Definition sizeof_usec_t : nat := 8.

(** [sizeof(buf)] in [get_used_time_for_user] and [set_used_time_for_user]. *)
Definition record_size : nat := (NAME_MAX + 1 + sizeof_time_t + sizeof_usec_t)%nat.

(** The 12 bytes [open_state_path] writes into a new file. *)
Definition format_header : bytes := lit "Format: " ++ le_split 4 1.

Definition header_ok (buf : bytes) : bool :=
  strncmp_eq 8 buf (lit "Format: ")
  && (le_combine (take 4 (drop 8 buf)) =? 1).

(** [open_state_path]: [Some unread] is a descriptor positioned behind the
    header, given by the bytes not yet read; [None] is the -1 of the
    source. *)
Definition open_state_path (e : env) (statepath : string) (s : state)
  : option bytes * state :=
  if (geteuid e =? 0) && negb (setuid_root_ok e)
  then (None, pam_syslog LogNoRootPrivilege s)
  else
    match files s !! statepath with
    | None =>
        (* fd < 0 && errno == ENOENT *)
        if negb (open_ok e)
        then (None, pam_syslog LogCreateStatefile s)
        else
          let s1 := write_file statepath [] s in
          if negb (flock_ok e)
          then (None, pam_syslog LogLockStatefile s1)
          else (Some [], write_file statepath format_header s1)
    | Some content =>
        if negb (open_ok e)
        then (None, pam_syslog LogOpenStatefile s)
        else if negb (flock_ok e)
        then (None, pam_syslog LogLockStatefile s)
        else
          let buf := take 12 content in
          if negb (length buf =? 12)%nat
          then (None, pam_syslog LogReadStatefile s)
          else if negb (header_ok buf)
          then (None, pam_syslog LogUnknownStatefileFormat s)
          else (Some (drop 12 content), s)
    end.

(** [current_tm.tm_sec = current_tm.tm_min = current_tm.tm_hour = 0;] *)
Definition start_of_day (current_tm : tm) : tm :=
  {| tm_sec := 0; tm_min := 0; tm_hour := 0;
     tm_mday := tm_mday current_tm;
     tm_mon := tm_mon current_tm;
     tm_year := tm_year current_tm;
     tm_wday := tm_wday current_tm;
     tm_yday := tm_yday current_tm;
     tm_isdst := tm_isdst current_tm |}.

(** [time_today]: the local date at 00:00:00, converted as if it were UTC.
    The value is a [time_t]. *)
Definition time_today (e : env) : Z :=
  match localtime_r e (clock e) with
  | None => -1
  | Some current_tm => time_t_of (timegm e (start_of_day current_tm))
  end.

(** The record scan shared by the two ledger functions: their [do ... while]
    loops differ only in what they do with the matching record.  A [read] on
    the locked regular file returns the bytes that are there (no EINTR, no
    I/O error).  [consumed] counts the bytes read behind the header, [buf]
    and [buf_bytes] are the loop's variables; [read] stores at the start of
    [buf] whatever [buf_bytes] is. *)
Inductive scan_result :=
| ScanFound (buf : bytes) (consumed : nat)
| ScanEof (consumed : nat).

Fixpoint scan_records (fuel : nat) (username : bytes)
    (unread : bytes) (consumed : nat) (buf : bytes) (buf_bytes : nat)
  : option scan_result :=
  match fuel with
  | O => None
  | S fuel' =>
      let do_read (buf_bytes : nat) :=
        let data := take (record_size - buf_bytes) unread in
        let read_bytes := length data in
        if (read_bytes =? 0)%nat
        then Some (ScanEof consumed)
        else scan_records fuel' username (drop read_bytes unread)
               (consumed + read_bytes) (data ++ drop read_bytes buf)
               (buf_bytes + read_bytes)
      in
      if (buf_bytes =? record_size)%nat
      then
        if strncmp_eq (NAME_MAX + 1) username buf
        then Some (ScanFound buf consumed)
        else do_read O
      else do_read buf_bytes
  end.

(** The loop makes one pass per read, and every read but the last returns
    at least one byte. *)
Definition scan_fuel (unread : bytes) : nat := S (S (length unread)).

(** The stack buffer before the first read (its contents are never looked
    at before a full record has been read into it). *)
Definition fresh_buf : bytes := replicate record_size x00.

Definition record_last_seen (buf : bytes) : Z :=
  time_t_of (le_combine (take sizeof_time_t (drop (NAME_MAX + 1) buf))).

Definition record_used_time (buf : bytes) : Z :=
  le_combine (take sizeof_usec_t (drop (NAME_MAX + 1 + sizeof_time_t) buf)).

Definition get_used_time_for_user (e : env) (statepath : string)
    (username : bytes) (s : state) : result (pam_code * Z * state) :=
  match open_state_path e statepath s with
  | (None, s1) => Done (PAM_SYSTEM_ERR, 0, s1)
  | (Some unread, s1) =>
      match scan_records (scan_fuel unread) username unread O fresh_buf O with
      | None => OutOfFuel
      | Some (ScanFound buf _) =>
          if record_last_seen buf <? time_today e
          then Done (PAM_SUCCESS, 0, s1)
          else Done (PAM_SUCCESS, record_used_time buf, s1)
      | Some (ScanEof _) => Done (PAM_SUCCESS, 0, s1)
      end
  end.

(** The record [set_used_time_for_user] assembles in [buf]. *)
Definition make_record (e : env) (username : bytes) (used_time : Z) : bytes :=
  strncpy (NAME_MAX + 1) username
  ++ le_split sizeof_time_t (time_today e)
  ++ le_split sizeof_usec_t used_time.

(** [write] at offset [pos]: overwrites what is there and extends the file.
    On the locked regular file the call is taken to store all of [data] (no
    short write, no I/O error), as is the write of the header in
    [open_state_path]. *)
Definition pwrite (content : bytes) (pos : nat) (data : bytes) : bytes :=
  take pos content ++ data ++ drop (pos + length data) content.

Definition set_used_time_for_user (e : env) (statepath : string)
    (username : bytes) (used_time : Z) (s : state) : result (pam_code * state) :=
  match open_state_path e statepath s with
  | (None, s1) => Done (PAM_SYSTEM_ERR, s1)
  | (Some unread, s1) =>
      match scan_records (scan_fuel unread) username unread O fresh_buf O with
      | None => OutOfFuel
      | Some r =>
          let content := default [] (files s1 !! statepath) in
          let pos :=
            match r with
            | ScanFound _ consumed => (12 + consumed - record_size)%nat
            | ScanEof consumed => (12 + consumed)%nat
            end in
          Done (PAM_SUCCESS,
                write_file statepath
                  (pwrite content pos (make_record e username used_time)) s1)
      end
  end.

(** ** The limits file *)

(** [fgets(line, sizeof(line), config_file)] until it returns NULL: the
    file is cut after every newline and after every 1023 characters without
    one. *)
Fixpoint fgets_lines (room : nat) (line : bytes) (content : bytes) : list bytes :=
  match content with
  | [] => match line with [] => [] | _ => [line] end
  | c :: rest =>
      if Byte.eqb c x0a || (room =? 1)%nat
      then (line ++ [c]) :: fgets_lines 1023 [] rest
      else fgets_lines (room - 1) (line ++ [c]) rest
  end.

(** [line[length-1]] for a [size_t length].  At [length = 0] the index wraps
    around to [SIZE_MAX] and the access goes to the byte in front of the
    buffer, index -1, whose value the buffer's neighbour on the stack
    decides. *)
Definition line_before (stray : byte) (line : bytes) (length : nat) : byte :=
  match length with
  | O => stray
  | S i => nth i line x00
  end.

Definition index_before (length : nat) : Z := Z.of_nat length - 1.

(** [while (isspace(line[length-1])) line[--length] = '\0';]
    Returns the buffer and [length] behind the loop, and the indices at
    which the loop condition read [line]. *)
Fixpoint eat_trailing_whitespace (stray : byte) (line : bytes) (length : nat)
  {struct length} : result (bytes * nat) * list Z :=
  match length with
  | O =>
      if isspace stray
      then (Undefined, [index_before O])
      else (Done (line, O), [index_before O])
  | S n =>
      if isspace (nth n line x00)
      then
        let '(r, reads) := eat_trailing_whitespace stray (<[n := x00]> line) n in
        (r, index_before (S n) :: reads)
      else (Done (line, S n), [index_before (S n)])
  end.

(** [for (i = 0; i <= length; i++) if (isspace(line[i])) break;] on
    [line[0..length]]: the offset of the first whitespace, or [length + 1]
    when there is none. *)
Fixpoint username_end (line : bytes) : nat :=
  match line with
  | [] => O
  | c :: rest => if isspace c then O else S (username_end rest)
  end.

(** [while (isspace( *line)) line++;] *)
Fixpoint skip_whitespace (line : bytes) : bytes :=
  match line with
  | [] => []
  | c :: rest => if isspace c then skip_whitespace rest else line
  end.

(** The buffer and [length] with which [parse_config_line] enters the
    whitespace loop: the newline is gone and the comment is cut off. *)
Definition strip_comment (line : bytes) (length : nat) : bytes * nat :=
  let line := <[length := x00]> line in
  match strchr x23 line with
  | Some comment => (<[comment := x00]> line, comment)
  | None => (line, length)
  end.

(** [parse_config_line]: the return code with [*user] and [*limit].
    [malloc] and [strdup] are taken to succeed. *)
Definition parse_config_line (stray : byte) (line : bytes)
  : result (pam_code * option bytes * option bytes) :=
  let length := strlen line in
  if negb (Byte.eqb (line_before stray line length) x0a)
  then Done (PAM_BUF_ERR, None, None)
  else
    match length with
    | O => Undefined
    | S length =>
        let '(line, length) := strip_comment line length in
        match fst (eat_trailing_whitespace stray line length) with
        | Undefined => Undefined
        | OutOfFuel => OutOfFuel
        | Done (line, length) =>
            if (length =? 0)%nat
            then Done (PAM_SUCCESS, None, None)
            else
              let i := username_end (take (S length) line) in
              if (i =? 0)%nat
              then Done (PAM_SYSTEM_ERR, None, None)
              else
                let user := c_str (take i line) in
                let line := skip_whitespace (drop i line) in
                if is_nul (hd x00 line)
                then Done (PAM_SYSTEM_ERR, None, None)
                else Done (PAM_SUCCESS, Some user, Some (c_str line))
        end
    end.

(** The [while (fgets(...))] loop of [parse_config_file]: [None] is the
    "invalid config file" exit. *)
Fixpoint read_config_lines (stray : byte) (lines : list bytes)
    (results : list (bytes * bytes)) : result (option (list (bytes * bytes))) :=
  match lines with
  | [] => Done (Some results)
  | line :: more =>
      match parse_config_line stray (line ++ [x00]) with
      | Done (PAM_SUCCESS, Some user, Some limit) =>
          read_config_lines stray more (results ++ [(user, limit)])
      | Done (PAM_SUCCESS, _, _) => read_config_lines stray more results
      | Done _ => Done None
      | Undefined => Undefined
      | OutOfFuel => OutOfFuel
      end
  end.

Definition parse_config_file (e : env) (path : string) (s : state)
  : result (pam_code * list (bytes * bytes)) * state :=
  match files s !! path with
  | None => (Done (PAM_IGNORE, []), pam_syslog LogNoConfigFile s)
  | Some content =>
      if negb (fopen_ok e)
      then (Done (PAM_PERM_DENIED, []), pam_syslog (LogOpenConfigFile path) s)
      else
        match read_config_lines (stack_neighbour e)
                (fgets_lines 1023 [] content) [] with
        | Done None =>
            (Done (PAM_PERM_DENIED, []), pam_syslog (LogInvalidConfigFile path) s)
        | Done (Some []) => (Done (PAM_IGNORE, []), s)
        | Done (Some results) => (Done (PAM_SUCCESS, results), s)
        | Undefined => (Undefined, s)
        | OutOfFuel => (OutOfFuel, s)
        end
  end.

(** ** libpam *)

Definition pam_get_data (key : string) (s : state) : pam_code * option pam_datum :=
  match pam_data s !! key with
  | Some d => (PAM_SUCCESS, Some d)
  | None => (PAM_NO_MODULE_DATA, None)
  end.

Definition pam_set_data (e : env) (key : string) (d : pam_datum) (s : state)
  : pam_code * state :=
  if decide (set_data_status e key = PAM_SUCCESS)
  then (PAM_SUCCESS,
        {| files := files s; pam_data := <[key := d]> (pam_data s);
           syslog := syslog s |})
  else (set_data_status e key, s).

(** ** The entry points *)

(** [CONFIGDIR] and [LOCALSTATEDIR] come from the build; these are the
    defaults the manual page documents. *)
Definition DEFAULT_CONFIG_PATH : string := "/etc/security/time_limits.conf".
Definition DEFAULT_STATE_PATH : string := "/var/lib/session_times".

Definition option_value (prefix arg : string) : string :=
  String.substring (String.length prefix)
    (String.length arg - String.length prefix) arg.

(** [pam_sm_open_session]; [malloc] is taken to succeed. *)
Definition pam_sm_open_session (e : env) (s : state) : pam_code * state :=
  match pam_set_data e "timelimit.session_start" (DataTime (clock e)) s with
  | (PAM_SUCCESS, s1) => (PAM_SUCCESS, s1)
  | (_, _) => (PAM_SYSTEM_ERR, s)
  end.

(** The argument loop of [pam_sm_close_session]: the state path, or the
    first argument that is not [statepath=]. *)
Fixpoint close_session_args (argv : list string) (statepath : option string)
  : string + option string :=
  match argv with
  | [] => inr statepath
  | arg :: rest =>
      if String.prefix "statepath=" arg
      then close_session_args rest (Some (option_value "statepath=" arg))
      else inl arg
  end.

(** [if (USEC_INFINITY - used_time < elapsed_time) elapsed_time = USEC_INFINITY;
     else elapsed_time += used_time;] on 64-bit unsigned words. *)
Definition accumulate (used_time elapsed_time : Z) : Z :=
  if usec_of (USEC_INFINITY - used_time) <? elapsed_time
  then USEC_INFINITY
  else usec_of (elapsed_time + used_time).

Definition published (s : state) : bool :=
  match pam_get_data "systemd.runtime_max_sec" s with
  | (PAM_SUCCESS, Some DataNull) => false
  | (PAM_SUCCESS, Some _) => true
  | _ => false
  end.

(** [pam_sm_close_session].  The source asks for
    "timelimit.session_start" twice, in front of the argument loop and
    behind it; only the second answer is used.  A datum under that key that
    is no [time_t] makes [*start_time] meaningless. *)
Definition pam_sm_close_session (e : env) (argv : list string) (s : state)
  : result (pam_code * state) :=
  let end_time := clock e in
  if negb (published s)
  then Done (PAM_SUCCESS, s)
  else
    match close_session_args argv None with
    | inl arg => Done (PAM_SYSTEM_ERR, pam_syslog (LogUnknownArgument arg) s)
    | inr statepath =>
        let statepath := default DEFAULT_STATE_PATH statepath in
        match pam_get_data "timelimit.session_start" s with
        | (PAM_SUCCESS, Some (DataTime start_time)) =>
            if end_time <? start_time
            then Done (PAM_SESSION_ERR, pam_syslog LogStartTimeInFuture s)
            else
              let elapsed_time := usec_of ((end_time - start_time) * USEC_PER_SEC) in
              match pam_user e with
              | (PAM_SUCCESS, Some username) =>
                  match get_used_time_for_user e statepath username s with
                  | Done (PAM_SUCCESS, used_time, s1) =>
                      match set_used_time_for_user e statepath username
                              (accumulate used_time elapsed_time) s1 with
                      | Done (PAM_SUCCESS, s2) => Done (PAM_SUCCESS, s2)
                      | Done (_, s2) => Done (PAM_SESSION_ERR, s2)
                      | Undefined => Undefined
                      | OutOfFuel => OutOfFuel
                      end
                  | Done (_, _, s1) => Done (PAM_SESSION_ERR, s1)
                  | Undefined => Undefined
                  | OutOfFuel => OutOfFuel
                  end
              | (PAM_SUCCESS, None) => Done (PAM_SESSION_ERR, s)
              | (retval, _) => Done (retval, s)
              end
        | (PAM_SUCCESS, _) => Undefined
        | (_, _) => Done (PAM_SESSION_ERR, pam_syslog LogStartTimeMissing s)
        end
    end.

(** The argument loop of [pam_sm_acct_mgmt]. *)
Fixpoint acct_mgmt_args (argv : list string) (path statepath : option string)
  : string + (option string * option string) :=
  match argv with
  | [] => inr (path, statepath)
  | arg :: rest =>
      if String.prefix "path=" arg
      then acct_mgmt_args rest (Some (option_value "path=" arg)) statepath
      else if String.prefix "statepath=" arg
      then acct_mgmt_args rest path (Some (option_value "statepath=" arg))
      else inl arg
  end.

(** [for (i = 0; user_table[i]; i += 2)]: every matching entry overwrites
    [runtime_max_sec] and is logged. *)
Fixpoint match_user (user_table : list (bytes * bytes)) (username : bytes)
    (runtime_max_sec : option bytes) (s : state) : option bytes * state :=
  match user_table with
  | [] => (runtime_max_sec, s)
  | (user, limit) :: rest =>
      if strcmp_eq user username
      then match_user rest username (Some limit)
             (pam_syslog (LogLimiting username limit) s)
      else match_user rest username runtime_max_sec s
  end.

Section TimeSpanCodec.

(** The time-span codec of time-util.c, which is not among the sources:
    [parse_time] yields the microseconds of a time span or fails,
    [format_timespan] yields its text or NULL. *)
Variable parse_time : bytes -> option Z.
Variable format_timespan : Z -> option bytes.

(** [pam_sm_acct_mgmt] from the [parse_time] call to its end. *)
Definition enforce_limit (e : env) (statepath : string) (username : bytes)
    (runtime_max_sec : bytes) (s : state) : result (pam_code * state) :=
  match parse_time runtime_max_sec with
  | None => Done (PAM_PERM_DENIED, pam_syslog LogInvalidTimeLimit s)
  | Some timeval =>
      match get_used_time_for_user e statepath username s with
      | Done (PAM_SUCCESS, used_time, s1) =>
          if timeval <=? used_time
          then Done (PAM_PERM_DENIED, s1)
          else
            let timeval := usec_of (timeval - used_time) in
            match format_timespan timeval with
            | None => Done (PAM_PERM_DENIED, s1)
            | Some text =>
                match pam_set_data e "systemd.runtime_max_sec" (DataText text) s1 with
                | (PAM_SUCCESS, s2) => Done (PAM_SUCCESS, s2)
                | (_, s2) => Done (PAM_PERM_DENIED, s2)
                end
            end
      | Done (_, _, s1) => Done (PAM_PERM_DENIED, s1)
      | Undefined => Undefined
      | OutOfFuel => OutOfFuel
      end
  end.

(** [pam_sm_acct_mgmt] up to the [parse_time] call. *)
Definition pam_sm_acct_mgmt (e : env) (argv : list string) (s : state)
  : result (pam_code * state) :=
  match acct_mgmt_args argv None None with
  | inl arg => Done (PAM_PERM_DENIED, pam_syslog (LogUnknownArgument arg) s)
  | inr (path, statepath) =>
      let path := default DEFAULT_CONFIG_PATH path in
      let statepath := default DEFAULT_STATE_PATH statepath in
      match pam_user e with
      | (PAM_SUCCESS, Some username) =>
          match parse_config_file e path s with
          | (Done (PAM_SUCCESS, user_table), s1) =>
              match match_user user_table username None s1 with
              | (None, s2) => Done (PAM_IGNORE, s2)
              | (Some runtime_max_sec, s2) =>
                  enforce_limit e statepath username runtime_max_sec s2
              end
          | (Done (retval, _), s1) => Done (retval, s1)
          | (Undefined, _) => Undefined
          | (OutOfFuel, _) => OutOfFuel
          end
      | (PAM_SUCCESS, None) => Done (PAM_PERM_DENIED, s)
      | (retval, _) => Done (retval, s)
      end
  end.

End TimeSpanCodec.

(** ** Concrete runs

    A small world on which the theorems below are instantiated: the user
    "ted", a state file at "data/state", limits files under "data/", and a
    stand-in time-span codec that knows the spans the test-suite uses. *)

Module Sample.

Definition hour : Z := 3600 * USEC_PER_SEC.

Definition parse_time (text : bytes) : option Z :=
  if bool_decide (text = lit "5h") then Some (5 * hour)
  else if bool_decide (text = lit "12h") then Some (12 * hour)
  else None.

Definition format_timespan (t : Z) : option bytes :=
  if t =? 5 * hour then Some (lit "5h")
  else if t =? 7 * hour then Some (lit "7h")
  else if t =? 12 * hour then Some (lit "12h")
  else Some (lit "other").

(** A calendar of days without months, enough to tell dates apart. *)
Definition gmtime_like (t : Z) : tm :=
  {| tm_sec := t mod 60; tm_min := t / 60 mod 60; tm_hour := t / 3600 mod 24;
     tm_mday := t / 86400; tm_mon := 0; tm_year := 70;
     tm_wday := 0; tm_yday := 0; tm_isdst := 0 |}.

Definition timegm_like (t : tm) : Z :=
  tm_mday t * 86400 + tm_hour t * 3600 + tm_min t * 60 + tm_sec t.

(** A machine at UTC+1 whose clock reads 1700003600: local time is 00:13:20
    of day 19676, and that calendar day read as UTC starts at 1700006400. *)
Definition sys : env :=
  {| clock := 1700003600;
     localtime_r := fun t => Some (gmtime_like (t + 3600));
     timegm := timegm_like;
     geteuid := 0; setuid_root_ok := true;
     open_ok := true; flock_ok := true; fopen_ok := true;
     stack_neighbour := x00;
     pam_user := (PAM_SUCCESS, Some (lit "ted"));
     set_data_status := fun _ => PAM_SUCCESS |}.

(** The same machine with a per-session store that rejects every write. *)
Definition sys_store_full : env :=
  {| clock := clock sys; localtime_r := localtime_r sys; timegm := timegm sys;
     geteuid := 0; setuid_root_ok := true;
     open_ok := true; flock_ok := true; fopen_ok := true;
     stack_neighbour := x00;
     pam_user := (PAM_SUCCESS, Some (lit "ted"));
     set_data_status := fun _ => PAM_BUF_ERR |}.

Definition nl : bytes := [x0a].

Definition conf_two_entries : bytes :=
  lit "# limits" ++ nl ++ lit "ted 5h" ++ nl ++ nl ++ lit "bob 5h" ++ nl
  ++ lit "ted 12h" ++ nl.

Definition conf_only_comments : bytes :=
  lit "# nothing here" ++ nl ++ lit "   " ++ nl ++ nl.

(** The first line starts with a blank. *)
Definition conf_leading_blank : bytes :=
  lit " ted 5h" ++ nl ++ lit "bob 5h" ++ nl.

Definition empty_world : state :=
  {| files := ∅; pam_data := ∅; syslog := [] |}.

Definition with_file (path : string) (content : bytes) (s : state) : state :=
  write_file path content s.

Definition world : state :=
  with_file "data/limits" conf_two_entries
    (with_file "data/comments" conf_only_comments
       (with_file "data/broken" conf_leading_blank empty_world)).

Definition args : list string := ["path=data/limits"; "statepath=data/state"].

(** A ledger holding one record: five hours used by "ted", stamped [day]. *)
Definition ledger_ted (day : Z) : bytes :=
  format_header ++ strncpy (NAME_MAX + 1) (lit "ted")
  ++ le_split sizeof_time_t day ++ le_split sizeof_usec_t (5 * hour).


(** A ledger cut in the middle of its only record, as the test-suite's
    [truncate("data/state", 50)] leaves it, and the state after the same
    charge on it. *)
Definition truncated_world : state :=
  with_file "data/state" (take 50 (ledger_ted (time_today sys))) world.


(** A state file of another format version. *)
Definition foreign_world : state :=
  with_file "data/state" (lit "Format: " ++ le_split 4 2) world.

(** A ledger whose record for "ted" is from the epoch. *)
Definition stale_world : state := with_file "data/state" (ledger_ted 0) world.

(** "ted" has used five hours today. *)
Definition used_world : state :=
  with_file "data/state" (ledger_ted (time_today sys)) world.

(** The entries of "data/limits", and the state behind the matching loop. *)
Definition table : list (bytes * bytes) :=
  [(lit "ted", lit "5h"); (lit "bob", lit "5h"); (lit "ted", lit "12h")].

Definition after_match (s : state) : state :=
  snd (match_user table (lit "ted") None s).

(** A session of "ted" that was admitted with a limit and opened an hour
    ago. *)
Definition session_world : state :=
  {| files := files used_world;
     pam_data :=
       <["timelimit.session_start" := DataTime (clock sys - 3600)]>
         (<["systemd.runtime_max_sec" := DataText (lit "7h")]> ∅);
     syslog := [] |}.

(** A record as the module lays it out. *)
Definition record_of (name : bytes) (day used : Z) : bytes :=
  strncpy (NAME_MAX + 1) name
  ++ le_split sizeof_time_t day ++ le_split sizeof_usec_t used.

(** A ledger with today's records of "bob" (one hour) and "ted" (five
    hours). *)
Definition two_user_world : state :=
  with_file "data/state"
    (format_header ++ record_of (lit "bob") (time_today sys) hour
       ++ record_of (lit "ted") (time_today sys) (5 * hour))
    world.

(** The same machine when the lock on the state file is not granted. *)
Definition sys_no_lock : env :=
  {| clock := clock sys; localtime_r := localtime_r sys; timegm := timegm sys;
     geteuid := 0; setuid_root_ok := true;
     open_ok := true; flock_ok := false; fopen_ok := true;
     stack_neighbour := x00;
     pam_user := (PAM_SUCCESS, Some (lit "ted"));
     set_data_status := fun _ => PAM_SUCCESS |}.

(** Two names of 257 characters that differ in the last one only. *)
Definition long_name (last : byte) : bytes := replicate 256 x41 ++ [last].

(** "ted" has been admitted with seven hours left; the session has not
    been opened yet. *)
Definition admitted_world : state :=
  {| files := files used_world;
     pam_data := <["systemd.runtime_max_sec" := DataText (lit "7h")]> ∅;
     syslog := [] |}.

(** The same machine an hour later. *)
Definition sys_later : env :=
  {| clock := clock sys + 3600;
     localtime_r := localtime_r sys; timegm := timegm sys;
     geteuid := 0; setuid_root_ok := true;
     open_ok := true; flock_ok := true; fopen_ok := true;
     stack_neighbour := x00;
     pam_user := (PAM_SUCCESS, Some (lit "ted"));
     set_data_status := fun _ => PAM_SUCCESS |}.



End Sample.

(** ** Vocabulary of the statements *)

(** A full record of the state file that belongs to somebody else. *)
Definition other_record (u r : bytes) : Prop :=
  length r = record_size /\ strncmp_eq (NAME_MAX + 1) u r = false.

(** The loop states in which the next [read] starts a fresh record: nothing
    buffered yet, or a full record that did not match. *)
Definition idle (u buf : bytes) (buf_bytes : nat) : Prop :=
  length buf = record_size /\
  (buf_bytes = O \/
   (buf_bytes = record_size /\ strncmp_eq (NAME_MAX + 1) u buf = false)).

(** The state file holds whole records behind its 12-byte header. *)
Definition whole_records (content : bytes) : bool :=
  ((length content - 12) mod record_size =? 0)%nat.

(** A ledger that is not there yet, or one made of whole records. *)
Definition ledger_whole (ledger : option bytes) : Prop :=
  match ledger with
  | None => True
  | Some content => whole_records content = true
  end.

(** A ledger the module accepts and keeps on its record grid: none yet, or
    the 12-byte header it knows followed by whole records. *)
Definition ledger_sound (ledger : option bytes) : bool :=
  match ledger with
  | None => true
  | Some content =>
      (length (take 12 content) =? 12)%nat
      && header_ok (take 12 content) && whole_records content
  end.

(** The process may open and lock the state file. *)
Definition ledger_access (e : env) : bool :=
  negb ((geteuid e =? 0) && negb (setuid_root_ok e))
  && open_ok e && flock_ok e.

(** The entry a line of the limits file contributes, if any. *)
Definition line_entry (stray : byte) (line : bytes) : option (bytes * bytes) :=
  match parse_config_line stray (line ++ [x00]) with
  | Done (PAM_SUCCESS, Some user, Some limit) => Some (user, limit)
  | _ => None
  end.

(** [parse_config_line] returns [PAM_SUCCESS] on the line. *)
Definition line_accepted (stray : byte) (line : bytes) : bool :=
  match parse_config_line stray (line ++ [x00]) with
  | Done (PAM_SUCCESS, _, _) => true
  | _ => false
  end.

(** [parse_config_line] returns an error code on the line. *)
Definition line_rejected (stray : byte) (line : bytes) : bool :=
  match parse_config_line stray (line ++ [x00]) with
  | Done (PAM_SUCCESS, _, _) => false
  | Done _ => true
  | _ => false
  end.

(** The entry is for another user than [username]. *)
Definition other_user (username : bytes) (entry : bytes * bytes) : bool :=
  negb (strcmp_eq (fst entry) username).

(** The line contributes no entry for [username]. *)
Definition line_of_other_user (stray : byte) (username line : bytes) : bool :=
  match line_entry stray line with
  | Some entry => other_user username entry
  | None => true
  end.

(** The indices at which the trailing-whitespace loop of
    [parse_config_line] reads the line buffer, for a line that ends in a
    newline and so gets as far as the loop. *)
Definition whitespace_loop_reads (stray : byte) (line : bytes) : list Z :=
  let '(stripped, length) := strip_comment line (strlen line - 1) in
  snd (eat_trailing_whitespace stray stripped length).

Definition in_bounds (line : bytes) (i : Z) : bool :=
  (0 <=? i) && (i <? Z.of_nat (length line)).

(** An option the admission check knows. *)
Definition recognised (arg : string) : bool :=
  String.prefix "path=" arg || String.prefix "statepath=" arg.

Definition with_files (fs : gmap string bytes) (s : state) : state :=
  {| files := fs; pam_data := pam_data s; syslog := syslog s |}.

Definition publish (text : bytes) (s : state) : state :=
  {| files := files s;
     pam_data := <["systemd.runtime_max_sec" := DataText text]> (pam_data s);
     syslog := syslog s |}.

(** What is left of the line once newline and comment are gone is empty or
    whitespace. *)
Definition blank_after_strip (line : bytes) : bool :=
  let '(stripped, length) := strip_comment line (strlen line - 1) in
  forallb isspace (take length stripped).

(** The sum the spec asks of session close: [used + elapsed], or the
    largest representable value when the sum is not representable. *)
Definition saturating_sum (used elapsed : Z) : Z :=
  if used + elapsed <=? USEC_INFINITY then used + elapsed else USEC_INFINITY.

(** ** Vocabulary of the further properties *)

(** The part of a user name the ledger keeps and compares: the first
    [NAME_MAX + 1] bytes of the string. *)
Definition ledger_key (u : bytes) : bytes := take (NAME_MAX + 1) (c_str u).

(** What [get_used_time_for_user] makes of the record it matched. *)
Definition record_value (e : env) (buf : bytes) : Z :=
  if record_last_seen buf <? time_today e then 0 else record_used_time buf.

(** Return code and value of a ledger read. *)
Definition reading (r : result (pam_code * Z * state)) : option (pam_code * Z) :=
  match r with
  | Done (code, used, _) => Some (code, used)
  | _ => None
  end.

(** The size of the state file, 0 when there is none. *)
Definition ledger_size (ledger : option bytes) : nat :=
  match ledger with
  | Some content => length content
  | None => O
  end.

(** Characters of the limits file: [plain] is neither NUL nor '#', a
    [word_char] is plain and no whitespace. *)
Definition plain (c : byte) : bool := negb (is_nul c) && negb (Byte.eqb c x23).

Definition word_char (c : byte) : bool := plain c && negb (isspace c).

(** The part of [parse_config_line] behind the removal of newline and
    comment, on the buffer and [length] that removal leaves. *)
Definition parse_stripped (stray : byte) (stripped : bytes * nat)
  : result (pam_code * option bytes * option bytes) :=
  let '(line, length) := stripped in
  match fst (eat_trailing_whitespace stray line length) with
  | Undefined => Undefined
  | OutOfFuel => OutOfFuel
  | Done (line, length) =>
      if (length =? 0)%nat
      then Done (PAM_SUCCESS, None, None)
      else
        let i := username_end (take (S length) line) in
        if (i =? 0)%nat
        then Done (PAM_SYSTEM_ERR, None, None)
        else
          let user := c_str (take i line) in
          let line := skip_whitespace (drop i line) in
          if is_nul (hd x00 line)
          then Done (PAM_SYSTEM_ERR, None, None)
          else Done (PAM_SUCCESS, Some user, Some (c_str line))
  end.

(** What may follow the entry on a line: nothing, or a comment. *)
Definition comment_text (comment : option bytes) : bytes :=
  match comment with
  | None => []
  | Some text => x23 :: text
  end.

(** No NUL among the bytes. *)
Definition no_nul (l : bytes) : bool := forallb (fun c => negb (is_nul c)) l.

(** The text of a comment holds no NUL. *)
Definition comment_ok (comment : option bytes) : bool :=
  match comment with
  | None => true
  | Some text => no_nul text
  end.

(** The part of [parse_config_line] behind the whitespace loop: the search
    for the end of the user name and for the start of the limit. *)
Definition split_entry (line : bytes) (length : nat)
  : result (pam_code * option bytes * option bytes) :=
  if (length =? 0)%nat
  then Done (PAM_SUCCESS, None, None)
  else
    let i := username_end (take (S length) line) in
    if (i =? 0)%nat
    then Done (PAM_SYSTEM_ERR, None, None)
    else
      let user := c_str (take i line) in
      let line := skip_whitespace (drop i line) in
      if is_nul (hd x00 line)
      then Done (PAM_SYSTEM_ERR, None, None)
      else Done (PAM_SUCCESS, Some user, Some (c_str line)).

(** *** Limits files by their lines *)

Definition no_newline (l : bytes) : bool :=
  forallb (fun c => negb (Byte.eqb c x0a)) l.

Definition nonempty (l : bytes) : bool :=
  match l with
  | [] => false
  | _ => true
  end.

(** A line of a limits file as its author means it: an entry, that is a
    user name, whitespace, a limit, optional whitespace and an optional
    comment; or a line without entry, that is optional whitespace and an
    optional comment. *)
Inductive conf_line : Type :=
  | Entry (user sep limit pad : bytes) (comment : option bytes)
  | Blank (pad : bytes) (comment : option bytes).

(** The characters of the line, without its newline. *)
Definition conf_line_text (l : conf_line) : bytes :=
  match l with
  | Entry user sep limit pad comment =>
      user ++ sep ++ limit ++ pad ++ comment_text comment
  | Blank pad comment => pad ++ comment_text comment
  end.

Definition conf_line_entry (l : conf_line) : option (bytes * bytes) :=
  match l with
  | Entry user _ limit _ _ => Some (user, limit)
  | Blank _ _ => None
  end.

(** The parts are what they are meant to be: the user name holds no
    whitespace, the limit starts and ends with a character that is no
    whitespace, and neither holds a NUL or a '#'; a line without entry needs
    the byte in front of the line buffer to be no whitespace. *)
Definition conf_line_parts_ok (stray : byte) (l : conf_line) : bool :=
  match l with
  | Entry user sep limit pad comment =>
      nonempty user && forallb word_char user
      && nonempty sep && forallb isspace sep
      && forallb plain limit
      && negb (isspace (hd x20 limit)) && negb (isspace (List.last limit x20))
      && forallb isspace pad && comment_ok comment
  | Blank pad comment =>
      negb (isspace stray) && forallb isspace pad && comment_ok comment
  end.

(** The line is well formed and fits into the line buffer together with
    its newline. *)
Definition conf_line_ok (stray : byte) (l : conf_line) : bool :=
  conf_line_parts_ok stray l
  && no_newline (conf_line_text l)
  && (length (conf_line_text l) <=? 1022)%nat.

(** The limits file made of the lines. *)
Definition conf_text (ls : list conf_line) : bytes :=
  concat (map (fun l => conf_line_text l ++ [x0a]) ls).

(** The line holds no entry for [username]. *)
Definition conf_line_of_other_user (username : bytes) (l : conf_line) : bool :=
  match conf_line_entry l with
  | Some entry => other_user username entry
  | None => true
  end.

Module SampleLimits.

Definition lines : list conf_line :=
  [ Blank [] (Some (lit " daily limits"));
    Entry (lit "ted") (lit " ") (lit "1h 30m") [] None;
    Blank (lit "  ") None;
    Entry (lit "ann") [x09] (lit "2h") (lit " ") (Some (lit " weekdays")) ].

Definition world : state :=
  Sample.with_file "data/limits" (conf_text lines) Sample.empty_world.

(** The same lines and a last line without newline. *)
Definition world_unterminated : state :=
  Sample.with_file "data/limits" (conf_text lines ++ lit "bob 5h")
    Sample.empty_world.

(** A limits file that does not name "ted". *)
Definition others : list conf_line :=
  [ Entry (lit "ann") (lit " ") (lit "2h") [] None;
    Blank [] (Some (lit " teddy is not ted"));
    Entry (lit "teddy") (lit " ") (lit "1h") [] None ].

Definition world_others : state :=
  Sample.with_file "data/limits" (conf_text others) Sample.empty_world.

End SampleLimits.

(** *** What an entry point may leave behind *)

(** The state file is as it was, or it was not there and has been created:
    empty, when the lock was not granted, or with the header. *)
Definition created_at_most (before after : option bytes) : Prop :=
  after = before
  \/ (before = None /\ (after = Some [] \/ after = Some format_header)).

(** Every file but the one at [path] is as it was. *)
Definition other_files_kept (path : string) (s s' : state) : Prop :=
  forall other : string, other <> path -> files s' !! other = files s !! other.

(** * Properties *)

(** ** C strings *)

Lemma byte_eqb_refl (c : byte) : Byte.eqb c c = true.
Proof. now apply Byte.byte_dec_lb. Qed.

Lemma is_nul_true (c : byte) : is_nul c = true -> c = x00.
Proof. unfold is_nul. apply Byte.byte_dec_bl. Qed.

Lemma strncpy_length (n : nat) (src : bytes) : length (strncpy n src) = n.
Proof.
  revert src. induction n as [|n IH]; intros src; [reflexivity|].
  destruct src as [|c r]; cbn [strncpy].
  - apply length_replicate.
  - destruct (is_nul c); [apply length_replicate|].
    cbn [length]. now rewrite IH.
Qed.

(** A name field written by [strncpy] compares equal to the name it was
    written from, whatever follows the field and whether or not the name
    fills it. *)
Lemma strncmp_strncpy (n : nat) (src rest : bytes) :
  strncmp_eq n src (strncpy n src ++ rest) = true.
Proof.
  revert src. induction n as [|n IH]; intros src; [reflexivity|].
  destruct src as [|c r]; cbn [strncpy strncmp_eq].
  - reflexivity.
  - destruct (is_nul c) eqn:Hc.
    + apply is_nul_true in Hc. subst c. reflexivity.
    + cbn [app hd tl]. rewrite byte_eqb_refl, Hc. apply IH.
Qed.

(** ** Machine integers *)

Lemma time_t_of_mod (z : Z) : time_t_of (z mod two64) = time_t_of z.
Proof.
  unfold time_t_of. f_equal. apply Z.add_mod_idemp_l. discriminate.
Qed.

Lemma time_t_of_range (z : Z) : - 2 ^ 63 <= time_t_of z < 2 ^ 63.
Proof.
  unfold time_t_of, two64.
  pose proof (Z.mod_pos_bound (z + 2 ^ 63) (2 ^ 64) eq_refl). lia.
Qed.

Lemma time_t_of_id (z : Z) : - 2 ^ 63 <= z < 2 ^ 63 -> time_t_of z = z.
Proof.
  intros H. unfold time_t_of, two64. rewrite Z.mod_small; lia.
Qed.

Lemma time_today_range (e : env) : - 2 ^ 63 <= time_today e < 2 ^ 63.
Proof.
  unfold time_today. destruct (localtime_r e (clock e)).
  - apply time_t_of_range.
  - lia.
Qed.

Lemma le_combine_split_8 (z : Z) : le_combine (le_split 8 z) = z mod two64.
Proof. apply (le_combine_split 8). Qed.

Lemma usec_of_id (z : Z) : 0 <= z < two64 -> usec_of z = z.
Proof. intros H. unfold usec_of. now apply Z.mod_small. Qed.

(** ** Records *)

Lemma record_size_eq : record_size = 272%nat.
Proof. reflexivity. Qed.

Lemma make_record_length (e : env) (u : bytes) (used : Z) :
  length (make_record e u used) = record_size.
Proof.
  unfold make_record. rewrite !length_app, strncpy_length, !length_le_split.
  reflexivity.
Qed.

Lemma make_record_matches (e : env) (u : bytes) (used : Z) :
  strncmp_eq (NAME_MAX + 1) u (make_record e u used) = true.
Proof. unfold make_record. apply strncmp_strncpy. Qed.

Lemma make_record_last_seen (e : env) (u : bytes) (used : Z) :
  record_last_seen (make_record e u used) = time_today e.
Proof.
  unfold record_last_seen, make_record.
  rewrite drop_app_length' by (now rewrite strncpy_length).
  rewrite take_app_length' by (now rewrite length_le_split).
  unfold sizeof_time_t. rewrite le_combine_split_8, time_t_of_mod.
  apply time_t_of_id, time_today_range.
Qed.

Lemma make_record_used_time (e : env) (u : bytes) (used : Z) :
  record_used_time (make_record e u used) = usec_of used.
Proof.
  unfold record_used_time, make_record.
  rewrite app_assoc.
  rewrite drop_app_length'
    by (now rewrite length_app, strncpy_length, length_le_split).
  rewrite take_ge by (now rewrite length_le_split).
  apply le_combine_split_8.
Qed.

Lemma record_used_time_range (buf : bytes) : 0 <= record_used_time buf < two64.
Proof.
  unfold record_used_time.
  pose proof (le_combine_bound
    (take sizeof_usec_t (drop (NAME_MAX + 1 + sizeof_time_t) buf))) as H.
  rewrite length_take in H.
  assert (2 ^ (8 * Z.of_nat (sizeof_usec_t `min`
     length (drop (NAME_MAX + 1 + sizeof_time_t) buf))) <= two64).
  { unfold two64. apply Z.pow_le_mono_r; [lia|]. unfold sizeof_usec_t. lia. }
  lia.
Qed.

(** ** The record scan *)

Lemma scan_records_S (fuel : nat) (u unread : bytes) (consumed : nat)
    (buf : bytes) (bb : nat) :
  scan_records (S fuel) u unread consumed buf bb =
  if (bb =? record_size)%nat
  then
    if strncmp_eq (NAME_MAX + 1) u buf
    then Some (ScanFound buf consumed)
    else
      if (length (take (record_size - 0) unread) =? 0)%nat
      then Some (ScanEof consumed)
      else scan_records fuel u
             (drop (length (take (record_size - 0) unread)) unread)
             (consumed + length (take (record_size - 0) unread))
             (take (record_size - 0) unread
                ++ drop (length (take (record_size - 0) unread)) buf)
             (0 + length (take (record_size - 0) unread))
  else
    if (length (take (record_size - bb) unread) =? 0)%nat
    then Some (ScanEof consumed)
    else scan_records fuel u
           (drop (length (take (record_size - bb) unread)) unread)
           (consumed + length (take (record_size - bb) unread))
           (take (record_size - bb) unread
              ++ drop (length (take (record_size - bb) unread)) buf)
           (bb + length (take (record_size - bb) unread)).
Proof. reflexivity. Qed.

Lemma scan_records_idle (fuel : nat) (u unread : bytes) (consumed : nat)
    (buf : bytes) (bb : nat) :
  idle u buf bb ->
  scan_records (S fuel) u unread consumed buf bb =
  if (length (take record_size unread) =? 0)%nat
  then Some (ScanEof consumed)
  else scan_records fuel u
         (drop (length (take record_size unread)) unread)
         (consumed + length (take record_size unread))
         (take record_size unread
            ++ drop (length (take record_size unread)) buf)
         (length (take record_size unread)).
Proof.
  intros [Hlen [-> | [-> Hm]]]; rewrite scan_records_S.
  - replace (0 =? record_size)%nat with false by reflexivity.
    now rewrite Nat.sub_0_r.
  - rewrite Nat.eqb_refl, Hm. now rewrite Nat.sub_0_r.
Qed.

(** Reading one whole record from an idle state. *)
Lemma scan_records_read_record (fuel : nat) (u r unread : bytes)
    (consumed : nat) (buf : bytes) (bb : nat) :
  idle u buf bb -> length r = record_size ->
  scan_records (S fuel) u (r ++ unread) consumed buf bb =
  scan_records fuel u unread (consumed + record_size) r record_size.
Proof.
  intros Hidle Hr. rewrite scan_records_idle by assumption.
  rewrite take_app_length' by now symmetry.
  rewrite Hr. replace (record_size =? 0)%nat with false by reflexivity.
  rewrite drop_app_length' by now symmetry.
  rewrite drop_ge by (destruct Hidle as [-> _]; reflexivity).
  now rewrite app_nil_r.
Qed.

Lemma scan_records_end_of_file (fuel : nat) (u : bytes) (consumed : nat)
    (buf : bytes) (bb : nat) :
  idle u buf bb ->
  scan_records (S fuel) u [] consumed buf bb = Some (ScanEof consumed).
Proof.
  intros Hidle. rewrite scan_records_idle by assumption.
  now rewrite take_nil.
Qed.

Lemma idle_other_record (u r : bytes) : other_record u r -> idle u r record_size.
Proof. intros [Hlen Hm]. split; [assumption|]. right. now split. Qed.

Lemma idle_fresh (u : bytes) : idle u fresh_buf O.
Proof. split; [apply length_replicate|]. now left. Qed.

(** The scan stops at the first record whose name field matches. *)
Lemma scan_records_found (pre : list bytes) :
  forall (fuel : nat) (u slot rest : bytes) (consumed : nat) (buf : bytes)
         (bb : nat),
    idle u buf bb ->
    Forall (other_record u) pre ->
    length slot = record_size ->
    strncmp_eq (NAME_MAX + 1) u slot = true ->
    (length pre + 2 <= fuel)%nat ->
    scan_records fuel u (concat pre ++ slot ++ rest) consumed buf bb =
    Some (ScanFound slot (consumed + record_size * S (length pre))).
Proof.
  induction pre as [|r pre IH]; intros fuel u slot rest consumed buf bb
    Hidle Hpre Hslot Hm Hfuel.
  - destruct fuel as [|[|fuel]]; [cbn in Hfuel; lia | cbn in Hfuel; lia|].
    cbn [concat app].
    rewrite (scan_records_read_record (S fuel) u slot rest consumed buf bb
               Hidle Hslot).
    rewrite scan_records_S, Nat.eqb_refl, Hm.
    apply (f_equal Some), (f_equal (ScanFound slot)); cbn [length]; lia.
  - destruct fuel as [|fuel]; [cbn in Hfuel; lia|].
    inversion Hpre as [|? ? Hr Hpre']; subst.
    cbn [concat]. rewrite <- app_assoc.
    rewrite (scan_records_read_record fuel u r _ consumed buf bb Hidle (proj1 Hr)).
    rewrite (IH fuel u slot rest (consumed + record_size)%nat r record_size
               (idle_other_record u r Hr) Hpre' Hslot Hm).
    + apply (f_equal Some), (f_equal (ScanFound slot)); cbn [length]; lia.
    + cbn [length] in Hfuel. lia.
Qed.

(** Without a matching record the scan runs to the end of the file. *)
Lemma scan_records_absent (pre : list bytes) :
  forall (fuel : nat) (u : bytes) (consumed : nat) (buf : bytes) (bb : nat),
    idle u buf bb ->
    Forall (other_record u) pre ->
    (length pre + 1 <= fuel)%nat ->
    scan_records fuel u (concat pre) consumed buf bb =
    Some (ScanEof (consumed + record_size * length pre)).
Proof.
  induction pre as [|r pre IH]; intros fuel u consumed buf bb Hidle Hpre Hfuel.
  - destruct fuel as [|fuel]; [cbn in Hfuel; lia|].
    cbn [concat]. rewrite (scan_records_end_of_file fuel u consumed buf bb Hidle).
    apply (f_equal Some), (f_equal ScanEof); cbn [length]; lia.
  - destruct fuel as [|fuel]; [cbn in Hfuel; lia|].
    inversion Hpre as [|? ? Hr Hpre']; subst.
    cbn [concat].
    rewrite (scan_records_read_record fuel u r _ consumed buf bb Hidle (proj1 Hr)).
    rewrite (IH fuel u (consumed + record_size)%nat r record_size
               (idle_other_record u r Hr) Hpre').
    + apply (f_equal Some), (f_equal ScanEof); cbn [length]; lia.
    + cbn [length] in Hfuel. lia.
Qed.

Lemma concat_records_length (u : bytes) (pre : list bytes) :
  Forall (fun r => length r = record_size) pre ->
  length (concat pre) = (record_size * length pre)%nat.
Proof.
  induction 1 as [|r pre Hr _ IH]; [cbn; lia|].
  cbn [concat length]. rewrite length_app, IH, Hr. lia.
Qed.

(** A byte string whose length is a multiple of the record size is a
    sequence of records. *)
Lemma split_records (k : nat) :
  forall l : bytes,
    length l = (k * record_size)%nat ->
    exists slots, l = concat slots
                  /\ Forall (fun r => length r = record_size) slots.
Proof.
  induction k as [|k IH]; intros l Hl.
  - exists []. split; [|constructor].
    destruct l; [reflexivity|discriminate].
  - destruct (IH (drop record_size l)) as [slots [Heq Hall]].
    { rewrite length_drop, Hl. lia. }
    exists (take record_size l :: slots). split.
    + cbn [concat]. rewrite <- Heq. now rewrite take_drop.
    + constructor; [|assumption].
      rewrite length_take, Hl. lia.
Qed.

(** Either no record matches, or there is a first one that does. *)
Lemma first_match (u : bytes) (slots : list bytes) :
  Forall (fun r => length r = record_size) slots ->
  Forall (other_record u) slots \/
  exists pre slot post,
    slots = pre ++ slot :: post /\ Forall (other_record u) pre
    /\ length slot = record_size
    /\ strncmp_eq (NAME_MAX + 1) u slot = true
    /\ Forall (fun r => length r = record_size) post.
Proof.
  induction 1 as [|r slots Hr Hall IH]; [left; constructor|].
  destruct (strncmp_eq (NAME_MAX + 1) u r) eqn:Hm.
  - right. exists [], r, slots. repeat split; try assumption. constructor.
  - destruct IH as [IH | (pre & slot & post & -> & Hpre & Hs & Hms & Hpost)].
    + left. constructor; [now split | assumption].
    + right. exists (r :: pre), slot, post.
      repeat split; try assumption. constructor; [now split | assumption].
Qed.

(** ** Opening the state file *)

Lemma format_header_length : length format_header = 12%nat.
Proof. reflexivity. Qed.

Lemma format_header_ok : header_ok format_header = true.
Proof. vm_compute. reflexivity. Qed.

Lemma ledger_access_true (e : env) :
  ledger_access e = true ->
  (geteuid e =? 0) && negb (setuid_root_ok e) = false
  /\ open_ok e = true /\ flock_ok e = true.
Proof.
  unfold ledger_access. intros H.
  apply andb_prop in H as [H Hflock]. apply andb_prop in H as [Hroot Hopen].
  apply negb_true_iff in Hroot. auto.
Qed.

Lemma lookup_write_file (path : string) (content : bytes) (s : state) :
  files (write_file path content s) !! path = Some content.
Proof. unfold write_file. cbn [files]. apply lookup_insert_eq. Qed.

(** An existing ledger with a good header opens without any effect. *)
Lemma open_state_path_existing (e : env) (statepath : string) (s : state)
    (hdr unread : bytes) :
  files s !! statepath = Some (hdr ++ unread) ->
  length hdr = 12%nat -> header_ok hdr = true ->
  ledger_access e = true ->
  open_state_path e statepath s = (Some unread, s).
Proof.
  intros Hfile Hlen Hok Hacc.
  apply ledger_access_true in Hacc as (Hroot & Hopen & Hflock).
  unfold open_state_path. rewrite Hroot, Hfile, Hopen, Hflock. cbn [negb].
  rewrite take_app_length' by now symmetry.
  rewrite Hlen, Hok. cbn [negb Nat.eqb].
  now rewrite drop_app_length' by now symmetry.
Qed.

(** What a successful open tells: the process had access, and the file now
    on disk is the one that was there, or a fresh header. *)
Lemma open_state_path_inv (e : env) (statepath : string) (s s1 : state)
    (unread : bytes) :
  open_state_path e statepath s = (Some unread, s1) ->
  ledger_access e = true /\
  exists hdr,
    files s1 !! statepath = Some (hdr ++ unread)
    /\ length hdr = 12%nat /\ header_ok hdr = true
    /\ match files s !! statepath with
       | Some content => content = hdr ++ unread /\ s1 = s
       | None => unread = []
       end.
Proof.
  unfold open_state_path, ledger_access.
  destruct ((geteuid e =? 0) && negb (setuid_root_ok e)); [discriminate|].
  destruct (files s !! statepath) as [content|] eqn:Hfile.
  - destruct (open_ok e); [|discriminate].
    destruct (flock_ok e); [|discriminate]. cbn [negb andb].
    destruct (length (take 12 content) =? 12)%nat eqn:Hlen; [|discriminate].
    destruct (header_ok (take 12 content)) eqn:Hok; [|discriminate].
    cbn [negb]. intros [= <- <-]. split; [reflexivity|].
    exists (take 12 content). rewrite take_drop.
    apply Nat.eqb_eq in Hlen. auto.
  - destruct (open_ok e); [|discriminate].
    destruct (flock_ok e); [|discriminate]. cbn [negb andb].
    intros [= <- <-]. split; [reflexivity|].
    exists format_header. rewrite app_nil_r, lookup_write_file.
    auto using format_header_length, format_header_ok.
Qed.

(** Opening a ledger that exists leaves every file as it is, whatever the
    outcome. *)
Lemma open_state_path_existing_files (e : env) (statepath : string)
    (s : state) (content : bytes) :
  files s !! statepath = Some content ->
  files (snd (open_state_path e statepath s)) = files s.
Proof.
  intros Hfile. unfold open_state_path. rewrite Hfile.
  repeat match goal with
         | |- context [if ?b then _ else _] => destruct b
         end; reflexivity.
Qed.

Lemma records_fuel (pre : list bytes) (rest : bytes) (u : bytes) :
  Forall (other_record u) pre ->
  (length pre + 2 <= scan_fuel (concat pre ++ rest))%nat.
Proof.
  intros Hpre. unfold scan_fuel. rewrite length_app.
  assert (length pre <= length (concat pre))%nat; [|lia].
  induction Hpre as [|r pre [Hr _] _ IH]; [cbn; lia|].
  cbn [concat length]. rewrite length_app, Hr, record_size_eq. lia.
Qed.

(** The scan terminates: every pass but the last consumes at least one
    byte, so the bound [scan_fuel] is never exhausted. *)
Lemma scan_records_total (fuel : nat) :
  forall (u unread : bytes) (consumed : nat) (buf : bytes) (bb : nat),
    (length unread < fuel)%nat ->
    exists r, scan_records fuel u unread consumed buf bb = Some r.
Proof.
  induction fuel as [|fuel IH]; intros u unread consumed buf bb Hfuel; [lia|].
  rewrite scan_records_S.
  destruct (bb =? record_size)%nat;
    [destruct (strncmp_eq (NAME_MAX + 1) u buf); [eauto|]|];
    (match goal with
     | |- context [(length ?d =? 0)%nat] =>
         destruct (Nat.eqb_spec (length d) 0) as [Hz|Hz]
     end; [eauto|]; apply IH; rewrite length_drop;
     rewrite length_take in *; lia).
Qed.

Lemma scan_records_fuel_total (u unread : bytes) :
  exists r, scan_records (scan_fuel unread) u unread O fresh_buf O = Some r.
Proof. apply scan_records_total. unfold scan_fuel. lia. Qed.

(** ** Reading the ledger *)

(** [get_used_time_for_user] on a ledger in which the first record for the
    user is known. *)
Lemma get_used_time_found (e : env) (statepath : string) (u : bytes)
    (s : state) (hdr : bytes) (pre : list bytes) (slot rest : bytes) :
  files s !! statepath = Some (hdr ++ concat pre ++ slot ++ rest) ->
  length hdr = 12%nat -> header_ok hdr = true ->
  Forall (other_record u) pre ->
  length slot = record_size ->
  strncmp_eq (NAME_MAX + 1) u slot = true ->
  ledger_access e = true ->
  get_used_time_for_user e statepath u s =
  Done (PAM_SUCCESS,
        if record_last_seen slot <? time_today e then 0
        else record_used_time slot, s).
Proof.
  intros Hfile Hlen Hok Hpre Hslot Hm Hacc.
  unfold get_used_time_for_user.
  rewrite (open_state_path_existing e statepath s hdr _ Hfile Hlen Hok Hacc).
  rewrite (scan_records_found pre (scan_fuel (concat pre ++ slot ++ rest)) u
             slot rest O fresh_buf O (idle_fresh u) Hpre Hslot Hm
             (records_fuel pre (slot ++ rest) u Hpre)).
  destruct (record_last_seen slot <? time_today e); reflexivity.
Qed.

(** C4.  When the first record the scan finds for the user carries a day
    that lies before today's day boundary, [get_used_time_for_user] reports
    zero microseconds whatever counter the record stores, and no file
    changes; with access to the ledger the call succeeds and leaves the
    whole state as it was. *)
Theorem stale_record_reads_zero (e : env) (statepath : string) (u : bytes)
    (s : state) (pre : list bytes) (slot rest : bytes) :
  files s !! statepath = Some (format_header ++ concat pre ++ slot ++ rest) ->
  Forall (other_record u) pre ->
  length slot = record_size ->
  strncmp_eq (NAME_MAX + 1) u slot = true ->
  record_last_seen slot < time_today e ->
  (exists code s1,
      get_used_time_for_user e statepath u s = Done (code, 0, s1)
      /\ files s1 = files s)
  /\ (ledger_access e = true ->
      get_used_time_for_user e statepath u s = Done (PAM_SUCCESS, 0, s)).
Proof.
  intros Hfile Hpre Hslot Hm Hstale.
  assert (Hget : ledger_access e = true ->
                 get_used_time_for_user e statepath u s = Done (PAM_SUCCESS, 0, s)).
  { intros Hacc.
    rewrite (get_used_time_found e statepath u s format_header pre slot rest);
      auto using format_header_length, format_header_ok.
    apply Z.ltb_lt in Hstale. now rewrite Hstale. }
  split; [|exact Hget].
  destruct (open_state_path e statepath s) as [[unread|] s1] eqn:Hopen.
  - apply open_state_path_inv in Hopen as [Hacc _].
    exists PAM_SUCCESS, s. split; [now apply Hget | reflexivity].
  - exists PAM_SYSTEM_ERR, s1. split.
    + unfold get_used_time_for_user. now rewrite Hopen.
    + pose proof (open_state_path_existing_files e statepath s _ Hfile) as H.
      now rewrite Hopen in H.
Qed.

(** ** Writing the ledger *)

Lemma whole_records_split (hdr unread : bytes) :
  length hdr = 12%nat ->
  whole_records (hdr ++ unread) = true ->
  exists slots, unread = concat slots
                /\ Forall (fun r => length r = record_size) slots.
Proof.
  unfold whole_records. intros Hlen Hwhole.
  apply Nat.eqb_eq in Hwhole.
  rewrite length_app, Hlen in Hwhole.
  replace (12 + length unread - 12)%nat with (length unread) in Hwhole by lia.
  apply Nat.Div0.div_exact in Hwhole.
  apply (split_records (length unread / record_size)). lia.
Qed.

Lemma pwrite_in_place (front old new back : bytes) :
  length old = length new ->
  pwrite (front ++ old ++ back) (length front) new = front ++ new ++ back.
Proof.
  intros Hlen. unfold pwrite.
  rewrite take_app_length. do 2 f_equal.
  rewrite <- Hlen, app_assoc.
  apply drop_app_length'. now rewrite length_app.
Qed.

Lemma pwrite_append (content new : bytes) :
  pwrite content (length content) new = content ++ new.
Proof.
  unfold pwrite. rewrite take_ge by lia. rewrite drop_ge by lia.
  now rewrite app_nil_r.
Qed.

(** The ledger [set_used_time_for_user] leaves behind: the header, the
    records in front of the user's, the new record, and the records behind
    it.  The record replaces the user's first record when there is one and
    is appended otherwise. *)
Lemma set_used_time_result (e : env) (statepath : string) (u : bytes)
    (used : Z) (s s1 : state) :
  ledger_whole (files s !! statepath) ->
  set_used_time_for_user e statepath u used s = Done (PAM_SUCCESS, s1) ->
  ledger_access e = true /\
  exists hdr pre post,
    length hdr = 12%nat /\ header_ok hdr = true
    /\ Forall (other_record u) pre
    /\ Forall (fun r => length r = record_size) post
    /\ files s1 !! statepath
       = Some (hdr ++ concat pre ++ make_record e u used ++ concat post)
    /\ (post = [] \/
        exists old, length old = record_size
          /\ files s !! statepath
             = Some (hdr ++ concat pre ++ old ++ concat post)).
Proof.
  intros Hwhole Hset. unfold set_used_time_for_user in Hset.
  destruct (open_state_path e statepath s) as [[unread|] s0] eqn:Hopen;
    [|discriminate].
  apply open_state_path_inv in Hopen
    as (Hacc & hdr & Hfile0 & Hlen & Hok & Hold).
  split; [assumption|].
  assert (Hslots : exists slots, unread = concat slots
              /\ Forall (fun r => length r = record_size) slots).
  { destruct (files s !! statepath) as [content|].
    - destruct Hold as [-> _]. now apply (whole_records_split hdr).
    - subst unread. exists []. split; [reflexivity | constructor]. }
  destruct Hslots as (slots & -> & Hall).
  rewrite Hfile0 in Hset. cbn [default from_option id] in Hset.
  destruct (first_match u slots Hall)
    as [Hnone | (pre & old & post & -> & Hpre & Hlold & Hmold & Hpost)].
  - (* no record for the user: append *)
    rewrite (scan_records_absent slots (scan_fuel (concat slots)) u O
               fresh_buf O (idle_fresh u) Hnone) in Hset.
    2:{ pose proof (records_fuel slots [] u Hnone) as Hf.
        rewrite app_nil_r in Hf. lia. }
    replace (12 + (0 + record_size * length slots))%nat
      with (length (hdr ++ concat slots)) in Hset.
    2:{ rewrite length_app, Hlen.
        rewrite (concat_records_length u slots Hall). lia. }
    rewrite pwrite_append in Hset.
    assert (Hs1 : s1 = write_file statepath
                         ((hdr ++ concat slots) ++ make_record e u used) s0)
      by congruence.
    exists hdr, slots, []. subst s1. rewrite lookup_write_file.
    split; [exact Hlen|]. split; [exact Hok|]. split; [exact Hnone|].
    split; [constructor|]. split.
    + cbn [concat]. now rewrite app_nil_r, app_assoc.
    + now left.
  - (* the user's first record: overwrite in place *)
    rewrite concat_app in Hset. cbn [concat] in Hset.
    rewrite (scan_records_found pre
               (scan_fuel (concat pre ++ old ++ concat post)) u old
               (concat post) O fresh_buf O (idle_fresh u) Hpre Hlold Hmold
               (records_fuel pre (old ++ concat post) u Hpre)) in Hset.
    assert (Hpre_len : Forall (fun r => length r = record_size) pre).
    { eapply Forall_impl; [exact Hpre|]. intros r Hr. exact (proj1 Hr). }
    replace (12 + (0 + record_size * S (length pre)) - record_size)%nat
      with (length (hdr ++ concat pre)) in Hset.
    2:{ rewrite length_app, Hlen.
        rewrite (concat_records_length u pre Hpre_len). lia. }
    rewrite (app_assoc hdr) in Hset.
    rewrite (pwrite_in_place (hdr ++ concat pre) old
               (make_record e u used) (concat post)) in Hset.
    2:{ rewrite make_record_length. exact Hlold. }
    assert (Hs1 : s1 = write_file statepath
                         ((hdr ++ concat pre) ++ make_record e u used
                            ++ concat post) s0)
      by congruence.
    exists hdr, pre, post. subst s1. rewrite lookup_write_file.
    split; [exact Hlen|]. split; [exact Hok|]. split; [exact Hpre|].
    split; [exact Hpost|]. split.
    + now rewrite <- app_assoc.
    + right. exists old. split; [exact Hlold|].
      destruct (files s !! statepath) as [content|].
      * destruct Hold as [-> _]. rewrite concat_app. reflexivity.
      * rewrite concat_app in Hold. cbn [concat] in Hold.
        apply app_eq_nil in Hold as [_ Hold].
        apply app_eq_nil in Hold as [Hold _]. subst old.
        rewrite record_size_eq in Hlold. discriminate.
Qed.

(** Both ledger functions return: neither runs out of fuel. *)
Lemma get_used_time_total (e : env) (statepath : string) (u : bytes)
    (s : state) :
  exists code used s1,
    get_used_time_for_user e statepath u s = Done (code, used, s1).
Proof.
  unfold get_used_time_for_user.
  destruct (open_state_path e statepath s) as [[unread|] s1]; [|eauto].
  destruct (scan_records_fuel_total u unread) as [r ->].
  destruct r as [buf pos|pos]; [|eauto].
  destruct (record_last_seen buf <? time_today e); eauto.
Qed.

(** Once the state file is open, [set_used_time_for_user] writes its record
    and succeeds. *)
Lemma set_used_time_succeeds (e : env) (statepath : string) (u : bytes)
    (used : Z) (s s1 : state) (unread : bytes) :
  open_state_path e statepath s = (Some unread, s1) ->
  exists content pos,
    set_used_time_for_user e statepath u used s
    = Done (PAM_SUCCESS,
            write_file statepath (pwrite content pos (make_record e u used)) s1).
Proof.
  intros Hopen. unfold set_used_time_for_user. rewrite Hopen.
  destruct (scan_records_fuel_total u unread) as [r ->]. eauto.
Qed.

Lemma set_used_time_total (e : env) (statepath : string) (u : bytes)
    (used : Z) (s : state) :
  exists code s1, set_used_time_for_user e statepath u used s = Done (code, s1).
Proof.
  destruct (open_state_path e statepath s) as [[unread|] s1] eqn:Hopen.
  - destruct (set_used_time_succeeds e statepath u used s s1 unread Hopen)
      as (content & pos & ->). eauto.
  - unfold set_used_time_for_user. rewrite Hopen. eauto.
Qed.

(** A ledger that was read successfully is open to the write that
    follows. *)
Lemma get_success_reopens (e : env) (statepath : string) (u : bytes)
    (s s1 : state) (used : Z) :
  get_used_time_for_user e statepath u s = Done (PAM_SUCCESS, used, s1) ->
  exists unread, open_state_path e statepath s1 = (Some unread, s1).
Proof.
  unfold get_used_time_for_user.
  destruct (open_state_path e statepath s) as [[unread|] s0] eqn:Hopen;
    [|discriminate].
  intros Hget.
  assert (s0 = s1) as ->.
  { destruct (scan_records _ _ _ _ _ _) as [[buf pos|pos]|]; [| |discriminate].
    - destruct (record_last_seen buf <? time_today e); congruence.
    - congruence. }
  apply open_state_path_inv in Hopen as (Hacc & hdr & Hfile & Hlen & Hok & _).
  exists unread. now apply (open_state_path_existing e statepath s1 hdr).
Qed.

Lemma ledger_sound_whole (ledger : option bytes) :
  ledger_sound ledger = true -> ledger_whole ledger.
Proof.
  destruct ledger as [content|]; [|easy]. cbn [ledger_sound ledger_whole].
  intros H. now apply andb_prop in H as [_ H].
Qed.

(** With access to a sound ledger the state file opens, and the write
    succeeds. *)
Lemma open_state_path_sound (e : env) (statepath : string) (s : state) :
  ledger_access e = true ->
  ledger_sound (files s !! statepath) = true ->
  exists unread s0, open_state_path e statepath s = (Some unread, s0).
Proof.
  intros Hacc Hsound.
  destruct (files s !! statepath) as [content|] eqn:Hfile.
  - cbn [ledger_sound] in Hsound.
    apply andb_prop in Hsound as [Hsound _].
    apply andb_prop in Hsound as [Hlen Hok]. apply Nat.eqb_eq in Hlen.
    exists (drop 12 content), s.
    apply (open_state_path_existing e statepath s (take 12 content));
      try assumption.
    now rewrite take_drop.
  - apply ledger_access_true in Hacc as (Hroot & Hopen & Hflock).
    unfold open_state_path. rewrite Hroot, Hfile, Hopen, Hflock. eauto.
Qed.

Lemma set_used_time_sound (e : env) (statepath : string) (u : bytes)
    (used : Z) (s : state) :
  ledger_access e = true ->
  ledger_sound (files s !! statepath) = true ->
  exists s1, set_used_time_for_user e statepath u used s = Done (PAM_SUCCESS, s1).
Proof.
  intros Hacc Hsound.
  destruct (open_state_path_sound e statepath s Hacc Hsound)
    as (unread & s0 & Hopen).
  destruct (set_used_time_succeeds e statepath u used s s0 unread Hopen)
    as (content & pos & Hset).
  eauto.
Qed.

(** Reading back what was written, possibly under another environment
    (another clock, another timezone): the record found is the one just
    written, its day is the writer's [time_today], and the reader compares
    that day with its own. *)
Lemma get_after_set (e e' : env) (statepath : string) (u : bytes) (used : Z)
    (s s1 : state) :
  ledger_whole (files s !! statepath) ->
  set_used_time_for_user e statepath u used s = Done (PAM_SUCCESS, s1) ->
  ledger_access e' = true ->
  get_used_time_for_user e' statepath u s1 =
  Done (PAM_SUCCESS,
        if time_today e <? time_today e' then 0 else usec_of used, s1).
Proof.
  intros Hwhole Hset Hacc'.
  destruct (set_used_time_result e statepath u used s s1 Hwhole Hset)
    as (_ & hdr & pre & post & Hlen & Hok & Hpre & _ & Hfile & _).
  rewrite (get_used_time_found e' statepath u s1 hdr pre
             (make_record e u used) (concat post));
    auto using make_record_length, make_record_matches.
  now rewrite make_record_last_seen, make_record_used_time.
Qed.

Lemma stale_record_witness :
  get_used_time_for_user Sample.sys "data/state" (lit "ted") Sample.stale_world
  = Done (PAM_SUCCESS, 0, Sample.stale_world).
Proof.
  apply (stale_record_reads_zero Sample.sys "data/state" (lit "ted")
           Sample.stale_world []
           (drop 12 (Sample.ledger_ted 0)) []).
  - vm_compute. reflexivity.
  - constructor.
  - vm_compute. reflexivity.
  - vm_compute. reflexivity.
  - vm_compute. reflexivity.
  - vm_compute. reflexivity.
Defined.




(** C7.  The day stored with a record is [timegm] of the local calendar
    date at 00:00:00: the local-time decomposition of the clock with hours,
    minutes and seconds set to zero and every other field kept, converted
    as if it were UTC.  It is a plain [time_t] in the file: whoever reads
    the record later, under whatever timezone setting, finds the same value
    and compares its own day boundary with it. *)
Theorem day_marker_is_local_date_as_utc (e : env) (statepath : string)
    (u : bytes) (used : Z) (s : state) (current_tm : tm) :
  ledger_access e = true ->
  ledger_sound (files s !! statepath) = true ->
  localtime_r e (clock e) = Some current_tm ->
  let marker :=
    time_t_of
      (timegm e
         {| tm_sec := 0; tm_min := 0; tm_hour := 0;
            tm_mday := tm_mday current_tm;
            tm_mon := tm_mon current_tm;
            tm_year := tm_year current_tm;
            tm_wday := tm_wday current_tm;
            tm_yday := tm_yday current_tm;
            tm_isdst := tm_isdst current_tm |}) in
  exists s1,
    set_used_time_for_user e statepath u used s = Done (PAM_SUCCESS, s1)
    /\ (exists hdr pre post,
          files s1 !! statepath
          = Some (hdr ++ concat pre ++ make_record e u used ++ concat post)
          /\ length hdr = 12%nat
          /\ Forall (other_record u) pre
          /\ record_last_seen (make_record e u used) = marker)
    /\ forall e' : env,
        ledger_access e' = true ->
        get_used_time_for_user e' statepath u s1
        = Done (PAM_SUCCESS,
                if marker <? time_today e' then 0 else usec_of used, s1).
Proof.
  intros Hacc Hsound Hlocal marker.
  destruct (set_used_time_sound e statepath u used s Hacc Hsound) as [s1 Hset].
  pose proof (ledger_sound_whole _ Hsound) as Hwhole.
  assert (Htoday : time_today e = marker).
  { unfold time_today. rewrite Hlocal. reflexivity. }
  exists s1. split; [exact Hset|]. split.
  - destruct (set_used_time_result e statepath u used s s1 Hwhole Hset)
      as (_ & hdr & pre & post & Hlen & _ & Hpre & _ & Hfile & _).
    exists hdr, pre, post. rewrite make_record_last_seen. auto.
  - intros e' Hacc'. rewrite <- Htoday.
    exact (get_after_set e e' statepath u used s s1 Hwhole Hset Hacc').
Qed.

(** At 01:13:20 local time of day 19676 the marker is that day's
    00:00:00 read as UTC. *)
Lemma day_marker_witness :
  record_last_seen (make_record Sample.sys_later (lit "ted") (7 * Sample.hour))
  = 1700006400
  /\ clock Sample.sys_later + 3600 = 1700006400 + 3600 + 13 * 60 + 20.
Proof.
  destruct (day_marker_is_local_date_as_utc Sample.sys_later "data/state"
              (lit "ted") (7 * Sample.hour) Sample.world
              (Sample.gmtime_like (clock Sample.sys_later + 3600)))
    as (s1 & _ & (hdr & pre & post & _ & _ & _ & Hday) & _).
  - vm_compute. reflexivity.
  - vm_compute. reflexivity.
  - reflexivity.
  - rewrite Hday. split; vm_compute; reflexivity.
Defined.

(** ** The limits file *)

Lemma line_accepted_inv (stray : byte) (line : bytes) :
  line_accepted stray line = true ->
  exists user limit,
    parse_config_line stray (line ++ [x00]) = Done (PAM_SUCCESS, user, limit).
Proof.
  unfold line_accepted.
  destruct (parse_config_line stray (line ++ [x00]))
    as [[[code user] limit]| |]; try discriminate.
  destruct code; try discriminate. eauto.
Qed.

Lemma line_rejected_inv (stray : byte) (line : bytes) :
  line_rejected stray line = true ->
  exists code user limit,
    parse_config_line stray (line ++ [x00]) = Done (code, user, limit)
    /\ code <> PAM_SUCCESS.
Proof.
  unfold line_rejected.
  destruct (parse_config_line stray (line ++ [x00]))
    as [[[code user] limit]| |]; try discriminate.
  destruct code; try discriminate; intros _;
    eexists _, _, _; (split; [reflexivity | discriminate]).
Qed.

(** When every line is accepted, the table holds the entries of the lines
    in file order. *)
Lemma read_config_lines_accepted (stray : byte) (lines : list bytes) :
  forall results : list (bytes * bytes),
    forallb (line_accepted stray) lines = true ->
    read_config_lines stray lines results
    = Done (Some (results ++ omap (line_entry stray) lines)).
Proof.
  induction lines as [|line more IH]; intros results Hall.
  - cbn. now rewrite app_nil_r.
  - cbn [forallb] in Hall. apply andb_prop in Hall as [Hline Hmore].
    apply line_accepted_inv in Hline as (user & limit & Hline).
    cbn [read_config_lines omap list_omap]. unfold line_entry at 1.
    rewrite Hline.
    destruct user as [user|], limit as [limit|]; rewrite IH by assumption;
      try reflexivity.
    now rewrite <- app_assoc.
Qed.

(** The first rejected line rejects the file. *)
Lemma read_config_lines_rejected (stray : byte) (before : list bytes)
    (line : bytes) (after : list bytes) :
  forall results : list (bytes * bytes),
    forallb (line_accepted stray) before = true ->
    line_rejected stray line = true ->
    read_config_lines stray (before ++ line :: after) results = Done None.
Proof.
  induction before as [|l before IH]; intros results Hall Hrej.
  - apply line_rejected_inv in Hrej as (code & user & limit & Hline & Hcode).
    cbn [app read_config_lines]. rewrite Hline.
    destruct code; try reflexivity. congruence.
  - cbn [forallb] in Hall. apply andb_prop in Hall as [Hline Hmore].
    apply line_accepted_inv in Hline as (user & limit & Hline).
    cbn [app read_config_lines]. rewrite Hline.
    destruct user, limit; now apply IH.
Qed.

Lemma match_user_others (username : bytes) (table : list (bytes * bytes)) :
  forall (found : option bytes) (s : state),
    forallb (other_user username) table = true ->
    match_user table username found s = (found, s).
Proof.
  induction table as [|[user limit] table IH]; intros found s Hall;
    [reflexivity|].
  cbn [forallb] in Hall. apply andb_prop in Hall as [Hother Hrest].
  unfold other_user in Hother. cbn [fst] in Hother.
  apply negb_true_iff in Hother.
  cbn [match_user]. rewrite Hother. now apply IH.
Qed.

(** The loop of [pam_sm_acct_mgmt] keeps the limit of the last matching
    entry. *)
Lemma match_user_last (username user limit : bytes)
    (before after : list (bytes * bytes)) :
  forall (found : option bytes) (s : state),
    strcmp_eq user username = true ->
    forallb (other_user username) after = true ->
    fst (match_user (before ++ (user, limit) :: after) username found s)
    = Some limit.
Proof.
  induction before as [|[u l] before IH]; intros found s Hm Hafter.
  - cbn [app match_user]. rewrite Hm.
    now rewrite match_user_others.
  - cbn [app match_user]. destruct (strcmp_eq u username); now apply IH.
Qed.

(** The loop touches nothing but the log. *)
Lemma match_user_frame (username : bytes) (table : list (bytes * bytes)) :
  forall (found : option bytes) (s : state),
    files (snd (match_user table username found s)) = files s
    /\ pam_data (snd (match_user table username found s)) = pam_data s.
Proof.
  induction table as [|[user limit] table IH]; intros found s;
    [now split|].
  cbn [match_user]. destruct (strcmp_eq user username); [|apply IH].
  destruct (IH (Some limit) (pam_syslog (LogLimiting username limit) s))
    as [Hf Hd].
  now rewrite Hf, Hd.
Qed.

Lemma omap_line_entry_split (stray : byte) (before : list bytes)
    (line : bytes) (after : list bytes) (entry : bytes * bytes) :
  line_entry stray line = Some entry ->
  omap (line_entry stray) (before ++ line :: after)
  = omap (line_entry stray) before ++ entry :: omap (line_entry stray) after.
Proof.
  intros Hline. rewrite omap_app. cbn [omap list_omap]. now rewrite Hline.
Qed.

Lemma omap_lines_of_other_users (stray : byte) (username : bytes)
    (lines : list bytes) :
  forallb (line_of_other_user stray username) lines = true ->
  forallb (other_user username) (omap (line_entry stray) lines) = true.
Proof.
  induction lines as [|line more IH]; intros Hall; [reflexivity|].
  cbn [forallb] in Hall. apply andb_prop in Hall as [Hline Hmore].
  cbn [omap list_omap]. unfold line_of_other_user in Hline.
  destruct (line_entry stray line) as [entry|]; [|now apply IH].
  cbn [forallb]. rewrite Hline. now apply IH.
Qed.

(** What [parse_config_file] returns on a file all of whose lines are
    accepted. *)
Lemma parse_config_file_accepted (e : env) (path : string) (s : state)
    (content : bytes) :
  files s !! path = Some content ->
  fopen_ok e = true ->
  forallb (line_accepted (stack_neighbour e)) (fgets_lines 1023 [] content)
  = true ->
  parse_config_file e path s
  = (match omap (line_entry (stack_neighbour e)) (fgets_lines 1023 [] content) with
     | [] => Done (PAM_IGNORE, [])
     | table => Done (PAM_SUCCESS, table)
     end, s).
Proof.
  intros Hfile Hopen Hall. unfold parse_config_file.
  rewrite Hfile, Hopen. cbn [negb].
  rewrite read_config_lines_accepted by assumption. cbn [app].
  now destruct (omap _ _).
Qed.

(** ** The admission check *)

Section AdmissionCheck.

Variable parse_time : bytes -> option Z.
Variable format_timespan : Z -> option bytes.

(** [pam_sm_acct_mgmt] once the arguments are read, the user is known and
    the limits file has been accepted. *)
Lemma acct_mgmt_accepted_file (e : env) (argv : list string) (s : state)
    (opath ostate : option string) (username content : bytes) :
  acct_mgmt_args argv None None = inr (opath, ostate) ->
  pam_user e = (PAM_SUCCESS, Some username) ->
  files s !! default DEFAULT_CONFIG_PATH opath = Some content ->
  fopen_ok e = true ->
  forallb (line_accepted (stack_neighbour e)) (fgets_lines 1023 [] content)
  = true ->
  pam_sm_acct_mgmt parse_time format_timespan e argv s
  = match match_user
            (omap (line_entry (stack_neighbour e)) (fgets_lines 1023 [] content))
            username None s with
    | (None, s2) => Done (PAM_IGNORE, s2)
    | (Some runtime_max_sec, s2) =>
        enforce_limit parse_time format_timespan e
          (default DEFAULT_STATE_PATH ostate) username runtime_max_sec s2
    end.
Proof.
  intros Hargs Huser Hfile Hopen Hall. unfold pam_sm_acct_mgmt.
  rewrite Hargs, Huser.
  rewrite (parse_config_file_accepted e _ s content) by assumption.
  now destruct (omap _ _).
Qed.

(** C3.  When every line of the limits file is accepted and the user is
    named on several of them, the limit the admission check goes on with
    is the one of the last such line in file order. *)
Theorem last_matching_line_wins (e : env) (argv : list string) (s : state)
    (opath ostate : option string) (username content : bytes)
    (before : list bytes) (line : bytes) (after : list bytes)
    (user limit : bytes) :
  acct_mgmt_args argv None None = inr (opath, ostate) ->
  pam_user e = (PAM_SUCCESS, Some username) ->
  files s !! default DEFAULT_CONFIG_PATH opath = Some content ->
  fopen_ok e = true ->
  fgets_lines 1023 [] content = before ++ line :: after ->
  forallb (line_accepted (stack_neighbour e)) (before ++ line :: after) = true ->
  line_entry (stack_neighbour e) line = Some (user, limit) ->
  strcmp_eq user username = true ->
  forallb (line_of_other_user (stack_neighbour e) username) after = true ->
  exists s2,
    pam_sm_acct_mgmt parse_time format_timespan e argv s
    = enforce_limit parse_time format_timespan e
        (default DEFAULT_STATE_PATH ostate) username limit s2
    /\ files s2 = files s /\ pam_data s2 = pam_data s.
Proof.
  intros Hargs Huser Hfile Hopen Hlines Hall Hline Hm Hafter.
  rewrite (acct_mgmt_accepted_file e argv s opath ostate username content)
    by (try assumption; now rewrite Hlines).
  rewrite Hlines, (omap_line_entry_split _ _ _ _ _ Hline).
  pose proof (match_user_last username user limit
                (omap (line_entry (stack_neighbour e)) before)
                (omap (line_entry (stack_neighbour e)) after)
                None s Hm (omap_lines_of_other_users _ _ _ Hafter)) as Hlast.
  pose proof (match_user_frame username
                (omap (line_entry (stack_neighbour e)) before
                   ++ (user, limit) :: omap (line_entry (stack_neighbour e)) after)
                None s) as [Hfiles Hdata].
  destruct (match_user _ username None s) as [found s2].
  cbn [fst snd] in *. subst found. now exists s2.
Qed.

(** C9.  A limits file that is absent, and a limits file that is accepted
    without yielding an entry, both end the admission check with
    [PAM_IGNORE]; a file with a rejected line ends it with
    [PAM_PERM_DENIED], which is a different outcome. *)
Theorem no_limits_is_ignored (e : env) (argv : list string) (s : state)
    (opath ostate : option string) (username : bytes) :
  acct_mgmt_args argv None None = inr (opath, ostate) ->
  pam_user e = (PAM_SUCCESS, Some username) ->
  (files s !! default DEFAULT_CONFIG_PATH opath = None ->
   pam_sm_acct_mgmt parse_time format_timespan e argv s
   = Done (PAM_IGNORE, pam_syslog LogNoConfigFile s))
  /\ (forall content,
        files s !! default DEFAULT_CONFIG_PATH opath = Some content ->
        fopen_ok e = true ->
        forallb (line_accepted (stack_neighbour e)) (fgets_lines 1023 [] content)
        = true ->
        omap (line_entry (stack_neighbour e)) (fgets_lines 1023 [] content) = [] ->
        pam_sm_acct_mgmt parse_time format_timespan e argv s
        = Done (PAM_IGNORE, s))
  /\ (forall content before line after,
        files s !! default DEFAULT_CONFIG_PATH opath = Some content ->
        fopen_ok e = true ->
        fgets_lines 1023 [] content = before ++ line :: after ->
        forallb (line_accepted (stack_neighbour e)) before = true ->
        line_rejected (stack_neighbour e) line = true ->
        pam_sm_acct_mgmt parse_time format_timespan e argv s
        = Done (PAM_PERM_DENIED,
                pam_syslog
                  (LogInvalidConfigFile (default DEFAULT_CONFIG_PATH opath)) s))
  /\ PAM_IGNORE <> PAM_PERM_DENIED.
Proof.
  intros Hargs Huser. repeat split.
  - intros Hfile. unfold pam_sm_acct_mgmt, parse_config_file.
    now rewrite Hargs, Huser, Hfile.
  - intros content Hfile Hopen Hall Hnone.
    rewrite (acct_mgmt_accepted_file e argv s opath ostate username content)
      by assumption.
    now rewrite Hnone.
  - intros content before line after Hfile Hopen Hlines Hall Hrej.
    unfold pam_sm_acct_mgmt, parse_config_file.
    rewrite Hargs, Huser, Hfile, Hopen, Hlines. cbn [negb].
    now rewrite read_config_lines_rejected.
  - discriminate.
Qed.

Lemma get_used_time_range (e : env) (statepath : string) (u : bytes)
    (s s1 : state) (code : pam_code) (used : Z) :
  get_used_time_for_user e statepath u s = Done (code, used, s1) ->
  0 <= used < two64.
Proof.
  unfold get_used_time_for_user.
  destruct (open_state_path e statepath s) as [[unread|] s0].
  - destruct (scan_records _ _ _ _ _ _) as [[buf pos|pos]|]; try discriminate.
    + destruct (record_last_seen buf <? time_today e); intros [= _ <- _].
      * unfold two64. lia.
      * apply record_used_time_range.
    + intros [= _ <- _]. unfold two64. lia.
  - intros [= _ <- _]. unfold two64. lia.
Qed.

(** Neither the limits file nor the ledger read touches the data the PAM
    handle carries. *)
Lemma open_state_path_pam_data (e : env) (statepath : string) (s : state) :
  pam_data (snd (open_state_path e statepath s)) = pam_data s.
Proof.
  unfold open_state_path.
  repeat match goal with
         | |- context [if ?b then _ else _] => destruct b
         | |- context [match files s !! statepath with _ => _ end] =>
             destruct (files s !! statepath)
         end; reflexivity.
Qed.

Lemma get_used_time_pam_data (e : env) (statepath : string) (u : bytes)
    (s s1 : state) (code : pam_code) (used : Z) :
  get_used_time_for_user e statepath u s = Done (code, used, s1) ->
  pam_data s1 = pam_data s.
Proof.
  unfold get_used_time_for_user.
  pose proof (open_state_path_pam_data e statepath s) as Hframe.
  destruct (open_state_path e statepath s) as [[unread|] s0];
    cbn [snd] in Hframe.
  - destruct (scan_records _ _ _ _ _ _) as [[buf pos|pos]|]; try discriminate.
    + destruct (record_last_seen buf <? time_today e); congruence.
    + congruence.
  - congruence.
Qed.

Lemma parse_config_file_pam_data (e : env) (path : string) (s : state) :
  pam_data (snd (parse_config_file e path s)) = pam_data s.
Proof.
  unfold parse_config_file.
  destruct (files s !! path) as [content|]; [|reflexivity].
  destruct (fopen_ok e); [|reflexivity]. cbn [negb].
  destruct (read_config_lines _ _ _) as [[[|entry table]|]| |]; reflexivity.
Qed.

(** The tail of the admission check once the limit text has parsed and the
    ledger has been read. *)
Lemma enforce_limit_decision (e : env) (statepath : string)
    (username text : bytes) (s s1 : state) (limit used : Z) :
  parse_time text = Some limit ->
  0 <= limit < two64 ->
  get_used_time_for_user e statepath username s = Done (PAM_SUCCESS, used, s1) ->
  enforce_limit parse_time format_timespan e statepath username text s
  = if limit <=? used
    then Done (PAM_PERM_DENIED, s1)
    else
      match format_timespan (limit - used) with
      | None => Done (PAM_PERM_DENIED, s1)
      | Some remaining =>
          if decide (set_data_status e "systemd.runtime_max_sec" = PAM_SUCCESS)
          then Done (PAM_SUCCESS, publish remaining s1)
          else Done (PAM_PERM_DENIED, s1)
      end.
Proof.
  intros Hparse Hlimit Hget.
  pose proof (get_used_time_range _ _ _ _ _ _ _ Hget) as Hused.
  unfold enforce_limit. rewrite Hparse, Hget.
  destruct (limit <=? used) eqn:Hle; [reflexivity|].
  apply Z.leb_gt in Hle.
  rewrite usec_of_id by lia.
  destruct (format_timespan (limit - used)) as [remaining|]; [|reflexivity].
  unfold pam_set_data.
  destruct (decide (set_data_status e "systemd.runtime_max_sec" = PAM_SUCCESS))
    as [Hok|Hbad]; [reflexivity|].
  destruct (set_data_status e "systemd.runtime_max_sec"); congruence.
Qed.

(** C1, as the code has it.  With a limit configured and parsed and the
    ledger read: a limit not above the usage denies with [PAM_PERM_DENIED]
    and leaves the state as the ledger read left it; otherwise the check
    formats [limit - used], and admits with [PAM_SUCCESS] after publishing
    the text under "systemd.runtime_max_sec" when the text was produced and
    the per-session store took it, and denies with [PAM_PERM_DENIED] when
    not.  Up to the decision the data of the PAM handle is untouched, so a
    denial publishes nothing. *)
Theorem admission_decision (e : env) (argv : list string) (s s0 s' s1 : state)
    (opath ostate : option string) (username text : bytes)
    (table : list (bytes * bytes)) (limit used : Z) :
  acct_mgmt_args argv None None = inr (opath, ostate) ->
  pam_user e = (PAM_SUCCESS, Some username) ->
  parse_config_file e (default DEFAULT_CONFIG_PATH opath) s
  = (Done (PAM_SUCCESS, table), s0) ->
  match_user table username None s0 = (Some text, s') ->
  parse_time text = Some limit ->
  0 <= limit < two64 ->
  get_used_time_for_user e (default DEFAULT_STATE_PATH ostate) username s'
  = Done (PAM_SUCCESS, used, s1) ->
  pam_sm_acct_mgmt parse_time format_timespan e argv s
  = (if limit <=? used
     then Done (PAM_PERM_DENIED, s1)
     else
       match format_timespan (limit - used) with
       | None => Done (PAM_PERM_DENIED, s1)
       | Some remaining =>
           if decide (set_data_status e "systemd.runtime_max_sec" = PAM_SUCCESS)
           then Done (PAM_SUCCESS, publish remaining s1)
           else Done (PAM_PERM_DENIED, s1)
       end)
  /\ pam_data s1 = pam_data s.
Proof.
  intros Hargs Huser Hconf Hmatch Hparse Hlimit Hget. split.
  - unfold pam_sm_acct_mgmt. rewrite Hargs, Huser, Hconf, Hmatch.
    now apply enforce_limit_decision.
  - rewrite (get_used_time_pam_data _ _ _ _ _ _ _ Hget).
    pose proof (match_user_frame username table None s0) as [_ Hm].
    rewrite Hmatch in Hm. cbn [snd] in Hm. rewrite Hm.
    pose proof (parse_config_file_pam_data e
                  (default DEFAULT_CONFIG_PATH opath) s) as Hp.
    rewrite Hconf in Hp. exact Hp.
Qed.

End AdmissionCheck.

(** ** Module arguments *)

Lemma acct_mgmt_args_unknown (argv : list string) :
  forall path statepath : option string,
    existsb (fun arg => negb (recognised arg)) argv = true ->
    exists bad,
      In bad argv /\ recognised bad = false
      /\ acct_mgmt_args argv path statepath = inl bad.
Proof.
  induction argv as [|arg rest IH]; intros path statepath Hex;
    [discriminate|].
  cbn [existsb] in Hex. cbn [acct_mgmt_args].
  destruct (recognised arg) eqn:Hrec.
  - cbn [negb orb] in Hex. unfold recognised in Hrec.
    destruct (String.prefix "path=" arg).
    + destruct (IH (Some (option_value "path=" arg)) statepath Hex)
        as (bad & Hin & Hbad & Hargs).
      exists bad. auto using in_cons.
    + cbn [orb] in Hrec. rewrite Hrec.
      destruct (IH path (Some (option_value "statepath=" arg)) Hex)
        as (bad & Hin & Hbad & Hargs).
      exists bad. auto using in_cons.
  - exists arg. unfold recognised in Hrec.
    apply orb_false_elim in Hrec as [Hp Hs].
    rewrite Hp, Hs. repeat split; [now left | now apply orb_false_intro].
Qed.

Lemma close_session_args_unknown (argv : list string) :
  forall statepath : option string,
    existsb (fun arg => negb (recognised arg)) argv = true ->
    exists bad, In bad argv /\ close_session_args argv statepath = inl bad.
Proof.
  induction argv as [|arg rest IH]; intros statepath Hex; [discriminate|].
  cbn [existsb] in Hex. cbn [close_session_args].
  destruct (String.prefix "statepath=" arg) eqn:Hs.
  - unfold recognised in Hex. rewrite Hs, orb_true_r in Hex.
    cbn [negb orb] in Hex.
    destruct (IH (Some (option_value "statepath=" arg)) Hex)
      as (bad & Hin & Hargs).
    exists bad. auto using in_cons.
  - exists arg. split; [now left | reflexivity].
Qed.

(** C6, as the code has it.  An argument list with an option other than
    [path=] and [statepath=] makes the admission check deny with
    [PAM_PERM_DENIED]; it makes session close return [PAM_SYSTEM_ERR] when
    a remaining-time value was published for the session, and
    [PAM_SUCCESS] when none was, the arguments then not being looked at.
    Either way the only effect is one log entry naming an argument. *)
Theorem unknown_option_outcomes (parse_time : bytes -> option Z)
    (format_timespan : Z -> option bytes) (e : env) (argv : list string)
    (s : state) :
  existsb (fun arg => negb (recognised arg)) argv = true ->
  (exists bad,
      In bad argv /\ recognised bad = false
      /\ pam_sm_acct_mgmt parse_time format_timespan e argv s
         = Done (PAM_PERM_DENIED, pam_syslog (LogUnknownArgument bad) s))
  /\ (published s = true ->
      exists bad,
        In bad argv
        /\ pam_sm_close_session e argv s
           = Done (PAM_SYSTEM_ERR, pam_syslog (LogUnknownArgument bad) s))
  /\ (published s = false ->
      pam_sm_close_session e argv s = Done (PAM_SUCCESS, s)).
Proof.
  intros Hex. repeat split.
  - destruct (acct_mgmt_args_unknown argv None None Hex)
      as (bad & Hin & Hbad & Hargs).
    exists bad. unfold pam_sm_acct_mgmt. now rewrite Hargs.
  - intros Hpub.
    destruct (close_session_args_unknown argv None Hex) as (bad & Hin & Hargs).
    exists bad. unfold pam_sm_close_session. now rewrite Hpub, Hargs.
  - intros Hpub. unfold pam_sm_close_session. now rewrite Hpub.
Qed.

(** ** Session close *)

(** C8.  When nothing is stored under "systemd.runtime_max_sec", session
    close returns [PAM_SUCCESS] with the state untouched: no file is
    created or written and no log entry is made; and it does so whatever
    the file system holds, so the ledger is not consulted. *)
Theorem close_without_limit_does_nothing (e : env) (argv : list string)
    (s : state) :
  pam_data s !! "systemd.runtime_max_sec" = None ->
  pam_sm_close_session e argv s = Done (PAM_SUCCESS, s)
  /\ forall fs : gmap string bytes,
      pam_sm_close_session e argv (with_files fs s)
      = Done (PAM_SUCCESS, with_files fs s).
Proof.
  intros Hnone.
  assert (Hpub : forall fs, published (with_files fs s) = false).
  { intros fs. unfold published, pam_get_data, with_files. cbn [pam_data].
    now rewrite Hnone. }
  split.
  - unfold pam_sm_close_session, published, pam_get_data. now rewrite Hnone.
  - intros fs. unfold pam_sm_close_session. now rewrite Hpub.
Qed.

(** The saturating addition of [pam_sm_close_session] on 64-bit words. *)
Lemma accumulate_saturates (used elapsed : Z) :
  0 <= used < two64 -> 0 <= elapsed < two64 ->
  accumulate used elapsed = saturating_sum used elapsed.
Proof.
  intros Hused Helapsed. unfold accumulate, saturating_sum, USEC_INFINITY.
  rewrite usec_of_id by lia.
  destruct (two64 - 1 - used <? elapsed) eqn:Hlt.
  - apply Z.ltb_lt in Hlt.
    destruct (used + elapsed <=? two64 - 1) eqn:Hle; [|reflexivity].
    apply Z.leb_le in Hle. lia.
  - apply Z.ltb_ge in Hlt.
    destruct (used + elapsed <=? two64 - 1) eqn:Hle.
    + rewrite usec_of_id by lia. lia.
    + apply Z.leb_gt in Hle. lia.
Qed.

Lemma saturating_sum_range (used elapsed : Z) :
  0 <= used -> 0 <= elapsed ->
  0 <= saturating_sum used elapsed <= USEC_INFINITY.
Proof.
  intros Hused Helapsed. unfold saturating_sum.
  destruct (used + elapsed <=? USEC_INFINITY) eqn:Hle.
  - apply Z.leb_le in Hle. lia.
  - unfold USEC_INFINITY, two64. lia.
Qed.

Lemma usec_of_range (z : Z) : 0 <= usec_of z < two64.
Proof. unfold usec_of, two64. apply Z.mod_pos_bound. reflexivity. Qed.

(** The conversion of the session's seconds to microseconds is exact for
    every session shorter than 2^64 microseconds (some 584 000 years). *)
Lemma elapsed_time_exact (end_time start_time : Z) :
  0 <= end_time - start_time < 18446744073709 ->
  usec_of ((end_time - start_time) * USEC_PER_SEC)
  = (end_time - start_time) * USEC_PER_SEC.
Proof.
  intros H. apply usec_of_id. unfold two64, USEC_PER_SEC. lia.
Qed.

(** ** The trailing-whitespace loop *)

Lemma c_str_length (s : bytes) : (length (c_str s) <= length s)%nat.
Proof.
  induction s as [|c r IH]; [reflexivity|].
  cbn [c_str]. destruct (is_nul c); cbn [length]; lia.
Qed.

Lemma strchr_lt (c : byte) (s : bytes) (i : nat) :
  strchr c s = Some i -> (i < length s)%nat.
Proof.
  revert i. induction s as [|x r IH]; intros i; [discriminate|].
  cbn [strchr length]. destruct (Byte.eqb x c).
  - intros [= <-]. lia.
  - destruct (is_nul x); [discriminate|].
    destruct (strchr c r) as [j|]; [|discriminate].
    intros [= <-]. specialize (IH j eq_refl). lia.
Qed.

Lemma strip_comment_length (line : bytes) (n : nat) :
  (n <= length line)%nat ->
  (snd (strip_comment line n) <= length (fst (strip_comment line n)))%nat.
Proof.
  intros Hn. unfold strip_comment.
  destruct (strchr x23 (<[n:=x00]> line)) as [comment|] eqn:Hc; cbn [fst snd].
  - apply strchr_lt in Hc. rewrite !length_insert in *. lia.
  - now rewrite length_insert.
Qed.

(** On a buffer whose first [n] bytes are whitespace the loop eats all of
    them and then tests [line[-1]]. *)
Lemma eat_trailing_whitespace_blank (stray : byte) (n : nat) :
  forall line : bytes,
    (n <= length line)%nat ->
    forallb isspace (take n line) = true ->
    In (-1) (snd (eat_trailing_whitespace stray line n)).
Proof.
  induction n as [|n IH]; intros line Hn Hblank.
  - cbn [eat_trailing_whitespace]. destruct (isspace stray); now left.
  - destruct (lookup_lt_is_Some_2 line n) as [x Hx]; [lia|].
    rewrite (take_S_r _ _ _ Hx), forallb_app in Hblank.
    apply andb_prop in Hblank as [Hfront Hlast].
    cbn [forallb] in Hlast. rewrite andb_true_r in Hlast.
    cbn [eat_trailing_whitespace].
    rewrite nth_lookup, Hx. cbn [default from_option id]. rewrite Hlast.
    specialize (IH (<[n:=x00]> line)).
    destruct (eat_trailing_whitespace stray (<[n:=x00]> line) n)
      as [r reads].
    cbn [snd] in *. right. apply IH.
    + rewrite length_insert. lia.
    + now rewrite take_insert_ge by lia.
Qed.

(** Every line that is blank once newline and comment are gone makes the
    loop read index -1, in front of the buffer. *)
Lemma blank_line_reads_before_buffer (stray : byte) (line : bytes) :
  blank_after_strip line = true ->
  In (-1) (whitespace_loop_reads stray line)
  /\ in_bounds line (-1) = false.
Proof.
  unfold blank_after_strip, whitespace_loop_reads. intros Hblank.
  split; [|reflexivity].
  pose proof (strip_comment_length line (strlen line - 1)) as Hlen.
  destruct (strip_comment line (strlen line - 1)) as [stripped n].
  cbn [fst snd] in Hlen.
  apply eat_trailing_whitespace_blank; [|assumption].
  apply Hlen. pose proof (c_str_length line). unfold strlen. lia.
Qed.

(** C10 fails on the code.  For the line that holds only a newline the
    loop condition [isspace(line[length-1])] is evaluated with [length = 0]:
    the one index read is -1, outside the buffer.  What follows depends on
    the byte found there: the line is skipped with [PAM_SUCCESS] when it is
    no whitespace, and the loop stores in front of the buffer when it is. *)
Theorem newline_line_reads_before_buffer :
  blank_after_strip [x0a; x00] = true
  /\ whitespace_loop_reads x00 [x0a; x00] = [-1]
  /\ in_bounds [x0a; x00] (-1) = false
  /\ parse_config_line x00 [x0a; x00] = Done (PAM_SUCCESS, None, None)
  /\ parse_config_line x20 [x0a; x00] = Undefined.
Proof. repeat split. Qed.

(** ** The theorems on concrete runs *)

Lemma last_matching_line_witness :
  exists s2,
    pam_sm_acct_mgmt Sample.parse_time Sample.format_timespan Sample.sys
      Sample.args Sample.world
    = enforce_limit Sample.parse_time Sample.format_timespan Sample.sys
        "data/state" (lit "ted") (lit "12h") s2
    /\ files s2 = files Sample.world /\ pam_data s2 = pam_data Sample.world.
Proof.
  apply (last_matching_line_wins Sample.parse_time Sample.format_timespan
           Sample.sys Sample.args Sample.world
           (Some "data/limits") (Some "data/state") (lit "ted")
           Sample.conf_two_entries
           (take 4 (fgets_lines 1023 [] Sample.conf_two_entries))
           (lit "ted 12h" ++ Sample.nl) [] (lit "ted") (lit "12h"));
    vm_compute; reflexivity.
Defined.

Lemma no_limits_is_ignored_witness :
  pam_sm_acct_mgmt Sample.parse_time Sample.format_timespan Sample.sys
    ["path=data/absent"] Sample.world
  = Done (PAM_IGNORE, pam_syslog LogNoConfigFile Sample.world)
  /\ pam_sm_acct_mgmt Sample.parse_time Sample.format_timespan Sample.sys
       ["path=data/comments"] Sample.world
     = Done (PAM_IGNORE, Sample.world)
  /\ pam_sm_acct_mgmt Sample.parse_time Sample.format_timespan Sample.sys
       ["path=data/broken"] Sample.world
     = Done (PAM_PERM_DENIED,
             pam_syslog (LogInvalidConfigFile "data/broken") Sample.world).
Proof.
  split; [|split].
  - apply (no_limits_is_ignored Sample.parse_time Sample.format_timespan
             Sample.sys ["path=data/absent"] Sample.world
             (Some "data/absent") None (lit "ted"));
      vm_compute; reflexivity.
  - apply (no_limits_is_ignored Sample.parse_time Sample.format_timespan
             Sample.sys ["path=data/comments"] Sample.world
             (Some "data/comments") None (lit "ted"))
      with (content := Sample.conf_only_comments);
      vm_compute; reflexivity.
  - destruct (no_limits_is_ignored Sample.parse_time Sample.format_timespan
                Sample.sys ["path=data/broken"] Sample.world
                (Some "data/broken") None (lit "ted"))
      as (_ & _ & Hbroken & _); [vm_compute; reflexivity ..|].
    apply (Hbroken Sample.conf_leading_blank []
             (lit " ted 5h" ++ Sample.nl) [lit "bob 5h" ++ Sample.nl]);
      vm_compute; reflexivity.
Defined.

Lemma admission_decision_witness :
  pam_sm_acct_mgmt Sample.parse_time Sample.format_timespan Sample.sys
    Sample.args Sample.used_world
  = Done (PAM_SUCCESS,
          publish (lit "7h") (Sample.after_match Sample.used_world)).
Proof.
  destruct (admission_decision Sample.parse_time Sample.format_timespan
              Sample.sys Sample.args Sample.used_world Sample.used_world
              (Sample.after_match Sample.used_world)
              (Sample.after_match Sample.used_world)
              (Some "data/limits") (Some "data/state") (lit "ted") (lit "12h")
              Sample.table (12 * Sample.hour) (5 * Sample.hour))
    as [Hdecision _].
  - vm_compute. reflexivity.
  - vm_compute. reflexivity.
  - vm_compute. reflexivity.
  - vm_compute. reflexivity.
  - vm_compute. reflexivity.
  - unfold two64, Sample.hour, USEC_PER_SEC. lia.
  - vm_compute. reflexivity.
  - rewrite Hdecision. vm_compute. reflexivity.
Defined.

(** C1 as stated fails when the per-session store rejects the write: the
    limit is configured and parsed, the ledger is read, twelve hours are
    left, and the check denies without publishing. *)
Lemma store_rejects_publication :
  fst (match_user Sample.table (lit "ted") None Sample.world) = Some (lit "12h")
  /\ Sample.parse_time (lit "12h") = Some (12 * Sample.hour)
  /\ (exists s1,
        get_used_time_for_user Sample.sys_store_full "data/state" (lit "ted")
          (Sample.after_match Sample.world)
        = Done (PAM_SUCCESS, 0, s1)
        /\ pam_sm_acct_mgmt Sample.parse_time Sample.format_timespan
             Sample.sys_store_full Sample.args Sample.world
           = Done (PAM_PERM_DENIED, s1)
        /\ pam_data s1 !! "systemd.runtime_max_sec" = None)
  /\ PAM_PERM_DENIED <> PAM_SUCCESS.
Proof.
  split; [vm_compute; reflexivity|].
  split; [vm_compute; reflexivity|].
  split; [|discriminate].
  eexists. split; [vm_compute; reflexivity|].
  split; vm_compute; reflexivity.
Qed.

Lemma unknown_option_witness :
  (exists bad,
      In bad ["something_broken"] /\ recognised bad = false
      /\ pam_sm_acct_mgmt Sample.parse_time Sample.format_timespan Sample.sys
           ["something_broken"] Sample.session_world
         = Done (PAM_PERM_DENIED,
                 pam_syslog (LogUnknownArgument bad) Sample.session_world))
  /\ (exists bad,
        In bad ["something_broken"]
        /\ pam_sm_close_session Sample.sys ["something_broken"]
             Sample.session_world
           = Done (PAM_SYSTEM_ERR,
                   pam_syslog (LogUnknownArgument bad) Sample.session_world))
  /\ pam_sm_close_session Sample.sys ["something_broken"] Sample.world
     = Done (PAM_SUCCESS, Sample.world).
Proof.
  destruct (unknown_option_outcomes Sample.parse_time Sample.format_timespan
              Sample.sys ["something_broken"] Sample.session_world)
    as (Hacct & Hclose & _); [vm_compute; reflexivity|].
  destruct (unknown_option_outcomes Sample.parse_time Sample.format_timespan
              Sample.sys ["something_broken"] Sample.world)
    as (_ & _ & Hnone); [vm_compute; reflexivity|].
  split; [exact Hacct|]. split.
  - apply Hclose. vm_compute. reflexivity.
  - apply Hnone. vm_compute. reflexivity.
Defined.

(** C6 as stated fails: the admission check answers an unknown option with
    [PAM_PERM_DENIED], and session close answers it with [PAM_SUCCESS] when
    no limit was published for the session. *)
Lemma unknown_option_is_not_system_err :
  recognised "something_broken" = false
  /\ pam_sm_acct_mgmt Sample.parse_time Sample.format_timespan Sample.sys
       ["something_broken"] Sample.world
     = Done (PAM_PERM_DENIED,
             pam_syslog (LogUnknownArgument "something_broken") Sample.world)
  /\ PAM_PERM_DENIED <> PAM_SYSTEM_ERR
  /\ pam_sm_close_session Sample.sys ["something_broken"] Sample.world
     = Done (PAM_SUCCESS, Sample.world)
  /\ PAM_SUCCESS <> PAM_SYSTEM_ERR.
Proof.
  repeat split; try discriminate; vm_compute; reflexivity.
Qed.

Lemma close_without_limit_witness :
  pam_sm_close_session Sample.sys ["statepath=data/state"] Sample.used_world
  = Done (PAM_SUCCESS, Sample.used_world).
Proof.
  apply (close_without_limit_does_nothing Sample.sys ["statepath=data/state"]
           Sample.used_world).
  vm_compute. reflexivity.
Defined.

(** * Further properties *)

(** ** User names as ledger keys *)

Lemma byte_eqb_sym (a b : byte) : Byte.eqb a b = Byte.eqb b a.
Proof.
  destruct (Byte.eqb a b) eqn:Hab.
  - apply Byte.byte_dec_bl in Hab. subst. symmetry. apply byte_eqb_refl.
  - destruct (Byte.eqb b a) eqn:Hba; [|reflexivity].
    apply Byte.byte_dec_bl in Hba. subst. now rewrite byte_eqb_refl in Hab.
Qed.

(** [strncmp] compares the first [n] characters of the two strings. *)
Lemma strncmp_eq_iff (n : nat) :
  forall a b : bytes,
    strncmp_eq n a b = true <-> take n (c_str a) = take n (c_str b).
Proof.
  induction n as [|n IH]; intros a b; [now split|].
  cbn [strncmp_eq].
  destruct a as [|x a], b as [|y b]; cbn [hd tl c_str].
  - now split.
  - unfold is_nul at 1. rewrite byte_eqb_sym. fold (is_nul y).
    destruct (is_nul y); [now split|]. split; discriminate.
  - fold (is_nul x). destruct (is_nul x); [now split|]. split; discriminate.
  - destruct (is_nul x) eqn:Hx, (is_nul y) eqn:Hy.
    + apply is_nul_true in Hx, Hy. subst. now split.
    + apply is_nul_true in Hx. subst x.
      rewrite byte_eqb_sym. fold (is_nul y). rewrite Hy. split; discriminate.
    + apply is_nul_true in Hy. subst y. fold (is_nul x). rewrite Hx.
      split; discriminate.
    + cbn [take]. destruct (Byte.eqb x y) eqn:Hxy.
      * apply Byte.byte_dec_bl in Hxy. subst y. rewrite IH.
        split; [now intros -> | now intros [= ->]].
      * split; [discriminate|]. intros [= -> _].
        now rewrite byte_eqb_refl in Hxy.
Qed.

(** The name field [strncpy] writes spells the key of the name. *)
Lemma c_str_strncpy (n : nat) :
  forall u rest : bytes,
    take n (c_str (strncpy n u ++ rest)) = take n (c_str u).
Proof.
  induction n as [|n IH]; intros u rest; [reflexivity|].
  cbn [strncpy]. destruct u as [|c u]; [reflexivity|].
  cbn [c_str]. destruct (is_nul c) eqn:Hc; [reflexivity|].
  cbn [app c_str]. rewrite Hc. cbn [take]. now rewrite IH.
Qed.

Lemma strncpy_of_key (n : nat) :
  forall u : bytes, strncpy n (take n (c_str u)) = strncpy n u.
Proof.
  induction n as [|n IH]; intros u; [reflexivity|].
  destruct u as [|c u]; [reflexivity|].
  cbn [c_str]. destruct (is_nul c) eqn:Hc.
  - cbn [take strncpy]. now rewrite Hc.
  - cbn [take strncpy]. now rewrite Hc, IH.
Qed.

(** A record matches a user exactly when its name field spells the user's
    key. *)
Lemma record_matches_key (u r : bytes) :
  strncmp_eq (NAME_MAX + 1) u r = true
  <-> ledger_key u = take (NAME_MAX + 1) (c_str r).
Proof. apply strncmp_eq_iff. Qed.

Lemma make_record_key (e : env) (u : bytes) (used : Z) :
  take (NAME_MAX + 1) (c_str (make_record e u used)) = ledger_key u.
Proof. unfold make_record, ledger_key. apply c_str_strncpy. Qed.

(** Users with the same key match the same records. *)
Lemma same_key_same_matches (u v r : bytes) :
  ledger_key u = ledger_key v ->
  strncmp_eq (NAME_MAX + 1) u r = strncmp_eq (NAME_MAX + 1) v r.
Proof.
  intros Hkey.
  destruct (strncmp_eq (NAME_MAX + 1) v r) eqn:Hv.
  - apply record_matches_key. rewrite Hkey. now apply record_matches_key.
  - destruct (strncmp_eq (NAME_MAX + 1) u r) eqn:Hu; [|reflexivity].
    apply record_matches_key in Hu. rewrite Hkey in Hu.
    apply record_matches_key in Hu. congruence.
Qed.

(** ** More on the record scan *)

(** A partial record at the end of the file is read and never compared. *)
Lemma scan_records_partial (fuel : nat) (u tail : bytes) (consumed : nat)
    (buf : bytes) (bb : nat) :
  idle u buf bb ->
  (0 < length tail < record_size)%nat ->
  scan_records (S (S fuel)) u tail consumed buf bb
  = Some (ScanEof (consumed + length tail)).
Proof.
  intros Hidle Htail.
  rewrite (scan_records_idle (S fuel) u tail consumed buf bb Hidle).
  rewrite take_ge by lia.
  destruct (Nat.eqb_spec (length tail) 0) as [Hz|_]; [lia|].
  rewrite scan_records_S.
  destruct (Nat.eqb_spec (length tail) record_size) as [Hz|_]; [lia|].
  rewrite drop_all, take_nil. reflexivity.
Qed.

(** Without a matching record the scan ends at the end of the file, partial
    last record or not. *)
Lemma scan_records_no_match (pre : list bytes) :
  forall (fuel : nat) (u tail : bytes) (consumed : nat) (buf : bytes)
         (bb : nat),
    idle u buf bb ->
    Forall (other_record u) pre ->
    (length tail < record_size)%nat ->
    (length pre + 2 <= fuel)%nat ->
    scan_records fuel u (concat pre ++ tail) consumed buf bb
    = Some (ScanEof (consumed + record_size * length pre + length tail)).
Proof.
  induction pre as [|r pre IH]; intros fuel u tail consumed buf bb
    Hidle Hpre Htail Hfuel.
  - destruct fuel as [|[|fuel]]; [cbn in Hfuel; lia | cbn in Hfuel; lia|].
    cbn [concat app].
    destruct tail as [|c tail].
    + rewrite (scan_records_end_of_file (S fuel) u consumed buf bb Hidle).
      apply (f_equal Some), (f_equal ScanEof); cbn [length]; lia.
    + rewrite (scan_records_partial fuel u (c :: tail) consumed buf bb Hidle)
        by (cbn [length] in *; lia).
      apply (f_equal Some), (f_equal ScanEof); cbn [length]; lia.
  - destruct fuel as [|fuel]; [cbn in Hfuel; lia|].
    inversion Hpre as [|? ? Hr Hpre']; subst.
    cbn [concat]. rewrite <- app_assoc.
    rewrite (scan_records_read_record fuel u r _ consumed buf bb Hidle
               (proj1 Hr)).
    rewrite (IH fuel u tail (consumed + record_size)%nat r record_size
               (idle_other_record u r Hr) Hpre' Htail).
    + apply (f_equal Some), (f_equal ScanEof); cbn [length]; lia.
    + cbn [length] in Hfuel. lia.
Qed.

(** [get_used_time_for_user] on a ledger without a record for the user. *)
Lemma get_used_time_no_record (e : env) (statepath : string) (u : bytes)
    (s : state) (hdr : bytes) (pre : list bytes) (tail : bytes) :
  files s !! statepath = Some (hdr ++ concat pre ++ tail) ->
  length hdr = 12%nat -> header_ok hdr = true ->
  Forall (other_record u) pre ->
  (length tail < record_size)%nat ->
  ledger_access e = true ->
  get_used_time_for_user e statepath u s = Done (PAM_SUCCESS, 0, s).
Proof.
  intros Hfile Hlen Hok Hpre Htail Hacc.
  unfold get_used_time_for_user.
  rewrite (open_state_path_existing e statepath s hdr _ Hfile Hlen Hok Hacc).
  rewrite (scan_records_no_match pre (scan_fuel (concat pre ++ tail)) u tail
             O fresh_buf O (idle_fresh u) Hpre Htail
             (records_fuel pre tail u Hpre)).
  reflexivity.
Qed.

(** The first record for a user among the records of a ledger. *)
Lemma find_first_match (u : bytes) (pre : list bytes) (slot : bytes)
    (post : list bytes) :
  Forall (other_record u) pre ->
  strncmp_eq (NAME_MAX + 1) u slot = true ->
  find (strncmp_eq (NAME_MAX + 1) u) (pre ++ slot :: post) = Some slot.
Proof.
  intros Hpre Hm. induction Hpre as [|r pre Hr _ IH].
  - cbn [app find]. now rewrite Hm.
  - cbn [app find]. now rewrite (proj2 Hr).
Qed.

Lemma find_no_match (u : bytes) (pre : list bytes) :
  Forall (other_record u) pre ->
  find (strncmp_eq (NAME_MAX + 1) u) pre = None.
Proof.
  intros Hpre. induction Hpre as [|r pre Hr _ IH]; [reflexivity|].
  cbn [find]. now rewrite (proj2 Hr).
Qed.

(** On a ledger of whole records the read reports the value of the first
    record whose name field matches, and zero when there is none. *)
Lemma get_used_time_whole (e : env) (statepath : string) (u : bytes)
    (s : state) (hdr : bytes) (slots : list bytes) :
  files s !! statepath = Some (hdr ++ concat slots) ->
  length hdr = 12%nat -> header_ok hdr = true ->
  Forall (fun r => length r = record_size) slots ->
  ledger_access e = true ->
  get_used_time_for_user e statepath u s
  = Done (PAM_SUCCESS,
          match find (strncmp_eq (NAME_MAX + 1) u) slots with
          | Some slot => record_value e slot
          | None => 0
          end, s).
Proof.
  intros Hfile Hlen Hok Hall Hacc.
  destruct (first_match u slots Hall)
    as [Hnone | (pre & slot & post & -> & Hpre & Hslot & Hm & Hpost)].
  - rewrite (find_no_match u slots Hnone).
    apply (get_used_time_no_record e statepath u s hdr slots []);
      [now rewrite app_nil_r | exact Hlen | exact Hok | exact Hnone
      | rewrite record_size_eq; cbn; lia | exact Hacc].
  - rewrite (find_first_match u pre slot post Hpre Hm).
    rewrite concat_app in Hfile. cbn [concat] in Hfile.
    exact (get_used_time_found e statepath u s hdr pre slot (concat post)
             Hfile Hlen Hok Hpre Hslot Hm Hacc).
Qed.

Lemma ledger_sound_records (content : bytes) :
  ledger_sound (Some content) = true ->
  exists hdr slots,
    content = hdr ++ concat slots
    /\ length hdr = 12%nat /\ header_ok hdr = true
    /\ Forall (fun r => length r = record_size) slots.
Proof.
  cbn [ledger_sound]. intros H.
  apply andb_prop in H as [H Hwhole]. apply andb_prop in H as [Hlen Hok].
  apply Nat.eqb_eq in Hlen.
  rewrite <- (take_drop 12 content) in Hwhole.
  destruct (whole_records_split (take 12 content) (drop 12 content) Hlen Hwhole)
    as (slots & Hslots & Hall).
  exists (take 12 content), slots. rewrite <- Hslots, take_drop. auto.
Qed.

(** ** What a write does to the state file *)

(** The user's first record is overwritten where it stands. *)
Lemma set_used_time_replace (e : env) (statepath : string) (u : bytes)
    (used : Z) (s : state) (hdr : bytes) (pre : list bytes) (old : bytes)
    (post : list bytes) :
  files s !! statepath = Some (hdr ++ concat pre ++ old ++ concat post) ->
  length hdr = 12%nat -> header_ok hdr = true ->
  Forall (other_record u) pre ->
  length old = record_size ->
  strncmp_eq (NAME_MAX + 1) u old = true ->
  ledger_access e = true ->
  set_used_time_for_user e statepath u used s
  = Done (PAM_SUCCESS,
          write_file statepath
            (hdr ++ concat pre ++ make_record e u used ++ concat post) s).
Proof.
  intros Hfile Hlen Hok Hpre Hold Hm Hacc.
  unfold set_used_time_for_user.
  rewrite (open_state_path_existing e statepath s hdr _ Hfile Hlen Hok Hacc).
  rewrite (scan_records_found pre
             (scan_fuel (concat pre ++ old ++ concat post)) u old
             (concat post) O fresh_buf O (idle_fresh u) Hpre Hold Hm
             (records_fuel pre (old ++ concat post) u Hpre)).
  rewrite Hfile. cbn [default from_option id].
  assert (Hpre_len : Forall (fun r => length r = record_size) pre).
  { eapply Forall_impl; [exact Hpre|]. intros r Hr. exact (proj1 Hr). }
  replace (12 + (0 + record_size * S (length pre)) - record_size)%nat
    with (length (hdr ++ concat pre)).
  2:{ rewrite length_app, Hlen.
      rewrite (concat_records_length u pre Hpre_len). lia. }
  rewrite (app_assoc hdr).
  rewrite (pwrite_in_place (hdr ++ concat pre) old
             (make_record e u used) (concat post)).
  2:{ rewrite make_record_length. exact Hold. }
  now rewrite <- app_assoc.
Qed.

(** Without a record for the user one is appended. *)
Lemma set_used_time_append (e : env) (statepath : string) (u : bytes)
    (used : Z) (s : state) (hdr : bytes) (pre : list bytes) :
  files s !! statepath = Some (hdr ++ concat pre) ->
  length hdr = 12%nat -> header_ok hdr = true ->
  Forall (other_record u) pre ->
  ledger_access e = true ->
  set_used_time_for_user e statepath u used s
  = Done (PAM_SUCCESS,
          write_file statepath (hdr ++ concat pre ++ make_record e u used) s).
Proof.
  intros Hfile Hlen Hok Hpre Hacc.
  unfold set_used_time_for_user.
  rewrite (open_state_path_existing e statepath s hdr _ Hfile Hlen Hok Hacc).
  rewrite (scan_records_absent pre (scan_fuel (concat pre)) u O
             fresh_buf O (idle_fresh u) Hpre).
  2:{ pose proof (records_fuel pre [] u Hpre) as Hf.
      rewrite app_nil_r in Hf. lia. }
  rewrite Hfile. cbn [default from_option id].
  assert (Hpre_len : Forall (fun r => length r = record_size) pre).
  { eapply Forall_impl; [exact Hpre|]. intros r Hr. exact (proj1 Hr). }
  replace (12 + (0 + record_size * length pre))%nat
    with (length (hdr ++ concat pre)).
  2:{ rewrite length_app, Hlen.
      rewrite (concat_records_length u pre Hpre_len). lia. }
  rewrite pwrite_append. now rewrite <- app_assoc.
Qed.

(** What [open_state_path] does when there is no state file. *)
Lemma open_state_path_creates (e : env) (statepath : string) (s : state) :
  files s !! statepath = None ->
  ledger_access e = true ->
  open_state_path e statepath s
  = (Some [], write_file statepath format_header (write_file statepath [] s)).
Proof.
  intros Hfile Hacc.
  apply ledger_access_true in Hacc as (Hroot & Hopen & Hflock).
  unfold open_state_path. now rewrite Hroot, Hfile, Hopen, Hflock.
Qed.

Lemma scan_records_empty (u : bytes) :
  scan_records (scan_fuel []) u [] O fresh_buf O = Some (ScanEof O).
Proof. exact (scan_records_end_of_file 1 u O fresh_buf O (idle_fresh u)). Qed.

(** On a machine without a state file the write creates one. *)
Lemma set_used_time_create (e : env) (statepath : string) (u : bytes)
    (used : Z) (s : state) :
  files s !! statepath = None ->
  ledger_access e = true ->
  set_used_time_for_user e statepath u used s
  = Done (PAM_SUCCESS,
          write_file statepath (format_header ++ make_record e u used)
            (write_file statepath format_header (write_file statepath [] s))).
Proof.
  intros Hfile Hacc. unfold set_used_time_for_user.
  rewrite (open_state_path_creates e statepath s Hfile Hacc).
  rewrite scan_records_empty, lookup_write_file.
  cbn [default from_option id].
  change (12 + 0)%nat with (length format_header).
  now rewrite pwrite_append.
Qed.

Lemma get_used_time_create (e : env) (statepath : string) (u : bytes)
    (s : state) :
  files s !! statepath = None ->
  ledger_access e = true ->
  get_used_time_for_user e statepath u s
  = Done (PAM_SUCCESS, 0,
          write_file statepath format_header (write_file statepath [] s)).
Proof.
  intros Hfile Hacc. unfold get_used_time_for_user.
  rewrite (open_state_path_creates e statepath s Hfile Hacc).
  now rewrite scan_records_empty.
Qed.

(** Comparing against a literal without NUL pins the bytes down. *)
Lemma strncmp_eq_literal (n : nat) :
  forall buf l : bytes,
    length l = n ->
    forallb (fun c => negb (is_nul c)) l = true ->
    strncmp_eq n buf l = true ->
    take n buf = l.
Proof.
  induction n as [|n IH]; intros buf l Hlen Hnul Hcmp.
  - destruct l; [reflexivity | discriminate].
  - destruct l as [|c l]; [discriminate|].
    cbn [forallb] in Hnul. apply andb_prop in Hnul as [Hc Hl].
    apply negb_true_iff in Hc.
    cbn [strncmp_eq hd tl] in Hcmp.
    destruct buf as [|x buf]; cbn [hd tl] in Hcmp.
    + rewrite byte_eqb_sym in Hcmp. fold (is_nul c) in Hcmp.
      rewrite Hc in Hcmp. discriminate.
    + destruct (Byte.eqb x c) eqn:Hx; [|discriminate].
      apply Byte.byte_dec_bl in Hx. subst x. rewrite Hc in Hcmp.
      cbn [take]. f_equal. apply IH; [now injection Hlen | exact Hl | exact Hcmp].
Qed.

(** The header test accepts the 12 bytes the module writes and no others. *)
Lemma header_ok_iff (buf : bytes) :
  length buf = 12%nat -> (header_ok buf = true <-> buf = format_header).
Proof.
  intros Hlen. split; [|intros ->; apply format_header_ok].
  unfold header_ok. intros H. apply andb_prop in H as [Hname Hversion].
  apply (strncmp_eq_literal 8 buf (lit "Format: ") eq_refl eq_refl) in Hname.
  apply Z.eqb_eq in Hversion.
  rewrite take_ge in Hversion by (rewrite length_drop; lia).
  pose proof (split_le_combine (drop 8 buf)) as Hsplit.
  rewrite Hversion, length_drop, Hlen in Hsplit.
  rewrite <- (take_drop 8 buf), Hname, <- Hsplit. reflexivity.
Qed.

(** ** The state file, further *)

Lemma ledger_sound_intro (hdr : bytes) (slots : list bytes) :
  length hdr = 12%nat -> header_ok hdr = true ->
  Forall (fun r => length r = record_size) slots ->
  ledger_sound (Some (hdr ++ concat slots)) = true.
Proof.
  intros Hlen Hok Hall. cbn [ledger_sound].
  rewrite take_app_length' by now symmetry.
  rewrite Hlen, Hok. cbn [Nat.eqb andb]. unfold whole_records.
  rewrite length_app, Hlen, (concat_records_length [] slots Hall).
  replace (12 + record_size * length slots - 12)%nat
    with (length slots * record_size)%nat by lia.
  now rewrite Nat.Div0.mod_mul.
Qed.

(** [open_state_path] refuses a file that does not start with the header:
    the one effect is a log entry. *)
Lemma open_state_path_refuses (e : env) (statepath : string) (s : state)
    (content : bytes) :
  files s !! statepath = Some content ->
  take 12 content <> format_header ->
  exists m, open_state_path e statepath s = (None, pam_syslog m s).
Proof.
  intros Hfile Hforeign. unfold open_state_path. rewrite Hfile.
  destruct ((geteuid e =? 0) && negb (setuid_root_ok e)); [eauto|].
  destruct (open_ok e); [|eauto]. destruct (flock_ok e); [|eauto].
  cbn [negb].
  destruct (Nat.eqb_spec (length (take 12 content)) 12) as [Hlen|_];
    [|cbn [negb]; eauto].
  destruct (header_ok (take 12 content)) eqn:Hok; [|cbn [negb]; eauto].
  apply (header_ok_iff _ Hlen) in Hok. contradiction.
Qed.

(** X1.  On a machine without a state file, a process that may open and
    lock files gets zero from its first read, and the read leaves behind a
    state file that holds exactly the format header.  That file is a sound
    ledger, and further reads of it, for any user, report zero and change
    nothing. *)
Theorem first_read_creates_ledger (e : env) (statepath : string) (u : bytes)
    (s : state) :
  files s !! statepath = None ->
  ledger_access e = true ->
  exists s1,
    get_used_time_for_user e statepath u s = Done (PAM_SUCCESS, 0, s1)
    /\ files s1 = <[statepath := format_header]> (files s)
    /\ pam_data s1 = pam_data s /\ syslog s1 = syslog s
    /\ ledger_sound (files s1 !! statepath) = true
    /\ forall (e' : env) (v : bytes),
        ledger_access e' = true ->
        get_used_time_for_user e' statepath v s1 = Done (PAM_SUCCESS, 0, s1).
Proof.
  intros Hfile Hacc.
  exists (write_file statepath format_header (write_file statepath [] s)).
  split; [exact (get_used_time_create e statepath u s Hfile Hacc)|].
  split; [cbn [write_file files]; apply insert_insert_eq|].
  split; [reflexivity|]. split; [reflexivity|]. split.
  - rewrite lookup_write_file. reflexivity.
  - intros e' v Hacc'.
    apply (get_used_time_no_record e' statepath v _ format_header [] []);
      [now rewrite lookup_write_file | reflexivity | apply format_header_ok
      | constructor | rewrite record_size_eq; cbn; lia | exact Hacc'].
Qed.

Lemma first_read_creates_ledger_witness :
  exists s1,
    get_used_time_for_user Sample.sys "data/state" (lit "ted") Sample.world
    = Done (PAM_SUCCESS, 0, s1)
    /\ files s1 !! "data/state" = Some format_header.
Proof.
  destruct (first_read_creates_ledger Sample.sys "data/state" (lit "ted")
              Sample.world) as (s1 & Hget & Hfiles & _).
  - vm_compute. reflexivity.
  - vm_compute. reflexivity.
  - exists s1. split; [exact Hget|]. rewrite Hfiles. apply lookup_insert_eq.
Defined.

(** X2.  A state file that does not start with the 12 header bytes, be it
    too short, of another tag or of another version, is refused: reads and
    writes return [PAM_SYSTEM_ERR], the read reports zero, no file is
    changed and exactly one log entry is made. *)
Theorem foreign_state_file_is_refused (e : env) (statepath : string)
    (u : bytes) (used : Z) (s : state) (content : bytes) :
  files s !! statepath = Some content ->
  take 12 content <> format_header ->
  exists m,
    get_used_time_for_user e statepath u s
    = Done (PAM_SYSTEM_ERR, 0, pam_syslog m s)
    /\ set_used_time_for_user e statepath u used s
       = Done (PAM_SYSTEM_ERR, pam_syslog m s)
    /\ files (pam_syslog m s) = files s.
Proof.
  intros Hfile Hforeign.
  destruct (open_state_path_refuses e statepath s content Hfile Hforeign)
    as [m Hopen].
  exists m. unfold get_used_time_for_user, set_used_time_for_user.
  rewrite Hopen. auto.
Qed.

Lemma foreign_state_file_witness :
  exists m,
    get_used_time_for_user Sample.sys "data/state" (lit "ted")
      Sample.foreign_world
    = Done (PAM_SYSTEM_ERR, 0, pam_syslog m Sample.foreign_world)
    /\ set_used_time_for_user Sample.sys "data/state" (lit "ted")
         (7 * Sample.hour) Sample.foreign_world
       = Done (PAM_SYSTEM_ERR, pam_syslog m Sample.foreign_world)
    /\ files (pam_syslog m Sample.foreign_world) = files Sample.foreign_world.
Proof.
  apply (foreign_state_file_is_refused Sample.sys "data/state" (lit "ted")
           (7 * Sample.hour) Sample.foreign_world
           (lit "Format: " ++ le_split 4 2)).
  - vm_compute. reflexivity.
  - vm_compute. discriminate.
Defined.

(** X3.  When the lock is not granted right after the state file was
    created, the call fails with [PAM_SYSTEM_ERR] and an empty state file
    stays behind.  No later call recovers from that: every read and every
    write of that file, under any environment, fails with
    [PAM_SYSTEM_ERR] and leaves the empty file in place. *)
Theorem lock_failure_leaves_dead_file (e : env) (statepath : string)
    (u : bytes) (s : state) :
  files s !! statepath = None ->
  (geteuid e =? 0) && negb (setuid_root_ok e) = false ->
  open_ok e = true ->
  flock_ok e = false ->
  exists s1,
    get_used_time_for_user e statepath u s = Done (PAM_SYSTEM_ERR, 0, s1)
    /\ files s1 !! statepath = Some []
    /\ forall (e' : env) (v : bytes) (used : Z),
        exists m,
          get_used_time_for_user e' statepath v s1
          = Done (PAM_SYSTEM_ERR, 0, pam_syslog m s1)
          /\ set_used_time_for_user e' statepath v used s1
             = Done (PAM_SYSTEM_ERR, pam_syslog m s1).
Proof.
  intros Hfile Hroot Hopen Hflock.
  exists (pam_syslog LogLockStatefile (write_file statepath [] s)).
  assert (Hempty : files (pam_syslog LogLockStatefile
                            (write_file statepath [] s)) !! statepath
                   = Some []).
  { cbn [pam_syslog files]. apply lookup_write_file. }
  split; [|split; [exact Hempty|]].
  - unfold get_used_time_for_user, open_state_path.
    now rewrite Hroot, Hfile, Hopen, Hflock.
  - intros e' v used.
    destruct (open_state_path_refuses e' statepath _ [] Hempty) as [m Hdead];
      [discriminate|].
    exists m. unfold get_used_time_for_user, set_used_time_for_user.
    rewrite Hdead. auto.
Qed.

Lemma lock_failure_witness :
  exists s1,
    get_used_time_for_user Sample.sys_no_lock "data/state" (lit "ted")
      Sample.world
    = Done (PAM_SYSTEM_ERR, 0, s1)
    /\ files s1 !! "data/state" = Some []
    /\ exists m,
        get_used_time_for_user Sample.sys "data/state" (lit "ted") s1
        = Done (PAM_SYSTEM_ERR, 0, pam_syslog m s1).
Proof.
  destruct (lock_failure_leaves_dead_file Sample.sys_no_lock "data/state"
              (lit "ted") Sample.world) as (s1 & Hget & Hempty & Hdead).
  - vm_compute. reflexivity.
  - reflexivity.
  - reflexivity.
  - reflexivity.
  - exists s1. split; [exact Hget|]. split; [exact Hempty|].
    destruct (Hdead Sample.sys (lit "ted") 0) as [m [Hm _]].
    exists m. exact Hm.
Defined.

(** X4.  When no whole record of the ledger is the user's, the read
    succeeds with zero and changes nothing, whatever partial record ends
    the file: a record cut short is never compared, not even when it
    carries the user's name. *)
Theorem partial_record_is_not_matched (e : env) (statepath : string)
    (u : bytes) (s : state) (pre : list bytes) (tail : bytes) :
  files s !! statepath = Some (format_header ++ concat pre ++ tail) ->
  Forall (other_record u) pre ->
  (length tail < record_size)%nat ->
  ledger_access e = true ->
  get_used_time_for_user e statepath u s = Done (PAM_SUCCESS, 0, s).
Proof.
  intros Hfile Hpre Htail Hacc.
  exact (get_used_time_no_record e statepath u s format_header pre tail
           Hfile format_header_length format_header_ok Hpre Htail Hacc).
Qed.

Lemma partial_record_witness :
  get_used_time_for_user Sample.sys "data/state" (lit "ted")
    Sample.truncated_world
  = Done (PAM_SUCCESS, 0, Sample.truncated_world).
Proof.
  apply (partial_record_is_not_matched Sample.sys "data/state" (lit "ted")
           Sample.truncated_world []
           (take 38 (drop 12 (Sample.ledger_ted (time_today Sample.sys))))).
  - vm_compute. reflexivity.
  - constructor.
  - vm_compute. lia.
  - vm_compute. reflexivity.
Defined.

(** X5.  When the first record the scan matches for the user carries a day
    that is not before today's day boundary, the read succeeds with the
    counter stored in that record, a value below 2^64, and changes
    nothing. *)
Theorem todays_record_reads_counter (e : env) (statepath : string)
    (u : bytes) (s : state) (pre : list bytes) (slot rest : bytes) :
  files s !! statepath = Some (format_header ++ concat pre ++ slot ++ rest) ->
  Forall (other_record u) pre ->
  length slot = record_size ->
  strncmp_eq (NAME_MAX + 1) u slot = true ->
  time_today e <= record_last_seen slot ->
  ledger_access e = true ->
  get_used_time_for_user e statepath u s
  = Done (PAM_SUCCESS, record_used_time slot, s)
  /\ 0 <= record_used_time slot < two64.
Proof.
  intros Hfile Hpre Hslot Hm Hday Hacc. split.
  - rewrite (get_used_time_found e statepath u s format_header pre slot rest
               Hfile format_header_length format_header_ok Hpre Hslot Hm Hacc).
    apply Z.ltb_ge in Hday. now rewrite Hday.
  - apply record_used_time_range.
Qed.

Lemma todays_record_witness :
  get_used_time_for_user Sample.sys "data/state" (lit "ted")
    Sample.two_user_world
  = Done (PAM_SUCCESS, 5 * Sample.hour, Sample.two_user_world).
Proof.
  destruct (todays_record_reads_counter Sample.sys "data/state" (lit "ted")
              Sample.two_user_world
              [Sample.record_of (lit "bob") (time_today Sample.sys) Sample.hour]
              (Sample.record_of (lit "ted") (time_today Sample.sys)
                 (5 * Sample.hour)) [])
    as [Hget _].
  - vm_compute. reflexivity.
  - repeat constructor; vm_compute; reflexivity.
  - vm_compute. reflexivity.
  - vm_compute. reflexivity.
  - vm_compute. discriminate.
  - vm_compute. reflexivity.
  - rewrite Hget. vm_compute. reflexivity.
Defined.

Lemma scan_records_same_key (u v : bytes) (fuel : nat) :
  ledger_key u = ledger_key v ->
  forall (unread : bytes) (consumed : nat) (buf : bytes) (bb : nat),
    scan_records fuel u unread consumed buf bb
    = scan_records fuel v unread consumed buf bb.
Proof.
  intros Hkey. induction fuel as [|fuel IH]; intros unread consumed buf bb;
    [reflexivity|].
  rewrite !scan_records_S, (same_key_same_matches u v buf Hkey), !IH.
  reflexivity.
Qed.

Lemma make_record_same_key (e : env) (u v : bytes) (used : Z) :
  ledger_key u = ledger_key v -> make_record e u used = make_record e v used.
Proof.
  intros Hkey. unfold make_record.
  rewrite <- (strncpy_of_key (NAME_MAX + 1) u).
  rewrite <- (strncpy_of_key (NAME_MAX + 1) v).
  unfold ledger_key in Hkey. now rewrite Hkey.
Qed.

(** X6.  The ledger tells users apart by the first [NAME_MAX + 1] bytes of
    their names only: two names that agree on those bytes read the same
    usage and write the same record, on every state. *)
Theorem same_key_same_ledger_entry (e : env) (statepath : string)
    (u v : bytes) (used : Z) (s : state) :
  ledger_key u = ledger_key v ->
  get_used_time_for_user e statepath u s = get_used_time_for_user e statepath v s
  /\ set_used_time_for_user e statepath u used s
     = set_used_time_for_user e statepath v used s.
Proof.
  intros Hkey. unfold get_used_time_for_user, set_used_time_for_user.
  destruct (open_state_path e statepath s) as [[unread|] s1]; [|now split].
  rewrite (scan_records_same_key u v _ Hkey).
  now rewrite (make_record_same_key e u v used Hkey).
Qed.

Lemma same_key_witness :
  Sample.long_name x78 <> Sample.long_name x79
  /\ get_used_time_for_user Sample.sys "data/state" (Sample.long_name x78)
       Sample.two_user_world
     = get_used_time_for_user Sample.sys "data/state" (Sample.long_name x79)
         Sample.two_user_world.
Proof.
  split; [intros H; apply (f_equal (fun l => nth 256 l x00)) in H;
          vm_compute in H; discriminate|].
  apply (same_key_same_ledger_entry Sample.sys "data/state"
           (Sample.long_name x78) (Sample.long_name x79) 0
           Sample.two_user_world).
  vm_compute. reflexivity.
Defined.

(** The three ways a write on a sound ledger goes: the file is created,
    the record is appended, or the user's first record is replaced. *)
Lemma set_on_sound_ledger (e : env) (statepath : string) (u : bytes)
    (used : Z) (s : state) :
  ledger_access e = true ->
  ledger_sound (files s !! statepath) = true ->
  (files s !! statepath = None
   /\ set_used_time_for_user e statepath u used s
      = Done (PAM_SUCCESS,
              write_file statepath (format_header ++ make_record e u used)
                (write_file statepath format_header
                   (write_file statepath [] s))))
  \/ (exists hdr pre,
        files s !! statepath = Some (hdr ++ concat pre)
        /\ length hdr = 12%nat /\ header_ok hdr = true
        /\ Forall (other_record u) pre
        /\ set_used_time_for_user e statepath u used s
           = Done (PAM_SUCCESS,
                   write_file statepath
                     (hdr ++ concat pre ++ make_record e u used) s))
  \/ (exists hdr pre old post,
        files s !! statepath = Some (hdr ++ concat pre ++ old ++ concat post)
        /\ length hdr = 12%nat /\ header_ok hdr = true
        /\ Forall (other_record u) pre
        /\ length old = record_size
        /\ strncmp_eq (NAME_MAX + 1) u old = true
        /\ Forall (fun r => length r = record_size) post
        /\ set_used_time_for_user e statepath u used s
           = Done (PAM_SUCCESS,
                   write_file statepath
                     (hdr ++ concat pre ++ make_record e u used ++ concat post)
                     s)).
Proof.
  intros Hacc Hsound.
  destruct (files s !! statepath) as [content|] eqn:Hfile.
  - destruct (ledger_sound_records content Hsound)
      as (hdr & slots & -> & Hlen & Hok & Hall).
    destruct (first_match u slots Hall)
      as [Hnone | (pre & old & post & -> & Hpre & Hold & Hm & Hpost)].
    + right. left. exists hdr, slots.
      split; [reflexivity|]. split; [exact Hlen|]. split; [exact Hok|].
      split; [exact Hnone|].
      exact (set_used_time_append e statepath u used s hdr slots
               Hfile Hlen Hok Hnone Hacc).
    + right. right. exists hdr, pre, old, post.
      rewrite concat_app in Hfile |- *. cbn [concat] in Hfile |- *.
      split; [reflexivity|]. split; [exact Hlen|]. split; [exact Hok|].
      split; [exact Hpre|]. split; [exact Hold|]. split; [exact Hm|].
      split; [exact Hpost|].
      exact (set_used_time_replace e statepath u used s hdr pre old post
               Hfile Hlen Hok Hpre Hold Hm Hacc).
  - left. split; [reflexivity|].
    exact (set_used_time_create e statepath u used s Hfile Hacc).
Qed.

Lemma other_key_other_record (e : env) (u v : bytes) (used : Z) :
  ledger_key v <> ledger_key u ->
  other_record v (make_record e u used).
Proof.
  intros Hkey. split; [apply make_record_length|].
  destruct (strncmp_eq (NAME_MAX + 1) v (make_record e u used)) eqn:Hm;
    [|reflexivity].
  apply record_matches_key in Hm. rewrite make_record_key in Hm.
  contradiction.
Qed.

Lemma other_key_not_matched (u v old : bytes) :
  ledger_key v <> ledger_key u ->
  strncmp_eq (NAME_MAX + 1) u old = true ->
  strncmp_eq (NAME_MAX + 1) v old = false.
Proof.
  intros Hkey Hu.
  destruct (strncmp_eq (NAME_MAX + 1) v old) eqn:Hv; [|reflexivity].
  apply record_matches_key in Hu, Hv. congruence.
Qed.

Lemma find_skip {A : Type} (f : A -> bool) (x : A) (l l' : list A) :
  f x = false -> find f (l ++ x :: l') = find f (l ++ l').
Proof.
  intros Hx. induction l as [|y l IH]; cbn [app find].
  - now rewrite Hx.
  - now destruct (f y).
Qed.

Lemma Forall_record_length (u : bytes) (pre : list bytes) :
  Forall (other_record u) pre ->
  Forall (fun r => length r = record_size) pre.
Proof.
  intros Hpre. eapply Forall_impl; [exact Hpre|].
  intros r Hr. exact (proj1 Hr).
Qed.

(** X7.  A write for one user does not change what the ledger says about
    another: on a sound ledger, for a user whose key differs from the
    writer's, a read after the write returns the code and value a read in
    its place would have returned. *)
Theorem set_leaves_other_users (e e' : env) (statepath : string)
    (u v : bytes) (used : Z) (s : state) :
  ledger_access e = true ->
  ledger_access e' = true ->
  ledger_sound (files s !! statepath) = true ->
  ledger_key v <> ledger_key u ->
  exists s1,
    set_used_time_for_user e statepath u used s = Done (PAM_SUCCESS, s1)
    /\ reading (get_used_time_for_user e' statepath v s1)
       = reading (get_used_time_for_user e' statepath v s).
Proof.
  intros Hacc Hacc' Hsound Hkey.
  pose proof (other_key_other_record e u v used Hkey) as Hrec.
  destruct (set_on_sound_ledger e statepath u used s Hacc Hsound)
    as [[Hfile Hset]
       | [(hdr & pre & Hfile & Hlen & Hok & Hpre & Hset)
         | (hdr & pre & old & post & Hfile & Hlen & Hok & Hpre & Hold & Hm
            & Hpost & Hset)]];
    eexists; (split; [exact Hset|]).
  - rewrite (get_used_time_create e' statepath v s Hfile Hacc').
    rewrite (get_used_time_no_record e' statepath v _ format_header
               [make_record e u used] []);
      [reflexivity | rewrite lookup_write_file; cbn [concat];
                     now rewrite !app_nil_r
      | reflexivity | apply format_header_ok | now constructor
      | rewrite record_size_eq; cbn; lia | exact Hacc'].
  - pose proof (Forall_record_length u pre Hpre) as Hpre_len.
    rewrite (get_used_time_whole e' statepath v s hdr pre
               Hfile Hlen Hok Hpre_len Hacc').
    rewrite (get_used_time_whole e' statepath v _ hdr
               (pre ++ [make_record e u used])).
    + cbn [reading]. rewrite (find_skip _ _ pre [] (proj2 Hrec)).
      now rewrite app_nil_r.
    + rewrite lookup_write_file, concat_app. cbn [concat].
      now rewrite app_nil_r.
    + exact Hlen.
    + exact Hok.
    + apply Forall_app. split; [exact Hpre_len|].
      constructor; [exact (proj1 Hrec) | constructor].
    + exact Hacc'.
  - pose proof (Forall_record_length u pre Hpre) as Hpre_len.
    rewrite (get_used_time_whole e' statepath v s hdr (pre ++ old :: post)).
    + rewrite (get_used_time_whole e' statepath v _ hdr
                 (pre ++ make_record e u used :: post)).
      * cbn [reading].
        rewrite (find_skip _ _ pre post (proj2 Hrec)).
        now rewrite (find_skip _ _ pre post
                       (other_key_not_matched u v old Hkey Hm)).
      * rewrite lookup_write_file, concat_app. reflexivity.
      * exact Hlen.
      * exact Hok.
      * apply Forall_app. split; [exact Hpre_len|].
        constructor; [exact (proj1 Hrec) | exact Hpost].
      * exact Hacc'.
    + rewrite Hfile, concat_app. reflexivity.
    + exact Hlen.
    + exact Hok.
    + apply Forall_app. split; [exact Hpre_len|].
      constructor; [exact Hold | exact Hpost].
    + exact Hacc'.
Qed.

Lemma set_leaves_other_users_witness :
  exists s1,
    set_used_time_for_user Sample.sys "data/state" (lit "ted")
      (7 * Sample.hour) Sample.two_user_world
    = Done (PAM_SUCCESS, s1)
    /\ reading (get_used_time_for_user Sample.sys "data/state" (lit "bob") s1)
       = Some (PAM_SUCCESS, Sample.hour).
Proof.
  destruct (set_leaves_other_users Sample.sys Sample.sys "data/state"
              (lit "ted") (lit "bob") (7 * Sample.hour) Sample.two_user_world)
    as (s1 & Hset & Hread).
  - vm_compute. reflexivity.
  - vm_compute. reflexivity.
  - vm_compute. reflexivity.
  - vm_compute. discriminate.
  - exists s1. split; [exact Hset|]. rewrite Hread. vm_compute. reflexivity.
Defined.

Lemma length_records (hdr : bytes) (slots : list bytes) :
  length hdr = 12%nat ->
  Forall (fun r => length r = record_size) slots ->
  length (hdr ++ concat slots) = (12 + record_size * length slots)%nat.
Proof.
  intros Hlen Hall.
  now rewrite length_app, Hlen, (concat_records_length [] slots Hall).
Qed.

Lemma files_write_file_other (path other : string) (content : bytes)
    (s : state) :
  other <> path -> files (write_file path content s) !! other = files s !! other.
Proof.
  intros Hne. unfold write_file. cbn [files]. now apply lookup_insert_ne.
Qed.

(** X8.  A write keeps the ledger sound and touches no other file: after a
    write on a sound ledger the state file is again the header followed by
    whole records; it has the size it had when the user already had a
    record, and is one record longer (behind the 12 header bytes) when not. *)
Theorem set_keeps_ledger_sound (e : env) (statepath : string) (u : bytes)
    (used : Z) (s : state) :
  ledger_access e = true ->
  ledger_sound (files s !! statepath) = true ->
  exists s1,
    set_used_time_for_user e statepath u used s = Done (PAM_SUCCESS, s1)
    /\ ledger_sound (files s1 !! statepath) = true
    /\ (forall other, other <> statepath ->
                      files s1 !! other = files s !! other)
    /\ (ledger_size (files s1 !! statepath) = ledger_size (files s !! statepath)
        \/ ledger_size (files s1 !! statepath)
           = (Nat.max 12 (ledger_size (files s !! statepath)) + record_size)%nat).
Proof.
  intros Hacc Hsound.
  pose proof (make_record_length e u used) as Hrec.
  destruct (set_on_sound_ledger e statepath u used s Hacc Hsound)
    as [[Hfile Hset]
       | [(hdr & pre & Hfile & Hlen & Hok & Hpre & Hset)
         | (hdr & pre & old & post & Hfile & Hlen & Hok & Hpre & Hold & Hm
            & Hpost & Hset)]];
    eexists; (split; [exact Hset|]); rewrite lookup_write_file, Hfile;
    cbn [ledger_size].
  - split; [|split].
    + replace (format_header ++ make_record e u used)
        with (format_header ++ concat [make_record e u used])
        by (cbn [concat]; now rewrite app_nil_r).
      apply ledger_sound_intro;
        [reflexivity | apply format_header_ok | now constructor].
    + intros other Hne. now rewrite !files_write_file_other.
    + right. rewrite length_app, Hrec. reflexivity.
  - pose proof (Forall_record_length u pre Hpre) as Hpre_len.
    split; [|split].
    + replace (hdr ++ concat pre ++ make_record e u used)
        with (hdr ++ concat (pre ++ [make_record e u used]))
        by (rewrite concat_app; cbn [concat]; now rewrite app_nil_r).
      apply ledger_sound_intro; [exact Hlen | exact Hok|].
      apply Forall_app. split; [exact Hpre_len | now constructor].
    + intros other Hne. now rewrite files_write_file_other.
    + right. rewrite !length_app, Hrec, Hlen. lia.
  - pose proof (Forall_record_length u pre Hpre) as Hpre_len.
    split; [|split].
    + replace (hdr ++ concat pre ++ make_record e u used ++ concat post)
        with (hdr ++ concat (pre ++ make_record e u used :: post))
        by (now rewrite concat_app).
      apply ledger_sound_intro; [exact Hlen | exact Hok|].
      apply Forall_app. split; [exact Hpre_len | now constructor].
    + intros other Hne. now rewrite files_write_file_other.
    + left. rewrite !length_app, Hrec, Hold. reflexivity.
Qed.

Lemma set_keeps_ledger_sound_witness :
  exists s1,
    set_used_time_for_user Sample.sys "data/state" (lit "ted")
      (7 * Sample.hour) Sample.two_user_world
    = Done (PAM_SUCCESS, s1)
    /\ ledger_sound (files s1 !! "data/state") = true
    /\ files s1 !! "data/limits" = files Sample.two_user_world !! "data/limits".
Proof.
  destruct (set_keeps_ledger_sound Sample.sys "data/state" (lit "ted")
              (7 * Sample.hour) Sample.two_user_world)
    as (s1 & Hset & Hsound & Hframe & _).
  - vm_compute. reflexivity.
  - vm_compute. reflexivity.
  - exists s1. split; [exact Hset|]. split; [exact Hsound|].
    apply Hframe. discriminate.
Defined.

(** X9.  Writes for one user reuse the user's record: after a first write
    on a sound ledger a second write, possibly at another time, succeeds,
    leaves the state file at the size the first write gave it, and is what
    a read on the second writer's day returns. *)
Theorem second_set_overwrites (e e2 : env) (statepath : string) (u : bytes)
    (used used2 : Z) (s : state) :
  ledger_access e = true ->
  ledger_access e2 = true ->
  ledger_sound (files s !! statepath) = true ->
  0 <= used2 < two64 ->
  exists s1 s2,
    set_used_time_for_user e statepath u used s = Done (PAM_SUCCESS, s1)
    /\ set_used_time_for_user e2 statepath u used2 s1 = Done (PAM_SUCCESS, s2)
    /\ ledger_size (files s2 !! statepath) = ledger_size (files s1 !! statepath)
    /\ get_used_time_for_user e2 statepath u s2 = Done (PAM_SUCCESS, used2, s2).
Proof.
  intros Hacc Hacc2 Hsound Hrange.
  destruct (set_used_time_sound e statepath u used s Hacc Hsound) as [s1 Hset].
  destruct (set_used_time_result e statepath u used s s1
              (ledger_sound_whole _ Hsound) Hset)
    as (_ & hdr & pre & post & Hlen & Hok & Hpre & Hpost & Hfile & _).
  pose proof (set_used_time_replace e2 statepath u used2 s1 hdr pre
                (make_record e u used) post Hfile Hlen Hok Hpre
                (make_record_length e u used) (make_record_matches e u used)
                Hacc2) as Hset2.
  eexists s1, _. split; [exact Hset|]. split; [exact Hset2|].
  rewrite lookup_write_file, Hfile. cbn [ledger_size]. split.
  - now rewrite !length_app, !make_record_length.
  - rewrite (get_used_time_found e2 statepath u _ hdr pre
               (make_record e2 u used2) (concat post)
               (lookup_write_file _ _ _) Hlen Hok Hpre
               (make_record_length e2 u used2)
               (make_record_matches e2 u used2) Hacc2).
    rewrite make_record_last_seen, make_record_used_time, Z.ltb_irrefl.
    now rewrite usec_of_id.
Qed.

Lemma second_set_overwrites_witness :
  exists s1 s2,
    set_used_time_for_user Sample.sys "data/state" (lit "ted")
      (6 * Sample.hour) Sample.world
    = Done (PAM_SUCCESS, s1)
    /\ set_used_time_for_user Sample.sys "data/state" (lit "ted")
         (7 * Sample.hour) s1
       = Done (PAM_SUCCESS, s2)
    /\ ledger_size (files s2 !! "data/state")
       = ledger_size (files s1 !! "data/state")
    /\ get_used_time_for_user Sample.sys "data/state" (lit "ted") s2
       = Done (PAM_SUCCESS, 7 * Sample.hour, s2).
Proof.
  apply (second_set_overwrites Sample.sys Sample.sys "data/state" (lit "ted")
           (6 * Sample.hour) (7 * Sample.hour) Sample.world).
  - vm_compute. reflexivity.
  - vm_compute. reflexivity.
  - vm_compute. reflexivity.
  - unfold two64, Sample.hour, USEC_PER_SEC. lia.
Defined.

(** ** The line parser *)

Lemma parse_config_line_unfold (stray : byte) (line : bytes) :
  parse_config_line stray line
  = if negb (Byte.eqb (line_before stray line (strlen line)) x0a)
    then Done (PAM_BUF_ERR, None, None)
    else
      match strlen line with
      | O => Undefined
      | S n => parse_stripped stray (strip_comment line n)
      end.
Proof.
  unfold parse_config_line, parse_stripped.
  destruct (strlen line) as [|n]; [reflexivity|].
  now destruct (strip_comment line n).
Qed.

Lemma plain_not_nul (c : byte) : plain c = true -> is_nul c = false.
Proof.
  unfold plain. intros H. apply andb_prop in H as [H _].
  now apply negb_true_iff in H.
Qed.

Lemma plain_not_hash (c : byte) : plain c = true -> Byte.eqb c x23 = false.
Proof.
  unfold plain. intros H. apply andb_prop in H as [_ H].
  now apply negb_true_iff in H.
Qed.

Lemma word_char_plain (c : byte) : word_char c = true -> plain c = true.
Proof. unfold word_char. intros H. now apply andb_prop in H as [H _]. Qed.

Lemma word_char_not_space (c : byte) : word_char c = true -> isspace c = false.
Proof.
  unfold word_char. intros H. apply andb_prop in H as [_ H].
  now apply negb_true_iff in H.
Qed.

Lemma isspace_plain (c : byte) : isspace c = true -> plain c = true.
Proof. destruct c; try discriminate; reflexivity. Qed.

Lemma forallb_impl_bool {A : Type} (f g : A -> bool) (l : list A) :
  (forall x, f x = true -> g x = true) ->
  forallb f l = true -> forallb g l = true.
Proof.
  intros Himpl. induction l as [|x l IH]; [reflexivity|].
  cbn [forallb]. intros H. apply andb_prop in H as [Hx Hl].
  now rewrite (Himpl x Hx), (IH Hl).
Qed.

(** A string of plain characters in front of a NUL. *)
Lemma c_str_plain (a rest : bytes) :
  forallb plain a = true -> c_str (a ++ x00 :: rest) = a.
Proof.
  induction a as [|c a IH]; [reflexivity|].
  cbn [forallb]. intros H. apply andb_prop in H as [Hc Ha].
  cbn [app c_str]. rewrite (plain_not_nul c Hc). now rewrite IH.
Qed.

Lemma c_str_plain_app (a rest : bytes) :
  forallb plain a = true -> c_str (a ++ rest) = a ++ c_str rest.
Proof.
  induction a as [|c a IH]; [reflexivity|].
  cbn [forallb]. intros H. apply andb_prop in H as [Hc Ha].
  cbn [app c_str]. rewrite (plain_not_nul c Hc). now rewrite IH.
Qed.

Lemma strchr_hash_none (a rest : bytes) :
  forallb plain a = true -> strchr x23 (a ++ x00 :: rest) = None.
Proof.
  induction a as [|c a IH]; [reflexivity|].
  cbn [forallb]. intros H. apply andb_prop in H as [Hc Ha].
  cbn [app strchr].
  rewrite (plain_not_hash c Hc), (plain_not_nul c Hc). now rewrite IH.
Qed.

Lemma strchr_hash_found (a rest : bytes) :
  forallb plain a = true -> strchr x23 (a ++ x23 :: rest) = Some (length a).
Proof.
  induction a as [|c a IH]; [reflexivity|].
  cbn [forallb]. intros H. apply andb_prop in H as [Hc Ha].
  cbn [app strchr length].
  rewrite (plain_not_hash c Hc), (plain_not_nul c Hc). now rewrite IH.
Qed.

Lemma insert_at_length (a : bytes) (x y : byte) (rest : bytes) :
  <[length a := y]> (a ++ x :: rest) = a ++ y :: rest.
Proof.
  rewrite <- (Nat.add_0_r (length a)). now rewrite insert_app_r.
Qed.

(** Newline and comment removal on a line without comment ... *)
Lemma strip_comment_plain (body : bytes) :
  forallb plain body = true ->
  strip_comment (body ++ [x0a; x00]) (length body)
  = (body ++ [x00; x00], length body).
Proof.
  intros Hbody. unfold strip_comment.
  rewrite insert_at_length. now rewrite strchr_hash_none.
Qed.

(** ... and on a line with one: the text behind '#' stays in the buffer. *)
Lemma strip_comment_comment (a text : bytes) :
  forallb plain a = true ->
  strip_comment ((a ++ x23 :: text) ++ [x0a; x00]) (length (a ++ x23 :: text))
  = (a ++ x00 :: text ++ [x00; x00], length a).
Proof.
  intros Ha. unfold strip_comment.
  rewrite insert_at_length, <- app_assoc. cbn [app].
  rewrite strchr_hash_found by assumption.
  now rewrite insert_at_length.
Qed.

Lemma strip_comment_tail (a : bytes) (comment : option bytes) :
  forallb plain a = true ->
  exists junk,
    strip_comment ((a ++ comment_text comment) ++ [x0a; x00])
      (length (a ++ comment_text comment))
    = (a ++ x00 :: junk, length a)
    /\ (comment = None -> junk = [x00]).
Proof.
  intros Ha. destruct comment as [text|]; cbn [comment_text].
  - exists (text ++ [x00; x00]). split; [|discriminate].
    now apply strip_comment_comment.
  - exists [x00]. rewrite app_nil_r. split; [|reflexivity].
    now apply strip_comment_plain.
Qed.

Lemma plain_no_nul (l : bytes) : forallb plain l = true -> no_nul l = true.
Proof.
  apply forallb_impl_bool. intros c Hc.
  now rewrite (plain_not_nul c Hc).
Qed.

Lemma c_str_no_nul_app (a rest : bytes) :
  no_nul a = true -> c_str (a ++ rest) = a ++ c_str rest.
Proof.
  unfold no_nul. induction a as [|c a IH]; [reflexivity|].
  cbn [forallb]. intros H. apply andb_prop in H as [Hc Ha].
  apply negb_true_iff in Hc.
  cbn [app c_str]. rewrite Hc. now rewrite IH.
Qed.

Lemma c_str_no_nul (a : bytes) : no_nul a = true -> c_str a = a.
Proof.
  intros Ha. rewrite <- (app_nil_r a) at 1.
  rewrite (c_str_no_nul_app a [] Ha). apply app_nil_r.
Qed.

Lemma no_nul_app (a b : bytes) :
  no_nul a = true -> no_nul b = true -> no_nul (a ++ b) = true.
Proof. unfold no_nul. intros Ha Hb. now rewrite forallb_app, Ha, Hb. Qed.

Lemma comment_text_no_nul (comment : option bytes) :
  comment_ok comment = true -> no_nul (comment_text comment) = true.
Proof. destruct comment as [text|]; [|reflexivity]. intros H. exact H. Qed.

(** A line that ends in a newline passes the first test of
    [parse_config_line] and goes on to the removal of the comment. *)
Lemma parse_config_line_terminated (stray : byte) (body : bytes) :
  no_nul body = true ->
  parse_config_line stray (body ++ [x0a; x00])
  = parse_stripped stray (strip_comment (body ++ [x0a; x00]) (length body)).
Proof.
  intros Hbody. rewrite parse_config_line_unfold.
  assert (Hlen : strlen (body ++ [x0a; x00]) = S (length body)).
  { unfold strlen. rewrite (c_str_no_nul_app body _ Hbody), length_app.
    cbn. lia. }
  rewrite Hlen. cbn [line_before].
  now rewrite nth_middle.
Qed.

(** *** The trailing-whitespace loop on what it is given *)

Lemma eat_trailing_whitespace_S (stray : byte) (line : bytes) (n : nat) :
  isspace (nth n line x00) = true ->
  fst (eat_trailing_whitespace stray line (S n))
  = fst (eat_trailing_whitespace stray (<[n := x00]> line) n).
Proof.
  intros Hspace. cbn [eat_trailing_whitespace]. rewrite Hspace.
  now destruct (eat_trailing_whitespace stray (<[n:=x00]> line) n).
Qed.

Lemma replicate_cons_app {A : Type} (n : nat) (x : A) (l : list A) :
  replicate n x ++ x :: l = x :: replicate n x ++ l.
Proof.
  induction n as [|n IH]; [reflexivity|].
  cbn [replicate app]. now rewrite IH.
Qed.

(** The loop overwrites the whitespace at the end with NULs. *)
Lemma eat_trailing_whitespace_pad (stray : byte) (pad : bytes) :
  forall front rest : bytes,
    forallb isspace pad = true ->
    fst (eat_trailing_whitespace stray (front ++ pad ++ rest)
           (length front + length pad))
    = fst (eat_trailing_whitespace stray
             (front ++ replicate (length pad) x00 ++ rest) (length front)).
Proof.
  induction pad as [|c pad IH] using rev_ind; intros front rest Hpad.
  - cbn [length app replicate]. now rewrite Nat.add_0_r.
  - rewrite forallb_app in Hpad. apply andb_prop in Hpad as [Hpad Hc].
    cbn [forallb] in Hc. rewrite andb_true_r in Hc.
    rewrite length_app. cbn [length].
    replace (length front + (length pad + 1))%nat
      with (S (length (front ++ pad))) by (rewrite length_app; lia).
    rewrite <- (app_assoc pad), (app_assoc front pad). cbn [app].
    rewrite eat_trailing_whitespace_S by (now rewrite nth_middle).
    rewrite insert_at_length, <- app_assoc, length_app.
    rewrite (IH front (x00 :: rest) Hpad).
    rewrite replicate_cons_app.
    replace (length pad + 1)%nat with (S (length pad)) by lia.
    reflexivity.
Qed.

(** It stops in front of a character that is no whitespace ... *)
Lemma eat_trailing_whitespace_stop (stray : byte) (core : bytes) (d : byte)
    (rest : bytes) :
  isspace d = false ->
  fst (eat_trailing_whitespace stray ((core ++ [d]) ++ rest)
         (length (core ++ [d])))
  = Done ((core ++ [d]) ++ rest, length (core ++ [d])).
Proof.
  intros Hd. rewrite length_app. cbn [length].
  rewrite Nat.add_1_r. cbn [eat_trailing_whitespace].
  rewrite <- app_assoc. cbn [app]. now rewrite nth_middle, Hd.
Qed.

(** ... and at the start of the buffer it looks at the byte in front of
    it. *)
Lemma eat_trailing_whitespace_start (stray : byte) (line : bytes) :
  isspace stray = false ->
  fst (eat_trailing_whitespace stray line 0) = Done (line, O).
Proof. intros Hstray. cbn [eat_trailing_whitespace]. now rewrite Hstray. Qed.

(** *** The user name and the limit *)

Lemma username_end_word (user : bytes) (c : byte) (rest : bytes) :
  forallb word_char user = true ->
  isspace c = true ->
  username_end (user ++ c :: rest) = length user.
Proof.
  intros Huser Hc. induction user as [|x user IH].
  - cbn [app username_end]. now rewrite Hc.
  - cbn [forallb] in Huser. apply andb_prop in Huser as [Hx Huser].
    cbn [app username_end length].
    rewrite (word_char_not_space x Hx). now rewrite IH.
Qed.

Lemma username_end_no_space (user : bytes) (c : byte) :
  forallb word_char user = true ->
  isspace c = false ->
  username_end (user ++ [c]) = S (length user).
Proof.
  intros Huser Hc. induction user as [|x user IH].
  - cbn [app username_end]. now rewrite Hc.
  - cbn [forallb] in Huser. apply andb_prop in Huser as [Hx Huser].
    cbn [app username_end length].
    rewrite (word_char_not_space x Hx). now rewrite IH.
Qed.

Lemma skip_whitespace_sep (sep rest : bytes) :
  forallb isspace sep = true ->
  isspace (hd x00 rest) = false ->
  skip_whitespace (sep ++ rest) = rest.
Proof.
  intros Hsep Hrest. induction sep as [|c sep IH].
  - cbn [app]. destruct rest as [|x rest]; [reflexivity|].
    cbn [hd] in Hrest. cbn [skip_whitespace]. now rewrite Hrest.
  - cbn [forallb] in Hsep. apply andb_prop in Hsep as [Hc Hsep].
    cbn [app skip_whitespace]. rewrite Hc. now apply IH.
Qed.

Lemma word_chars_plain (l : bytes) :
  forallb word_char l = true -> forallb plain l = true.
Proof. apply forallb_impl_bool, word_char_plain. Qed.

Lemma spaces_plain (l : bytes) :
  forallb isspace l = true -> forallb plain l = true.
Proof. apply forallb_impl_bool, isspace_plain. Qed.

Lemma parse_stripped_unfold (stray : byte) (line : bytes) (n : nat) :
  parse_stripped stray (line, n)
  = match fst (eat_trailing_whitespace stray line n) with
    | Undefined => Undefined
    | OutOfFuel => OutOfFuel
    | Done (line, n) => split_entry line n
    end.
Proof. reflexivity. Qed.

(** The whitespace loop on a buffer that holds [core], whitespace and a
    NUL: the whitespace becomes NULs and [length] is that of [core]. *)
Lemma eat_trailing_whitespace_core (stray : byte) (core pad junk : bytes) :
  isspace (List.last core x20) = false ->
  forallb isspace pad = true ->
  fst (eat_trailing_whitespace stray ((core ++ pad) ++ x00 :: junk)
         (length (core ++ pad)))
  = Done (core ++ x00 :: replicate (length pad) x00 ++ junk, length core).
Proof.
  intros Hlast Hpad.
  destruct core as [|c0 core0] using rev_ind; [discriminate|]. clear IHcore0.
  rewrite last_last in Hlast.
  rewrite <- app_assoc, (length_app (core0 ++ [c0]) pad).
  rewrite (eat_trailing_whitespace_pad stray pad (core0 ++ [c0]) (x00 :: junk) Hpad).
  rewrite replicate_cons_app.
  apply (eat_trailing_whitespace_stop stray core0 c0 _ Hlast).
Qed.

Lemma eat_trailing_whitespace_blank_line (stray : byte) (pad junk : bytes) :
  forallb isspace pad = true ->
  fst (eat_trailing_whitespace stray (pad ++ x00 :: junk) (length pad))
  = if isspace stray then Undefined
    else Done (replicate (length pad) x00 ++ x00 :: junk, O).
Proof.
  intros Hpad.
  pose proof (eat_trailing_whitespace_pad stray pad [] (x00 :: junk) Hpad) as H.
  cbn [app length Nat.add] in H. rewrite H.
  cbn [eat_trailing_whitespace]. now destruct (isspace stray).
Qed.

Lemma username_end_take (user : bytes) (c : byte) (rest : bytes) (n : nat) :
  forallb word_char user = true ->
  isspace c = true ->
  (length user < n)%nat ->
  username_end (take n (user ++ c :: rest)) = length user.
Proof.
  intros Huser Hc Hn.
  rewrite take_app, (take_ge user n) by lia.
  destruct (n - length user)%nat as [|m] eqn:Hm; [lia|].
  cbn [take]. now apply username_end_word.
Qed.

Lemma hd_app_cons {A : Type} (d d' : A) (l rest : list A) :
  l <> [] -> hd d (l ++ rest) = hd d' l.
Proof. destruct l; [congruence|reflexivity]. Qed.

Lemma first_not_space_not_nil (l : bytes) :
  isspace (hd x20 l) = false -> l <> [].
Proof. now destruct l. Qed.

Lemma last_not_space_not_nil (l : bytes) :
  isspace (List.last l x20) = false -> l <> [].
Proof. now destruct l. Qed.

(** The user name ends at the first whitespace, the limit starts behind
    the whitespace and runs to the NUL. *)
Lemma split_entry_entry (user sep limit tail : bytes) :
  user <> [] ->
  forallb word_char user = true ->
  sep <> [] ->
  forallb isspace sep = true ->
  forallb plain limit = true ->
  isspace (hd x20 limit) = false ->
  split_entry ((user ++ sep ++ limit) ++ x00 :: tail)
    (length (user ++ sep ++ limit))
  = Done (PAM_SUCCESS, Some user, Some limit).
Proof.
  intros Hu Huser Hs Hsep Hlimit Hfirst.
  pose proof (first_not_space_not_nil limit Hfirst) as Hl.
  destruct sep as [|s0 sep]; [congruence|]. clear Hs.
  cbn [forallb] in Hsep. apply andb_prop in Hsep as [Hs0 Hsep].
  unfold split_entry.
  assert (Hlen : (length (user ++ (s0 :: sep) ++ limit) =? 0)%nat = false).
  { destruct user; [congruence|reflexivity]. }
  rewrite Hlen.
  rewrite <- (app_assoc user), <- (app_assoc (s0 :: sep)). cbn [app].
  rewrite (username_end_take user s0 _ _ Huser Hs0)
    by (rewrite length_app; cbn [length]; lia).
  assert (Hi : (length user =? 0)%nat = false).
  { destruct user; [congruence|reflexivity]. }
  rewrite Hi, take_app_length, drop_app_length.
  rewrite (c_str_no_nul user (plain_no_nul user (word_chars_plain user Huser))).
  cbn [skip_whitespace]. rewrite Hs0.
  rewrite (skip_whitespace_sep sep (limit ++ x00 :: tail) Hsep)
    by (rewrite (hd_app_cons x00 x20 limit _ Hl); exact Hfirst).
  rewrite (hd_app_cons x00 x20 limit _ Hl).
  destruct limit as [|l0 limit]; [congruence|].
  cbn [forallb] in Hlimit. apply andb_prop in Hlimit as [Hl0 Hlimit].
  cbn [hd]. rewrite (plain_not_nul l0 Hl0).
  change ((l0 :: limit) ++ x00 :: tail) with (l0 :: (limit ++ x00 :: tail)).
  cbn [c_str]. rewrite (plain_not_nul l0 Hl0).
  now rewrite (c_str_plain limit tail Hlimit).
Qed.

Lemma last_app_r (l1 l2 : bytes) (d : byte) :
  l2 <> [] -> List.last (l1 ++ l2) d = List.last l2 d.
Proof.
  intros Hl2. destruct l2 as [|x l2 _] using rev_ind; [congruence|].
  now rewrite app_assoc, !last_last.
Qed.

Lemma entry_text_plain (user sep limit pad : bytes) :
  forallb word_char user = true ->
  forallb isspace sep = true ->
  forallb plain limit = true ->
  forallb isspace pad = true ->
  forallb plain (user ++ sep ++ limit ++ pad) = true.
Proof.
  intros Huser Hsep Hlimit Hpad. rewrite !forallb_app.
  now rewrite (word_chars_plain user Huser), (spaces_plain sep Hsep),
    Hlimit, (spaces_plain pad Hpad).
Qed.

(** A line that ends in a newline and holds no NUL in front of it, as
    the parser finds it behind the removal of newline and comment. *)
Lemma parse_config_line_content (stray : byte) (a : bytes)
    (comment : option bytes) :
  forallb plain a = true ->
  comment_ok comment = true ->
  exists junk,
    parse_config_line stray ((a ++ comment_text comment) ++ [x0a; x00])
    = parse_stripped stray (a ++ x00 :: junk, length a)
    /\ (comment = None -> junk = [x00]).
Proof.
  intros Ha Hcomment.
  rewrite parse_config_line_terminated
    by (apply no_nul_app;
        [now apply plain_no_nul | now apply comment_text_no_nul]).
  destruct (strip_comment_tail a comment Ha) as (junk & -> & Hjunk).
  now exists junk.
Qed.

(** The whitespace loop and the split on the text of an entry. *)
Lemma parse_stripped_entry (stray : byte) (user sep limit pad junk : bytes) :
  user <> [] ->
  forallb word_char user = true ->
  sep <> [] ->
  forallb isspace sep = true ->
  forallb plain limit = true ->
  isspace (hd x20 limit) = false ->
  isspace (List.last limit x20) = false ->
  forallb isspace pad = true ->
  parse_stripped stray
    ((user ++ sep ++ limit ++ pad) ++ x00 :: junk,
     length (user ++ sep ++ limit ++ pad))
  = Done (PAM_SUCCESS, Some user, Some limit).
Proof.
  intros Hu Huser Hs Hsep Hlimit Hfirst Hlast Hpad.
  rewrite parse_stripped_unfold.
  replace (user ++ sep ++ limit ++ pad) with ((user ++ sep ++ limit) ++ pad)
    by (now rewrite <- !app_assoc).
  rewrite eat_trailing_whitespace_core; [|
    rewrite (app_assoc user sep limit),
      (last_app_r _ limit x20 (last_not_space_not_nil limit Hlast));
    exact Hlast | exact Hpad].
  cbv beta iota.
  exact (split_entry_entry user sep limit _ Hu Huser Hs Hsep Hlimit Hfirst).
Qed.

(** ... and on a buffer that holds whitespace only. *)
Lemma parse_stripped_blank (stray : byte) (pad junk : bytes) :
  forallb isspace pad = true ->
  parse_stripped stray (pad ++ x00 :: junk, length pad)
  = if isspace stray then Undefined else Done (PAM_SUCCESS, None, None).
Proof.
  intros Hpad. rewrite parse_stripped_unfold.
  rewrite (eat_trailing_whitespace_blank_line stray pad junk Hpad).
  now destruct (isspace stray).
Qed.

(** X10.  A line [user sep limit pad comment newline], where the user name
    holds no whitespace, [sep] is whitespace, the limit starts and ends
    with a character that is no whitespace (and may hold whitespace in
    between), [pad] is whitespace and the comment is optional, is parsed to
    exactly that user name and that limit. *)
Theorem entry_line_parses (stray : byte)
    (user sep limit pad : bytes) (comment : option bytes) :
  user <> [] ->
  forallb word_char user = true ->
  sep <> [] ->
  forallb isspace sep = true ->
  forallb plain limit = true ->
  isspace (hd x20 limit) = false ->
  isspace (List.last limit x20) = false ->
  forallb isspace pad = true ->
  comment_ok comment = true ->
  parse_config_line stray
    ((user ++ sep ++ limit ++ pad ++ comment_text comment) ++ [x0a; x00])
  = Done (PAM_SUCCESS, Some user, Some limit).
Proof.
  intros Hu Huser Hs Hsep Hlimit Hfirst Hlast Hpad Hcomment.
  pose proof (entry_text_plain user sep limit pad Huser Hsep Hlimit Hpad)
    as Hplain.
  replace (user ++ sep ++ limit ++ pad ++ comment_text comment)
    with ((user ++ sep ++ limit ++ pad) ++ comment_text comment)
    by (now rewrite <- !app_assoc).
  destruct (parse_config_line_content stray (user ++ sep ++ limit ++ pad)
              comment Hplain Hcomment) as (junk & -> & _).
  now apply parse_stripped_entry.
Qed.

Lemma entry_line_witness :
  parse_config_line x20
    ((lit "ted" ++ lit "  " ++ lit "1h 30m" ++ lit " "
        ++ comment_text (Some (lit " weekdays"))) ++ [x0a; x00])
  = Done (PAM_SUCCESS, Some (lit "ted"), Some (lit "1h 30m")).
Proof.
  apply (entry_line_parses x20 (lit "ted") (lit "  ") (lit "1h 30m") (lit " ")
           (Some (lit " weekdays")));
    solve [discriminate | reflexivity].
Defined.

(** X11.  A line of whitespace, a comment or both is skipped without an
    entry when the byte in front of the line buffer is no whitespace; when
    it is whitespace, the loop stores in front of the buffer. *)
Theorem blank_line_outcome (stray : byte) (pad : bytes) (comment : option bytes) :
  forallb isspace pad = true ->
  comment_ok comment = true ->
  parse_config_line stray ((pad ++ comment_text comment) ++ [x0a; x00])
  = if isspace stray then Undefined else Done (PAM_SUCCESS, None, None).
Proof.
  intros Hpad Hcomment.
  destruct (parse_config_line_content stray pad comment
              (spaces_plain pad Hpad) Hcomment) as (junk & -> & _).
  now apply parse_stripped_blank.
Qed.

Lemma blank_line_witness :
  parse_config_line x00
    ((lit "  " ++ comment_text (Some (lit " no limits here"))) ++ [x0a; x00])
  = Done (PAM_SUCCESS, None, None).
Proof.
  apply (blank_line_outcome x00 (lit "  ") (Some (lit " no limits here")));
    reflexivity.
Defined.

(** A line that does not end in a newline is refused with
    [PAM_BUF_ERR]. *)
Lemma parse_config_line_unterminated (stray : byte) (line : bytes) :
  no_nul line = true ->
  line <> [] ->
  List.last line x00 <> x0a ->
  parse_config_line stray (line ++ [x00]) = Done (PAM_BUF_ERR, None, None).
Proof.
  intros Hline Hne Hlast.
  destruct line as [|d line _] using rev_ind; [congruence|].
  rewrite last_last in Hlast.
  rewrite parse_config_line_unfold.
  assert (Hlen : strlen ((line ++ [d]) ++ [x00]) = S (length line)).
  { unfold strlen. rewrite (c_str_no_nul_app _ _ Hline), length_app.
    rewrite length_app. cbn. lia. }
  rewrite Hlen. cbn [line_before].
  rewrite <- app_assoc. cbn [app]. rewrite nth_middle.
  destruct (Byte.eqb d x0a) eqn:Hd; [|reflexivity].
  apply Byte.byte_dec_bl in Hd. congruence.
Qed.

(** X13.  Whitespace in front of the first word of a line makes the line
    an error, [PAM_SYSTEM_ERR], whatever the words are. *)
Theorem leading_whitespace_is_an_error (stray : byte)
    (sep words pad : bytes) (comment : option bytes) :
  sep <> [] ->
  forallb isspace sep = true ->
  forallb plain words = true ->
  isspace (List.last words x20) = false ->
  forallb isspace pad = true ->
  comment_ok comment = true ->
  parse_config_line stray
    ((sep ++ words ++ pad ++ comment_text comment) ++ [x0a; x00])
  = Done (PAM_SYSTEM_ERR, None, None).
Proof.
  intros Hs Hsep Hwords Hlast Hpad Hcomment.
  assert (Hplain : forallb plain (sep ++ words ++ pad) = true).
  { rewrite !forallb_app.
    now rewrite (spaces_plain sep Hsep), Hwords, (spaces_plain pad Hpad). }
  replace (sep ++ words ++ pad ++ comment_text comment)
    with ((sep ++ words ++ pad) ++ comment_text comment)
    by (now rewrite <- !app_assoc).
  rewrite parse_config_line_terminated
    by (apply no_nul_app;
        [now apply plain_no_nul | now apply comment_text_no_nul]).
  destruct (strip_comment_tail (sep ++ words ++ pad) comment Hplain)
    as (junk & -> & _).
  rewrite parse_stripped_unfold.
  replace (sep ++ words ++ pad) with ((sep ++ words) ++ pad)
    by (now rewrite <- !app_assoc).
  rewrite eat_trailing_whitespace_core; [|
    rewrite (last_app_r _ words x20 (last_not_space_not_nil words Hlast));
    exact Hlast | exact Hpad].
  destruct sep as [|s0 sep]; [congruence|].
  cbn [forallb] in Hsep. apply andb_prop in Hsep as [Hs0 _].
  cbv beta iota.
  unfold split_entry. cbn [app length Nat.eqb take username_end].
  now rewrite Hs0.
Qed.

Lemma leading_whitespace_witness :
  parse_config_line x00
    ((lit " " ++ lit "ted 1h" ++ [] ++ comment_text None) ++ [x0a; x00])
  = Done (PAM_SYSTEM_ERR, None, None).
Proof.
  apply (leading_whitespace_is_an_error x00 (lit " ") (lit "ted 1h") [] None);
    solve [discriminate | reflexivity].
Defined.

Lemma word_chars_last (user : bytes) :
  user <> [] ->
  forallb word_char user = true ->
  isspace (List.last user x20) = false.
Proof.
  intros Hu Huser. destruct user as [|d user _] using rev_ind; [congruence|].
  rewrite forallb_app in Huser. apply andb_prop in Huser as [_ Hd].
  cbn [forallb] in Hd. rewrite andb_true_r in Hd.
  rewrite last_last. now apply word_char_not_space.
Qed.

Lemma take_S_app_cons {A : Type} (a : list A) (x : A) (rest : list A) :
  take (S (length a)) (a ++ x :: rest) = a ++ [x].
Proof. induction a as [|y a IH]; [reflexivity|]. cbn. now rewrite IH. Qed.

Lemma drop_S_app_cons {A : Type} (a : list A) (x : A) (rest : list A) :
  drop (S (length a)) (a ++ x :: rest) = rest.
Proof.
  induction a as [|y a IH]; [now rewrite ?drop_0|]. exact IH.
Qed.

(** When the NUL that ends the line follows the user name at once, the
    search for the user name's end runs one character too far, and the
    limit is looked for behind the NUL. *)
Lemma split_entry_user_only (user tail : bytes) :
  user <> [] ->
  forallb word_char user = true ->
  split_entry (user ++ x00 :: tail) (length user)
  = if is_nul (hd x00 (skip_whitespace tail))
    then Done (PAM_SYSTEM_ERR, None, None)
    else Done (PAM_SUCCESS, Some user, Some (c_str (skip_whitespace tail))).
Proof.
  intros Hu Huser. unfold split_entry.
  assert (Hlen : (length user =? 0)%nat = false).
  { destruct user; [congruence|reflexivity]. }
  rewrite Hlen, take_S_app_cons.
  rewrite (username_end_no_space user x00 Huser eq_refl).
  cbn [Nat.eqb]. rewrite take_S_app_cons, drop_S_app_cons.
  now rewrite (c_str_plain user [] (word_chars_plain user Huser)).
Qed.

(** X14.  A line that holds a user name and no limit is an error,
    [PAM_SYSTEM_ERR], as long as a comment does not follow the name
    directly. *)
Theorem user_without_limit_is_an_error (stray : byte)
    (user pad : bytes) (comment : option bytes) :
  user <> [] ->
  forallb word_char user = true ->
  forallb isspace pad = true ->
  comment_ok comment = true ->
  (pad = [] -> comment = None) ->
  parse_config_line stray ((user ++ pad ++ comment_text comment) ++ [x0a; x00])
  = Done (PAM_SYSTEM_ERR, None, None).
Proof.
  intros Hu Huser Hpad Hcomment Hdirect.
  assert (Hplain : forallb plain (user ++ pad) = true).
  { rewrite forallb_app.
    now rewrite (word_chars_plain user Huser), (spaces_plain pad Hpad). }
  rewrite (app_assoc user pad).
  rewrite parse_config_line_terminated
    by (apply no_nul_app;
        [now apply plain_no_nul | now apply comment_text_no_nul]).
  destruct (strip_comment_tail (user ++ pad) comment Hplain)
    as (junk & -> & Hjunk).
  rewrite parse_stripped_unfold.
  rewrite (eat_trailing_whitespace_core stray user pad junk
             (word_chars_last user Hu Huser) Hpad).
  cbv beta iota.
  rewrite (split_entry_user_only user _ Hu Huser).
  destruct pad as [|p pad]; [|reflexivity].
  now rewrite (Hjunk (Hdirect eq_refl)).
Qed.

Lemma user_without_limit_witness :
  parse_config_line x00
    ((lit "ted" ++ lit " " ++ comment_text (Some (lit " 1h"))) ++ [x0a; x00])
  = Done (PAM_SYSTEM_ERR, None, None).
Proof.
  apply (user_without_limit_is_an_error x00 (lit "ted") (lit " ")
           (Some (lit " 1h")));
    solve [discriminate | reflexivity].
Defined.

(** X15.  When the '#' of a comment follows the user name directly, the
    search for the end of the user name steps over the NUL written in place
    of the '#', and the text of the comment, from its first character that
    is no whitespace, is returned as the user's limit. *)
Theorem comment_behind_user_is_the_limit (stray : byte)
    (user sep text : bytes) :
  user <> [] ->
  forallb word_char user = true ->
  forallb isspace sep = true ->
  no_nul text = true ->
  isspace (hd x20 text) = false ->
  parse_config_line stray ((user ++ x23 :: sep ++ text) ++ [x0a; x00])
  = Done (PAM_SUCCESS, Some user, Some text).
Proof.
  intros Hu Huser Hsep Htext Hfirst.
  pose proof (word_chars_plain user Huser) as Hplain.
  pose proof (first_not_space_not_nil text Hfirst) as Hne.
  assert (Hsep_nul : no_nul sep = true)
    by (now apply plain_no_nul, spaces_plain).
  rewrite parse_config_line_terminated
    by (apply no_nul_app; [now apply plain_no_nul|];
        apply (no_nul_app [x23] (sep ++ text) eq_refl);
        now apply no_nul_app).
  rewrite (strip_comment_comment user (sep ++ text) Hplain).
  rewrite parse_stripped_unfold.
  pose proof (eat_trailing_whitespace_core stray user []
                ((sep ++ text) ++ [x00; x00])
                (word_chars_last user Hu Huser) eq_refl) as Heat.
  rewrite app_nil_r in Heat. cbn [length replicate app] in Heat.
  cbn [app]. rewrite Heat. cbv beta iota.
  rewrite (split_entry_user_only user _ Hu Huser).
  rewrite <- (app_assoc sep text).
  rewrite (skip_whitespace_sep sep (text ++ [x00; x00]) Hsep)
    by (rewrite (hd_app_cons x00 x20 text _ Hne); exact Hfirst).
  rewrite (c_str_no_nul_app text _ Htext).
  cbn [c_str is_nul Byte.eqb]. rewrite app_nil_r.
  destruct text as [|t0 text]; [congruence|].
  cbn [no_nul forallb] in Htext. apply andb_prop in Htext as [Ht0 _].
  apply negb_true_iff in Ht0. cbn [app hd]. now rewrite Ht0.
Qed.

Lemma comment_behind_user_witness :
  parse_config_line x00 ((lit "ted" ++ x23 :: lit " " ++ lit "2h") ++ [x0a; x00])
  = Done (PAM_SUCCESS, Some (lit "ted"), Some (lit "2h")).
Proof.
  apply (comment_behind_user_is_the_limit x00 (lit "ted") (lit " ") (lit "2h"));
    solve [discriminate | reflexivity].
Defined.

(** ** The limits file, line by line *)

Lemma nonempty_not_nil (l : bytes) : nonempty l = true -> l <> [].
Proof. now destruct l. Qed.

Lemma no_newline_last (l : bytes) :
  no_newline l = true -> l <> [] -> List.last l x00 <> x0a.
Proof.
  intros Hl Hne. destruct l as [|d l _] using rev_ind; [congruence|].
  unfold no_newline in Hl. rewrite forallb_app in Hl.
  apply andb_prop in Hl as [_ Hd]. cbn [forallb] in Hd.
  rewrite andb_true_r in Hd. apply negb_true_iff in Hd.
  rewrite last_last. intros ->. discriminate.
Qed.

(** [fgets] hands out a line that fits into the buffer whole, newline
    included ... *)
Lemma fgets_lines_line (body rest : bytes) :
  forall (acc : bytes) (room : nat),
    no_newline body = true ->
    (length body < room)%nat ->
    fgets_lines room acc (body ++ x0a :: rest)
    = (acc ++ body ++ [x0a]) :: fgets_lines 1023 [] rest.
Proof.
  induction body as [|c body IH]; intros acc room Hbody Hroom.
  - reflexivity.
  - unfold no_newline in Hbody. cbn [forallb] in Hbody.
    apply andb_prop in Hbody as [Hc Hbody]. apply negb_true_iff in Hc.
    cbn [length] in Hroom.
    change ((c :: body) ++ x0a :: rest) with (c :: (body ++ x0a :: rest)).
    cbn [fgets_lines]. rewrite Hc.
    replace (room =? 1)%nat with false by (symmetry; apply Nat.eqb_neq; lia).
    cbn [orb]. rewrite (IH (acc ++ [c]) (room - 1)%nat Hbody) by lia.
    now rewrite <- app_assoc.
Qed.

(** ... cuts a longer line after the characters that fit ... *)
Lemma fgets_lines_cut (piece rest : bytes) :
  forall (acc : bytes) (room : nat),
    no_newline piece = true ->
    piece <> [] ->
    length piece = room ->
    fgets_lines room acc (piece ++ rest)
    = (acc ++ piece) :: fgets_lines 1023 [] rest.
Proof.
  induction piece as [|c piece IH]; intros acc room Hpiece Hne Hroom;
    [congruence|].
  unfold no_newline in Hpiece. cbn [forallb] in Hpiece.
  apply andb_prop in Hpiece as [Hc Hpiece]. apply negb_true_iff in Hc.
  cbn [length] in Hroom.
  change ((c :: piece) ++ rest) with (c :: (piece ++ rest)).
  cbn [fgets_lines]. rewrite Hc. cbn [orb].
  destruct piece as [|c' piece].
  - subst room. reflexivity.
  - replace (room =? 1)%nat with false
      by (symmetry; apply Nat.eqb_neq; cbn [length] in Hroom; lia).
    rewrite (IH (acc ++ [c]) (room - 1)%nat Hpiece)
      by (try discriminate; cbn [length] in *; lia).
    now rewrite <- app_assoc.
Qed.

(** ... and hands out what is left at the end of the file. *)
Lemma fgets_lines_tail (piece : bytes) :
  forall (acc : bytes) (room : nat),
    no_newline piece = true ->
    (length piece < room)%nat ->
    acc ++ piece <> [] ->
    fgets_lines room acc piece = [acc ++ piece].
Proof.
  induction piece as [|c piece IH]; intros acc room Hpiece Hroom Hne.
  - rewrite app_nil_r in *. cbn [fgets_lines]. now destruct acc.
  - unfold no_newline in Hpiece. cbn [forallb] in Hpiece.
    apply andb_prop in Hpiece as [Hc Hpiece]. apply negb_true_iff in Hc.
    cbn [length] in Hroom.
    cbn [fgets_lines]. rewrite Hc.
    replace (room =? 1)%nat with false by (symmetry; apply Nat.eqb_neq; lia).
    cbn [orb]. rewrite (IH (acc ++ [c]) (room - 1)%nat Hpiece);
      [now rewrite <- app_assoc | lia |].
    rewrite <- app_assoc. now destruct acc.
Qed.

Lemma conf_line_fits (stray : byte) (l : conf_line) :
  conf_line_ok stray l = true ->
  conf_line_parts_ok stray l = true
  /\ no_newline (conf_line_text l) = true
  /\ (length (conf_line_text l) < 1023)%nat.
Proof.
  unfold conf_line_ok. intros H.
  apply andb_prop in H as [H Hlen]. apply andb_prop in H as [Hparts Hnl].
  apply Nat.leb_le in Hlen. repeat split; [assumption ..|lia].
Qed.

(** The lines of a limits file made of well-formed lines reach the parser
    one by one. *)
Lemma fgets_lines_conf_text (stray : byte) (ls : list conf_line) (rest : bytes) :
  forallb (conf_line_ok stray) ls = true ->
  fgets_lines 1023 [] (conf_text ls ++ rest)
  = map (fun l => conf_line_text l ++ [x0a]) ls ++ fgets_lines 1023 [] rest.
Proof.
  induction ls as [|l ls IH]; intros Hall; [reflexivity|].
  cbn [forallb] in Hall. apply andb_prop in Hall as [Hl Hls].
  destruct (conf_line_fits stray l Hl) as (_ & Hnl & Hlen).
  unfold conf_text. cbn [map concat]. fold (conf_text ls).
  rewrite <- !app_assoc. cbn [app].
  rewrite (fgets_lines_line (conf_line_text l) (conf_text ls ++ rest) []
             1023 Hnl Hlen).
  cbn [app]. now rewrite (IH Hls).
Qed.

Ltac split_andb :=
  repeat match goal with
         | H : (_ && _) = true |- _ => apply andb_prop in H as [? ?]
         | H : negb _ = true |- _ => apply negb_true_iff in H
         | H : nonempty _ = true |- _ => apply nonempty_not_nil in H
         end.

(** What the parser makes of a well-formed line. *)
Lemma conf_line_parsed (stray : byte) (l : conf_line) :
  conf_line_parts_ok stray l = true ->
  parse_config_line stray ((conf_line_text l ++ [x0a]) ++ [x00])
  = Done (PAM_SUCCESS, fst <$> conf_line_entry l, snd <$> conf_line_entry l).
Proof.
  intros Hok. rewrite <- app_assoc. cbn [app].
  destruct l as [user sep limit pad comment | pad comment];
    cbn [conf_line_parts_ok conf_line_text conf_line_entry fmap option_fmap
         option_map fst snd] in *; split_andb.
  - replace (user ++ sep ++ limit ++ pad ++ comment_text comment)
      with ((user ++ sep ++ limit ++ pad) ++ comment_text comment)
      by (now rewrite <- !app_assoc).
    destruct (parse_config_line_content stray (user ++ sep ++ limit ++ pad)
                comment) as (junk & -> & _);
      [now apply entry_text_plain | assumption |].
    now apply parse_stripped_entry.
  - destruct (parse_config_line_content stray pad comment)
      as (junk & -> & _); [now apply spaces_plain | assumption |].
    rewrite parse_stripped_blank by assumption.
    match goal with H : isspace stray = false |- _ => now rewrite H end.
Qed.

Lemma conf_lines_accepted (stray : byte) (ls : list conf_line) :
  forallb (conf_line_ok stray) ls = true ->
  forallb (line_accepted stray) (map (fun l => conf_line_text l ++ [x0a]) ls)
  = true
  /\ omap (line_entry stray) (map (fun l => conf_line_text l ++ [x0a]) ls)
     = omap conf_line_entry ls.
Proof.
  induction ls as [|l ls IH]; intros Hall; [now split|].
  cbn [forallb] in Hall. apply andb_prop in Hall as [Hl Hls].
  destruct (conf_line_fits stray l Hl) as (Hparts & _ & _).
  destruct (IH Hls) as [Hacc Hent].
  pose proof (conf_line_parsed stray l Hparts) as Hline.
  cbn [map forallb omap list_omap].
  unfold line_accepted at 1, line_entry at 1. rewrite Hline, Hacc, Hent.
  split; [reflexivity|].
  now destruct l.
Qed.

(** X16.  A limits file made of well-formed lines, entries and lines
    without entry in any order, each shorter than 1023 characters, is read
    to the table of its entries in file order; without any entry the module
    has no limits to apply and returns [PAM_IGNORE]. *)
Theorem limits_file_is_read_in_order (e : env) (path : string) (s : state)
    (ls : list conf_line) :
  files s !! path = Some (conf_text ls) ->
  fopen_ok e = true ->
  forallb (conf_line_ok (stack_neighbour e)) ls = true ->
  parse_config_file e path s
  = (match omap conf_line_entry ls with
     | [] => Done (PAM_IGNORE, [])
     | table => Done (PAM_SUCCESS, table)
     end, s).
Proof.
  intros Hfile Hopen Hall.
  pose proof (fgets_lines_conf_text (stack_neighbour e) ls [] Hall) as Hlines.
  rewrite app_nil_r in Hlines. cbn [fgets_lines] in Hlines.
  rewrite app_nil_r in Hlines.
  destruct (conf_lines_accepted (stack_neighbour e) ls Hall) as [Hacc Hent].
  rewrite (parse_config_file_accepted e path s (conf_text ls) Hfile Hopen)
    by (rewrite Hlines; exact Hacc).
  now rewrite Hlines, Hent.
Qed.

Lemma limits_file_witness :
  parse_config_file Sample.sys "data/limits" SampleLimits.world
  = (Done (PAM_SUCCESS,
           [(lit "ted", lit "1h 30m"); (lit "ann", lit "2h")]),
     SampleLimits.world).
Proof.
  apply (limits_file_is_read_in_order Sample.sys "data/limits"
           SampleLimits.world SampleLimits.lines);
    vm_compute; reflexivity.
Defined.

(** X12.  One line that does not end in a newline makes the whole limits
    file invalid, whatever well-formed lines precede it: a line of 1023
    characters or more, of which [fgets] hands out the first 1023, and a last
    line without newline.  The module answers [PAM_PERM_DENIED] and logs the
    file as invalid; the entries read so far are dropped. *)
Theorem unterminated_line_invalidates_file (e : env) (path : string)
    (s : state) (ls : list conf_line) (piece rest : bytes) :
  files s !! path = Some (conf_text ls ++ piece ++ rest) ->
  fopen_ok e = true ->
  forallb (conf_line_ok (stack_neighbour e)) ls = true ->
  piece <> [] ->
  no_nul piece = true ->
  no_newline piece = true ->
  length piece = 1023%nat \/ ((length piece < 1023)%nat /\ rest = []) ->
  parse_config_file e path s
  = (Done (PAM_PERM_DENIED, []), pam_syslog (LogInvalidConfigFile path) s).
Proof.
  intros Hfile Hopen Hall Hne Hnul Hnl Hlen.
  pose proof (fgets_lines_conf_text (stack_neighbour e) ls (piece ++ rest) Hall)
    as Hlines.
  destruct (conf_lines_accepted (stack_neighbour e) ls Hall) as [Hacc _].
  assert (Hpiece : exists after,
             fgets_lines 1023 [] (piece ++ rest) = piece :: after).
  { destruct Hlen as [Hlen | [Hlen ->]].
    - exists (fgets_lines 1023 [] rest).
      exact (fgets_lines_cut piece rest [] 1023 Hnl Hne Hlen).
    - exists []. rewrite app_nil_r.
      exact (fgets_lines_tail piece [] 1023 Hnl Hlen Hne). }
  destruct Hpiece as [after Hpiece]. rewrite Hpiece in Hlines.
  unfold parse_config_file. rewrite Hfile, Hopen. cbn [negb].
  rewrite Hlines.
  rewrite (read_config_lines_rejected (stack_neighbour e) _ piece after []
             Hacc); [reflexivity|].
  unfold line_rejected.
  now rewrite (parse_config_line_unterminated (stack_neighbour e) piece
                 Hnul Hne (no_newline_last piece Hnl Hne)).
Qed.

Lemma unterminated_line_witness :
  parse_config_file Sample.sys "data/limits" SampleLimits.world_unterminated
  = (Done (PAM_PERM_DENIED, []),
     pam_syslog (LogInvalidConfigFile "data/limits")
       SampleLimits.world_unterminated).
Proof.
  apply (unterminated_line_invalidates_file Sample.sys "data/limits"
           SampleLimits.world_unterminated SampleLimits.lines
           (lit "bob 5h") []);
    solve [ vm_compute; reflexivity
          | discriminate
          | right; split; [vm_compute; lia | reflexivity] ].
Defined.

(** ** What the entry points leave behind *)

Lemma open_state_path_other_files (e : env) (statepath : string) (s : state) :
  other_files_kept statepath s (snd (open_state_path e statepath s)).
Proof.
  intros other Hother. unfold open_state_path.
  repeat match goal with
         | |- context [if ?b then _ else _] => destruct b
         | |- context [match files s !! statepath with _ => _ end] =>
             destruct (files s !! statepath)
         end;
    cbn [snd files pam_syslog write_file];
    now rewrite ?lookup_insert_ne by congruence.
Qed.

Lemma open_state_path_created_at_most (e : env) (statepath : string)
    (s : state) :
  created_at_most (files s !! statepath)
    (files (snd (open_state_path e statepath s)) !! statepath).
Proof.
  unfold open_state_path, created_at_most.
  destruct ((geteuid e =? 0) && negb (setuid_root_ok e)); [now left|].
  destruct (files s !! statepath) as [content|] eqn:Hfile.
  - left. rewrite <- Hfile.
    repeat match goal with
           | |- context [if ?b then _ else _] => destruct b
           end; reflexivity.
  - destruct (open_ok e); cbn [negb]; [|left; now rewrite <- Hfile].
    right. split; [reflexivity|].
    destruct (flock_ok e); cbn [negb snd files pam_syslog write_file].
    + right. now rewrite lookup_insert_eq.
    + left. now rewrite lookup_insert_eq.
Qed.

Lemma get_used_time_state (e : env) (statepath : string) (u : bytes)
    (s s1 : state) (code : pam_code) (used : Z) :
  get_used_time_for_user e statepath u s = Done (code, used, s1) ->
  s1 = snd (open_state_path e statepath s).
Proof.
  unfold get_used_time_for_user.
  destruct (open_state_path e statepath s) as [[unread|] s0]; cbn [snd].
  - destruct (scan_records _ _ _ _ _ _) as [[buf pos|pos]|]; try discriminate.
    + destruct (record_last_seen buf <? time_today e); congruence.
    + congruence.
  - congruence.
Qed.

Lemma set_used_time_pam_data (e : env) (statepath : string) (u : bytes)
    (used : Z) (s s1 : state) (code : pam_code) :
  set_used_time_for_user e statepath u used s = Done (code, s1) ->
  pam_data s1 = pam_data s.
Proof.
  unfold set_used_time_for_user.
  pose proof (open_state_path_pam_data e statepath s) as Hframe.
  destruct (open_state_path e statepath s) as [[unread|] s0];
    cbn [snd] in Hframe.
  - destruct (scan_records _ _ _ _ _ _) as [r|]; [|discriminate].
    intros [= _ <-]. exact Hframe.
  - intros [= _ <-]. exact Hframe.
Qed.

Lemma set_used_time_other_files (e : env) (statepath : string) (u : bytes)
    (used : Z) (s s1 : state) (code : pam_code) :
  set_used_time_for_user e statepath u used s = Done (code, s1) ->
  other_files_kept statepath s s1.
Proof.
  unfold set_used_time_for_user.
  pose proof (open_state_path_other_files e statepath s) as Hframe.
  destruct (open_state_path e statepath s) as [[unread|] s0];
    cbn [snd] in Hframe.
  - destruct (scan_records _ _ _ _ _ _) as [r|]; [|discriminate].
    intros [= _ <-] other Hother.
    rewrite (files_write_file_other statepath other _ s0 Hother).
    now apply Hframe.
  - intros [= _ <-]. exact Hframe.
Qed.

Lemma parse_config_file_files (e : env) (path : string) (s : state) :
  files (snd (parse_config_file e path s)) = files s.
Proof.
  unfold parse_config_file.
  destruct (files s !! path) as [content|]; [|reflexivity].
  destruct (fopen_ok e); [|reflexivity]. cbn [negb].
  destruct (read_config_lines _ _ _) as [[[|entry table]|]| |]; reflexivity.
Qed.

Section Footprint.

Variable parse_time : bytes -> option Z.
Variable format_timespan : Z -> option bytes.

(** The tail of the admission check: handle data and files. *)
Lemma enforce_limit_footprint (e : env) (statepath : string)
    (username text : bytes) (s s' : state) (code : pam_code) :
  enforce_limit parse_time format_timespan e statepath username text s
  = Done (code, s') ->
  (code = PAM_SUCCESS ->
   exists remaining, pam_data s' = pam_data (publish remaining s))
  /\ (code <> PAM_SUCCESS -> pam_data s' = pam_data s)
  /\ other_files_kept statepath s s'
  /\ created_at_most (files s !! statepath) (files s' !! statepath).
Proof.
  unfold enforce_limit.
  destruct (parse_time text) as [timeval|].
  2:{ intros [= <- <-]. split; [discriminate|].
      split; [reflexivity|]. split; [now intros other _|now left]. }
  destruct (get_used_time_for_user e statepath username s)
    as [[[gcode used] s1]| |] eqn:Hget; try discriminate.
  pose proof (get_used_time_pam_data _ _ _ _ _ _ _ Hget) as Hdata.
  pose proof (get_used_time_state _ _ _ _ _ _ _ Hget) as Hs1.
  pose proof (open_state_path_other_files e statepath s) as Hother.
  pose proof (open_state_path_created_at_most e statepath s) as Hledger.
  rewrite <- Hs1 in Hother, Hledger.
  assert (Hdenied : forall c s2,
             Done (PAM_PERM_DENIED, s1) = Done (c, s2) ->
             (c = PAM_SUCCESS ->
              exists remaining, pam_data s2 = pam_data (publish remaining s))
             /\ (c <> PAM_SUCCESS -> pam_data s2 = pam_data s)
             /\ other_files_kept statepath s s2
             /\ created_at_most (files s !! statepath) (files s2 !! statepath)).
  { intros c s2 [= <- <-]. split; [discriminate|].
    split; [intros _; exact Hdata|]. split; assumption. }
  destruct gcode; try exact (Hdenied code s').
  destruct (timeval <=? used); [exact (Hdenied code s')|].
  destruct (format_timespan _) as [remaining|]; [|exact (Hdenied code s')].
  unfold pam_set_data.
  destruct (decide (set_data_status e "systemd.runtime_max_sec" = PAM_SUCCESS))
    as [Hok|Hbad].
  - intros [= <- <-]. cbn [pam_data files].
    split; [|split; [congruence|split; assumption]].
    intros _. exists remaining. cbn [publish pam_data]. now rewrite Hdata.
  - destruct (set_data_status e "systemd.runtime_max_sec");
      try congruence; exact (Hdenied code s').
Qed.

(** The whole admission check. *)
Lemma acct_mgmt_footprint (e : env) (argv : list string) (s s' : state)
    (code : pam_code) :
  pam_sm_acct_mgmt parse_time format_timespan e argv s = Done (code, s') ->
  (code = PAM_SUCCESS ->
   exists remaining, pam_data s' = pam_data (publish remaining s))
  /\ (code <> PAM_SUCCESS -> pam_data s' = pam_data s)
  /\ forall opath ostate,
       acct_mgmt_args argv None None = inr (opath, ostate) ->
       other_files_kept (default DEFAULT_STATE_PATH ostate) s s'
       /\ created_at_most (files s !! default DEFAULT_STATE_PATH ostate)
            (files s' !! default DEFAULT_STATE_PATH ostate).
Proof.
  unfold pam_sm_acct_mgmt.
  assert (Hkept : forall c s2,
             c <> PAM_SUCCESS -> files s2 = files s ->
             pam_data s2 = pam_data s ->
             Done (c, s2) = Done (code, s') ->
             (code = PAM_SUCCESS ->
              exists remaining, pam_data s' = pam_data (publish remaining s))
             /\ (code <> PAM_SUCCESS -> pam_data s' = pam_data s)
             /\ forall opath ostate,
                  acct_mgmt_args argv None None = inr (opath, ostate) ->
                  other_files_kept (default DEFAULT_STATE_PATH ostate) s s'
                  /\ created_at_most
                       (files s !! default DEFAULT_STATE_PATH ostate)
                       (files s' !! default DEFAULT_STATE_PATH ostate)).
  { intros c s2 Hc Hfiles Hdata [= <- <-].
    split; [congruence|]. split; [intros _; exact Hdata|].
    intros opath ostate _. split.
    - intros other _. now rewrite Hfiles.
    - left. now rewrite Hfiles. }
  destruct (acct_mgmt_args argv None None) as [bad|[path statepath]] eqn:Hargs.
  { apply Hkept; [discriminate|reflexivity ..]. }
  destruct (pam_user e) as [ucode [username|]].
  2:{ destruct ucode; apply Hkept; (discriminate || reflexivity). }
  destruct ucode; try (apply Hkept; (discriminate || reflexivity)).
  pose proof (parse_config_file_files e (default DEFAULT_CONFIG_PATH path) s)
    as Hpfiles.
  pose proof (parse_config_file_pam_data e (default DEFAULT_CONFIG_PATH path) s)
    as Hpdata.
  destruct (parse_config_file e (default DEFAULT_CONFIG_PATH path) s)
    as [[[pcode table]| |] s1]; cbn [snd] in Hpfiles, Hpdata;
    try discriminate.
  destruct pcode; try (apply Hkept; (discriminate || assumption)).
  pose proof (match_user_frame username table None s1) as [Hmfiles Hmdata].
  destruct (match_user table username None s1) as [[text|] s2];
    cbn [snd] in Hmfiles, Hmdata.
  2:{ apply Hkept; (discriminate || congruence). }
  intros Hrun.
  destruct (enforce_limit_footprint e (default DEFAULT_STATE_PATH statepath)
              username text s2 s' code Hrun)
    as (Hsucc & Hfail & Hother & Hledger).
  split; [|split].
  - intros Hcode. destruct (Hsucc Hcode) as [remaining Hpub].
    exists remaining. rewrite Hpub. cbn [publish pam_data]. congruence.
  - intros Hcode. rewrite (Hfail Hcode). congruence.
  - intros opath ostate [= <- <-]. split.
    + intros other Hne. rewrite (Hother other Hne). congruence.
    + replace (files s !! default DEFAULT_STATE_PATH statepath)
        with (files s2 !! default DEFAULT_STATE_PATH statepath)
        by congruence.
      exact Hledger.
Qed.

(** X17.  The admission check publishes a limit exactly when it admits:
    with [PAM_SUCCESS] the data of the PAM handle is what it was plus a
    time span under "systemd.runtime_max_sec"; with any other code, denial
    and [PAM_IGNORE] included, the data of the handle is untouched, so a
    limit published by an earlier check stays as it was. *)
Theorem admission_publishes_iff_admitted (e : env) (argv : list string)
    (s s' : state) (code : pam_code) :
  pam_sm_acct_mgmt parse_time format_timespan e argv s = Done (code, s') ->
  (code = PAM_SUCCESS ->
   exists remaining, pam_data s' = pam_data (publish remaining s))
  /\ (code <> PAM_SUCCESS -> pam_data s' = pam_data s).
Proof.
  intros Hrun.
  destruct (acct_mgmt_footprint e argv s s' code Hrun) as (Hsucc & Hfail & _).
  now split.
Qed.


End Footprint.

Lemma admission_publishes_witness :
  (PAM_SUCCESS = PAM_SUCCESS ->
   exists remaining,
     pam_data (publish (lit "7h") (Sample.after_match Sample.used_world))
     = pam_data (publish remaining Sample.used_world))
  /\ (PAM_SUCCESS <> PAM_SUCCESS ->
      pam_data (publish (lit "7h") (Sample.after_match Sample.used_world))
      = pam_data Sample.used_world).
Proof.
  apply (admission_publishes_iff_admitted Sample.parse_time
           Sample.format_timespan Sample.sys Sample.args Sample.used_world).
  vm_compute. reflexivity.
Defined.




(** ** A session from open to close *)

(** What [open_state_path] answers depends on the files only. *)
Lemma open_state_path_files_only (e : env) (statepath : string)
    (s sa : state) :
  files s = files sa ->
  fst (open_state_path e statepath s) = fst (open_state_path e statepath sa).
Proof.
  intros Hfiles. unfold open_state_path. rewrite Hfiles.
  repeat match goal with
         | |- context [if ?b then _ else _] => destruct b
         | |- context [match files sa !! statepath with _ => _ end] =>
             destruct (files sa !! statepath)
         end; reflexivity.
Qed.

Lemma get_used_time_files_only (e : env) (statepath : string) (u : bytes)
    (s sa : state) :
  files s = files sa ->
  reading (get_used_time_for_user e statepath u s)
  = reading (get_used_time_for_user e statepath u sa).
Proof.
  intros Hfiles. unfold get_used_time_for_user.
  pose proof (open_state_path_files_only e statepath s sa Hfiles) as Hfst.
  destruct (open_state_path e statepath s) as [o s0],
    (open_state_path e statepath sa) as [oa sa0].
  cbn [fst] in Hfst. subst oa.
  destruct o as [unread|]; [|reflexivity].
  destruct (scan_records _ _ _ _ _ _) as [[buf pos|pos]|]; try reflexivity.
  now destruct (record_last_seen buf <? time_today e).
Qed.

Lemma open_state_path_keeps_sound (e : env) (statepath : string) (s : state) :
  ledger_access e = true ->
  ledger_sound (files s !! statepath) = true ->
  ledger_sound (files (snd (open_state_path e statepath s)) !! statepath)
  = true.
Proof.
  intros Hacc Hsound.
  destruct (files s !! statepath) as [content|] eqn:Hfile.
  - rewrite (open_state_path_existing_files e statepath s content Hfile).
    now rewrite Hfile.
  - rewrite (open_state_path_creates e statepath s Hfile Hacc).
    cbn [snd]. rewrite lookup_write_file.
    rewrite <- (app_nil_r format_header).
    exact (ledger_sound_intro format_header [] format_header_length
             format_header_ok (List.Forall_nil _)).
Qed.

(** X20.  A session from open to close.  For a user who was admitted with
    a limit and whose ledger is sound: opening the session at one time and
    closing it at a later one both succeed, and a read at closing time then
    returns what such a read returned before the session, [used], plus the
    seconds between open and close in microseconds, or the largest counter
    when that sum does not fit.  When the day changed in between, [used] is
    zero and the whole session is charged to the new day. *)
Theorem session_time_is_charged (e0 e1 : env) (argv : list string) (s : state)
    (ostate : option string) (username : bytes) (used : Z) :
  published s = true ->
  set_data_status e0 "timelimit.session_start" = PAM_SUCCESS ->
  close_session_args argv None = inr ostate ->
  clock e0 <= clock e1 ->
  pam_user e1 = (PAM_SUCCESS, Some username) ->
  ledger_sound (files s !! default DEFAULT_STATE_PATH ostate) = true ->
  reading (get_used_time_for_user e1 (default DEFAULT_STATE_PATH ostate)
             username s)
  = Some (PAM_SUCCESS, used) ->
  exists s1 s2,
    pam_sm_open_session e0 s = (PAM_SUCCESS, s1)
    /\ pam_sm_close_session e1 argv s1 = Done (PAM_SUCCESS, s2)
    /\ reading (get_used_time_for_user e1 (default DEFAULT_STATE_PATH ostate)
                  username s2)
       = Some (PAM_SUCCESS,
               saturating_sum used
                 (usec_of ((clock e1 - clock e0) * USEC_PER_SEC))).
Proof.
  intros Hpub Hstore Hargs Hclock Huser Hsound Hread.
  set (p := default DEFAULT_STATE_PATH ostate) in *.
  set (s1 := {| files := files s;
                pam_data := <["timelimit.session_start" := DataTime (clock e0)]>
                              (pam_data s);
                syslog := syslog s |}).
  assert (Hopen_session : pam_sm_open_session e0 s = (PAM_SUCCESS, s1)).
  { unfold pam_sm_open_session, pam_set_data.
    destruct (decide (set_data_status e0 "timelimit.session_start"
                      = PAM_SUCCESS)); [reflexivity|contradiction]. }
  assert (Hpub1 : published s1 = true).
  { unfold published, pam_get_data in *. cbn [s1 pam_data].
    now rewrite lookup_insert_ne by discriminate. }
  assert (Hstart : pam_data s1 !! "timelimit.session_start"
                   = Some (DataTime (clock e0))).
  { cbn [s1 pam_data]. now rewrite lookup_insert_eq. }
  rewrite (get_used_time_files_only e1 p username s s1 eq_refl) in Hread.
  destruct (get_used_time_for_user e1 p username s1)
    as [[[gcode used'] s1g]| |] eqn:Hget; try discriminate.
  cbn [reading] in Hread. injection Hread as -> ->.
  pose proof (get_used_time_range _ _ _ _ _ _ _ Hget) as Hused.
  pose proof (usec_of_range ((clock e1 - clock e0) * USEC_PER_SEC)) as Hel.
  pose proof (saturating_sum_range used
                (usec_of ((clock e1 - clock e0) * USEC_PER_SEC))
                (proj1 Hused) (proj1 Hel)) as Hsat.
  destruct (get_success_reopens _ _ _ _ _ _ Hget) as [unread Hreopen].
  destruct (open_state_path_inv e1 p s1g s1g unread Hreopen) as [Hacc _].
  assert (Hsound1 : ledger_sound (files s1g !! p) = true).
  { rewrite (get_used_time_state _ _ _ _ _ _ _ Hget).
    now apply open_state_path_keeps_sound. }
  destruct (set_used_time_sound e1 p username
              (saturating_sum used
                 (usec_of ((clock e1 - clock e0) * USEC_PER_SEC)))
              s1g Hacc Hsound1) as [s2 Hset].
  exists s1, s2. split; [exact Hopen_session|]. split.
  - unfold pam_sm_close_session, pam_get_data.
    rewrite Hpub1, Hargs, Hstart. cbn [negb]. fold p.
    apply Z.ltb_ge in Hclock. rewrite Hclock, Huser, Hget.
    rewrite accumulate_saturates by assumption.
    now rewrite Hset.
  - rewrite (get_after_set e1 e1 p username _ s1g s2
               (ledger_sound_whole _ Hsound1) Hset Hacc).
    cbn [reading]. rewrite Z.ltb_irrefl.
    rewrite usec_of_id; [reflexivity|].
    unfold USEC_INFINITY in Hsat. lia.
Qed.

Lemma session_time_witness :
  exists s1 s2,
    pam_sm_open_session Sample.sys Sample.admitted_world = (PAM_SUCCESS, s1)
    /\ pam_sm_close_session Sample.sys_later ["statepath=data/state"] s1
       = Done (PAM_SUCCESS, s2)
    /\ reading (get_used_time_for_user Sample.sys_later
                  (default DEFAULT_STATE_PATH (Some "data/state"))
                  (lit "ted") s2)
       = Some (PAM_SUCCESS,
               saturating_sum (5 * Sample.hour)
                 (usec_of ((clock Sample.sys_later - clock Sample.sys)
                           * USEC_PER_SEC))).
Proof.
  apply (session_time_is_charged Sample.sys Sample.sys_later
           ["statepath=data/state"] Sample.admitted_world
           (Some "data/state") (lit "ted") (5 * Sample.hour));
    solve [vm_compute; reflexivity | vm_compute; discriminate].
Defined.

(** ** Users the limits file does not name *)

Lemma entries_of_other_users (username : bytes) (ls : list conf_line) :
  forallb (conf_line_of_other_user username) ls = true ->
  forallb (other_user username) (omap conf_line_entry ls) = true.
Proof.
  induction ls as [|l ls IH]; intros Hall; [reflexivity|].
  cbn [forallb] in Hall. apply andb_prop in Hall as [Hl Hls].
  cbn [omap list_omap]. unfold conf_line_of_other_user in Hl.
  destruct (conf_line_entry l) as [entry|]; [|now apply IH].
  cbn [forallb]. rewrite Hl. now apply IH.
Qed.

Section UnlistedUser.

Variable parse_time : bytes -> option Z.
Variable format_timespan : Z -> option bytes.

(** X21.  A user whom no entry of a well-formed limits file names is not
    limited: the admission check returns [PAM_IGNORE] and leaves the state
    exactly as it was; no state file is created, nothing is logged and
    nothing is published. *)
Theorem unlisted_user_is_ignored (e : env) (argv : list string) (s : state)
    (opath ostate : option string) (username : bytes) (ls : list conf_line) :
  acct_mgmt_args argv None None = inr (opath, ostate) ->
  pam_user e = (PAM_SUCCESS, Some username) ->
  files s !! default DEFAULT_CONFIG_PATH opath = Some (conf_text ls) ->
  fopen_ok e = true ->
  forallb (conf_line_ok (stack_neighbour e)) ls = true ->
  forallb (conf_line_of_other_user username) ls = true ->
  pam_sm_acct_mgmt parse_time format_timespan e argv s = Done (PAM_IGNORE, s).
Proof.
  intros Hargs Huser Hfile Hopen Hok Hothers.
  pose proof (fgets_lines_conf_text (stack_neighbour e) ls [] Hok) as Hlines.
  rewrite app_nil_r in Hlines. cbn [fgets_lines] in Hlines.
  rewrite app_nil_r in Hlines.
  destruct (conf_lines_accepted (stack_neighbour e) ls Hok) as [Hacc Hent].
  rewrite (acct_mgmt_accepted_file parse_time format_timespan e argv s
             opath ostate username (conf_text ls) Hargs Huser Hfile Hopen)
    by (rewrite Hlines; exact Hacc).
  rewrite Hlines, Hent.
  now rewrite (match_user_others username _ None s
                 (entries_of_other_users username ls Hothers)).
Qed.

End UnlistedUser.

Lemma unlisted_user_witness :
  pam_sm_acct_mgmt Sample.parse_time Sample.format_timespan Sample.sys
    ["path=data/limits"] SampleLimits.world_others
  = Done (PAM_IGNORE, SampleLimits.world_others).
Proof.
  apply (unlisted_user_is_ignored Sample.parse_time Sample.format_timespan
           Sample.sys ["path=data/limits"] SampleLimits.world_others
           (Some "data/limits") None (lit "ted") SampleLimits.others);
    vm_compute; reflexivity.
Defined.

(** ** A state file the module does not accept *)

Section UnusableLedger.

Variable parse_time : bytes -> option Z.
Variable format_timespan : Z -> option bytes.

(** X22.  The admission check fails closed.  For a user with a configured
    limit that parses, a state file that does not start with the format
    header makes the check deny with [PAM_PERM_DENIED], whatever the limit
    is: one log entry is made by the ledger, nothing is published and no
    file is changed. *)
Theorem unusable_ledger_denies_admission (e : env) (argv : list string)
    (s s0 s' : state) (opath ostate : option string) (username text : bytes)
    (table : list (bytes * bytes)) (limit : Z) (content : bytes) :
  acct_mgmt_args argv None None = inr (opath, ostate) ->
  pam_user e = (PAM_SUCCESS, Some username) ->
  parse_config_file e (default DEFAULT_CONFIG_PATH opath) s
  = (Done (PAM_SUCCESS, table), s0) ->
  match_user table username None s0 = (Some text, s') ->
  parse_time text = Some limit ->
  files s !! default DEFAULT_STATE_PATH ostate = Some content ->
  take 12 content <> format_header ->
  exists m,
    pam_sm_acct_mgmt parse_time format_timespan e argv s
    = Done (PAM_PERM_DENIED, pam_syslog m s')
    /\ pam_data (pam_syslog m s') = pam_data s
    /\ files (pam_syslog m s') = files s.
Proof.
  intros Hargs Huser Hconf Hmatch Hparse Hfile Hforeign.
  pose proof (parse_config_file_files e (default DEFAULT_CONFIG_PATH opath) s)
    as Hpfiles.
  pose proof (parse_config_file_pam_data e (default DEFAULT_CONFIG_PATH opath) s)
    as Hpdata.
  rewrite Hconf in Hpfiles, Hpdata. cbn [snd] in Hpfiles, Hpdata.
  pose proof (match_user_frame username table None s0) as [Hmfiles Hmdata].
  rewrite Hmatch in Hmfiles, Hmdata. cbn [snd] in Hmfiles, Hmdata.
  assert (Hfile' : files s' !! default DEFAULT_STATE_PATH ostate = Some content)
    by (now rewrite Hmfiles, Hpfiles).
  destruct (open_state_path_refuses e (default DEFAULT_STATE_PATH ostate) s'
              content Hfile' Hforeign) as [m Hopen].
  exists m. split; [|split].
  - unfold pam_sm_acct_mgmt. rewrite Hargs, Huser, Hconf, Hmatch.
    unfold enforce_limit, get_used_time_for_user.
    now rewrite Hparse, Hopen.
  - cbn [pam_syslog pam_data]. congruence.
  - cbn [pam_syslog files]. congruence.
Qed.

End UnusableLedger.

Lemma unusable_ledger_witness :
  exists m,
    pam_sm_acct_mgmt Sample.parse_time Sample.format_timespan Sample.sys
      Sample.args Sample.foreign_world
    = Done (PAM_PERM_DENIED,
            pam_syslog m (Sample.after_match Sample.foreign_world))
    /\ pam_data (pam_syslog m (Sample.after_match Sample.foreign_world))
       = pam_data Sample.foreign_world
    /\ files (pam_syslog m (Sample.after_match Sample.foreign_world))
       = files Sample.foreign_world.
Proof.
  apply (unusable_ledger_denies_admission Sample.parse_time
           Sample.format_timespan Sample.sys Sample.args Sample.foreign_world
           Sample.foreign_world (Sample.after_match Sample.foreign_world)
           (Some "data/limits") (Some "data/state") (lit "ted") (lit "12h")
           Sample.table (12 * Sample.hour)
           (lit "Format: " ++ le_split 4 2));
    solve [vm_compute; reflexivity | vm_compute; discriminate].
Defined.

(** ** The record a session close writes *)

(** Behind a partial record the new record is appended where the file
    ends. *)
Lemma set_used_time_append_tail (e : env) (statepath : string) (u : bytes)
    (used : Z) (s : state) (hdr : bytes) (pre : list bytes) (tail : bytes) :
  files s !! statepath = Some (hdr ++ concat pre ++ tail) ->
  length hdr = 12%nat -> header_ok hdr = true ->
  Forall (other_record u) pre ->
  (length tail < record_size)%nat ->
  ledger_access e = true ->
  set_used_time_for_user e statepath u used s
  = Done (PAM_SUCCESS,
          write_file statepath
            (hdr ++ concat pre ++ tail ++ make_record e u used) s).
Proof.
  intros Hfile Hlen Hok Hpre Htail Hacc.
  unfold set_used_time_for_user.
  rewrite (open_state_path_existing e statepath s hdr _ Hfile Hlen Hok Hacc).
  rewrite (scan_records_no_match pre (scan_fuel (concat pre ++ tail)) u tail
             O fresh_buf O (idle_fresh u) Hpre Htail
             (records_fuel pre tail u Hpre)).
  rewrite Hfile. cbn [default from_option id].
  assert (Hpre_len : Forall (fun r => length r = record_size) pre).
  { eapply Forall_impl; [exact Hpre|]. intros r Hr. exact (proj1 Hr). }
  replace (12 + (0 + record_size * length pre + length tail))%nat
    with (length (hdr ++ concat pre ++ tail)).
  2:{ rewrite !length_app, Hlen.
      rewrite (concat_records_length u pre Hpre_len). lia. }
  rewrite pwrite_append. now rewrite <- !app_assoc.
Qed.

(** Every byte string is a run of whole records of other users followed by
    a whole record of the user, or by less than a record. *)
Lemma own_record_or_tail (u : bytes) (n : nat) :
  forall unread : bytes,
    (length unread <= n)%nat ->
    exists pre rest,
      unread = concat pre ++ rest
      /\ Forall (other_record u) pre
      /\ ((exists old post,
              rest = old ++ post /\ length old = record_size
              /\ strncmp_eq (NAME_MAX + 1) u old = true)
          \/ (length rest < record_size)%nat).
Proof.
  pose proof record_size_eq as Hsize.
  induction n as [|n IH]; intros unread Hn.
  - exists [], unread. split; [reflexivity|]. split; [constructor|].
    right. lia.
  - destruct (Nat.lt_ge_cases (length unread) record_size) as [Hshort|Hlong].
    + exists [], unread. split; [reflexivity|]. split; [constructor|].
      now right.
    + assert (Hr : length (take record_size unread) = record_size)
        by (rewrite length_take; lia).
      destruct (strncmp_eq (NAME_MAX + 1) u (take record_size unread))
        eqn:Hm.
      * exists [], (take record_size unread ++ drop record_size unread).
        split; [now rewrite take_drop|]. split; [constructor|].
        left. exists (take record_size unread), (drop record_size unread).
        split; [reflexivity|]. split; [exact Hr|exact Hm].
      * destruct (IH (drop record_size unread)) as (pre & rest & Heq & Hpre & Hrest).
        { rewrite length_drop. lia. }
        exists (take record_size unread :: pre), rest.
        split; [|split; [|exact Hrest]].
        -- cbn [concat]. rewrite <- app_assoc, <- Heq.
           now rewrite take_drop.
        -- constructor; [|exact Hpre]. split; [exact Hr|exact Hm].
Qed.

(** C2.  A session close that has read the ledger stores the user's
    record with the counter [used + elapsed], where [used] is what the
    ledger read returned and [elapsed] the session's microseconds, when
    that sum fits 64 bits, and with [USEC_INFINITY] when it does not.  The
    close succeeds, and the state file it leaves is the one the read left
    with exactly that record written into it: in place of the user's first
    whole record when there is one, and behind the last byte of the file
    when there is none; every other byte is as it was.  The counter bytes
    of the record decode to the saturated sum, and wherever the record
    stands on the record grid a read that follows returns that sum. *)
Theorem close_session_saturating_sum (e : env) (argv : list string)
    (s s1 : state) (ostate : option string) (username : bytes)
    (start_time used : Z) :
  published s = true ->
  close_session_args argv None = inr ostate ->
  pam_data s !! "timelimit.session_start" = Some (DataTime start_time) ->
  start_time <= clock e ->
  pam_user e = (PAM_SUCCESS, Some username) ->
  get_used_time_for_user e (default DEFAULT_STATE_PATH ostate) username s
  = Done (PAM_SUCCESS, used, s1) ->
  let statepath := default DEFAULT_STATE_PATH ostate in
  let total :=
    saturating_sum used (usec_of ((clock e - start_time) * USEC_PER_SEC)) in
  let record := make_record e username total in
  exists (hdr : bytes) (pre : list bytes) (rest : bytes) (s2 : state),
    files s1 !! statepath = Some (hdr ++ concat pre ++ rest)
    /\ length hdr = 12%nat
    /\ Forall (other_record username) pre
    /\ pam_sm_close_session e argv s = Done (PAM_SUCCESS, s2)
    /\ ((exists old post,
            rest = old ++ post
            /\ length old = record_size
            /\ strncmp_eq (NAME_MAX + 1) username old = true
            /\ s2 = write_file statepath (hdr ++ concat pre ++ record ++ post) s1
            /\ get_used_time_for_user e statepath username s2
               = Done (PAM_SUCCESS, total, s2))
        \/ ((length rest < record_size)%nat
            /\ s2 = write_file statepath (hdr ++ concat pre ++ rest ++ record) s1
            /\ (rest = [] ->
                get_used_time_for_user e statepath username s2
                = Done (PAM_SUCCESS, total, s2))))
    /\ record_used_time record = total
    /\ 0 <= total <= USEC_INFINITY.
Proof.
  intros Hpub Hargs Hstart Hclock Huser Hget statepath total record.
  subst statepath. set (statepath := default DEFAULT_STATE_PATH ostate) in *.
  pose proof (get_used_time_range _ _ _ _ _ _ _ Hget) as Hused.
  pose proof (usec_of_range ((clock e - start_time) * USEC_PER_SEC)) as Hel.
  pose proof (saturating_sum_range used
                (usec_of ((clock e - start_time) * USEC_PER_SEC))
                (proj1 Hused) (proj1 Hel)) as Hsat.
  fold total in Hsat.
  assert (Htotal : usec_of total = total)
    by (apply usec_of_id; unfold USEC_INFINITY in Hsat; lia).
  destruct (get_success_reopens _ _ _ _ _ _ Hget) as [unread Hopen].
  destruct (open_state_path_inv e statepath s1 s1 unread Hopen)
    as (Hacc & hdr & Hfile & Hlen & Hok & _).
  destruct (own_record_or_tail username (length unread) unread (le_n _))
    as (pre & rest & -> & Hpre & Hrest).
  assert (Hclose : forall s2,
             set_used_time_for_user e statepath username total s1
             = Done (PAM_SUCCESS, s2) ->
             pam_sm_close_session e argv s = Done (PAM_SUCCESS, s2)).
  { intros s2 Hset. unfold pam_sm_close_session, pam_get_data.
    rewrite Hpub, Hargs, Hstart. cbn [negb]. fold statepath.
    apply Z.ltb_ge in Hclock. rewrite Hclock, Huser, Hget.
    rewrite accumulate_saturates by assumption.
    fold total. now rewrite Hset. }
  assert (Hback : forall back : bytes,
             get_used_time_for_user e statepath username
               (write_file statepath (hdr ++ concat pre ++ record ++ back) s1)
             = Done (PAM_SUCCESS, total,
                     write_file statepath
                       (hdr ++ concat pre ++ record ++ back) s1)).
  { intros back.
    rewrite (get_used_time_found e statepath username _ hdr pre record back
               (lookup_write_file _ _ _) Hlen Hok Hpre
               (make_record_length e username total)
               (make_record_matches e username total) Hacc).
    unfold record. rewrite make_record_last_seen, make_record_used_time.
    now rewrite Z.ltb_irrefl, Htotal. }
  exists hdr, pre, rest.
  destruct Hrest as [(old & post & -> & Hold & Hm) | Htail].
  - pose proof (set_used_time_replace e statepath username total s1 hdr pre
                  old [post]) as Hset.
    cbn [concat] in Hset. rewrite app_nil_r in Hset.
    specialize (Hset Hfile Hlen Hok Hpre Hold Hm Hacc).
    exists (write_file statepath (hdr ++ concat pre ++ record ++ post) s1).
    split; [exact Hfile|]. split; [exact Hlen|]. split; [exact Hpre|].
    split; [exact (Hclose _ Hset)|].
    split; [|split; [|exact Hsat]].
    + left. exists old, post.
      split; [reflexivity|]. split; [exact Hold|]. split; [exact Hm|].
      split; [reflexivity|]. exact (Hback post).
    + unfold record. rewrite make_record_used_time. exact Htotal.
  - pose proof (set_used_time_append_tail e statepath username total s1 hdr
                  pre rest Hfile Hlen Hok Hpre Htail Hacc) as Hset.
    exists (write_file statepath (hdr ++ concat pre ++ rest ++ record) s1).
    split; [exact Hfile|]. split; [exact Hlen|]. split; [exact Hpre|].
    split; [exact (Hclose _ Hset)|].
    split; [|split; [|exact Hsat]].
    + right. split; [exact Htail|]. split; [reflexivity|].
      intros ->. cbn [app].
      pose proof (Hback []) as Hb. rewrite app_nil_r in Hb. exact Hb.
    + unfold record. rewrite make_record_used_time. exact Htotal.
Qed.

(** "ted" has used five hours and closes a session of one hour: the
    record in the ledger is replaced by one of six hours. *)
Lemma close_session_witness :
  (exists (hdr : bytes) (pre : list bytes) (rest : bytes) (s2 : state),
    files Sample.session_world !! "data/state"
    = Some (hdr ++ concat pre ++ rest)
    /\ length hdr = 12%nat
    /\ Forall (other_record (lit "ted")) pre
    /\ pam_sm_close_session Sample.sys ["statepath=data/state"]
         Sample.session_world
       = Done (PAM_SUCCESS, s2)
    /\ ((exists old post,
            rest = old ++ post
            /\ length old = record_size
            /\ strncmp_eq (NAME_MAX + 1) (lit "ted") old = true
            /\ s2 = write_file "data/state"
                      (hdr ++ concat pre
                         ++ make_record Sample.sys (lit "ted") (6 * Sample.hour)
                         ++ post)
                      Sample.session_world
            /\ get_used_time_for_user Sample.sys "data/state" (lit "ted") s2
               = Done (PAM_SUCCESS, 6 * Sample.hour, s2))
        \/ ((length rest < record_size)%nat
            /\ s2 = write_file "data/state"
                      (hdr ++ concat pre ++ rest
                         ++ make_record Sample.sys (lit "ted") (6 * Sample.hour))
                      Sample.session_world
            /\ (rest = [] ->
                get_used_time_for_user Sample.sys "data/state" (lit "ted") s2
                = Done (PAM_SUCCESS, 6 * Sample.hour, s2))))
    /\ record_used_time (make_record Sample.sys (lit "ted") (6 * Sample.hour))
       = 6 * Sample.hour
    /\ 0 <= 6 * Sample.hour <= USEC_INFINITY)
  /\ pam_sm_close_session Sample.sys ["statepath=data/state"]
       Sample.session_world
     = Done (PAM_SUCCESS,
             write_file "data/state"
               (format_header
                  ++ Sample.record_of (lit "ted") (time_today Sample.sys)
                       (6 * Sample.hour))
               Sample.session_world).
Proof.
  split.
  - apply (close_session_saturating_sum Sample.sys ["statepath=data/state"]
             Sample.session_world Sample.session_world (Some "data/state")
             (lit "ted") (clock Sample.sys - 3600) (5 * Sample.hour)).
    + vm_compute. reflexivity.
    + vm_compute. reflexivity.
    + vm_compute. reflexivity.
    + vm_compute. discriminate.
    + vm_compute. reflexivity.
    + vm_compute. reflexivity.
  - vm_compute. reflexivity.
Defined.
